(** * zk-email-verifier: anchored field extraction, packing and proof binding

    A shallow embedding of
    - [circuits/RecoverEmailCircuit.circom] (both variants of [MyCircuit]),
    - [scripts/snarkjsUtils.ts] ([checkGroth16ZkeyLayout]),
    - [scripts/generateWitness.ts] (the index computation of [main]),
    - the contract methods quoted in [docs/wasm-groth16-verifier.md],
    with the properties the specification states about them.

    A circom template is embedded as its witness computation: every signal
    assigned with [<==] is computed from the inputs, every [===] is a check,
    and the result is [None] as soon as one constraint cannot be satisfied.
    Signals are elements of the BN254 scalar field, written as integers in
    [0, p) with the reduction modulo [p] spelled out. *)

From Stdlib Require Import ZArith List Lia ZifyNat Bool String Ascii.
From stdpp Require Import base option list gmap pretty.

Local Open Scope Z_scope.

(** ** The scalar field of the proof system *)

Module Field.

Definition p : Z :=
  21888242871839275222246405745257275088548364400416034343698204186575808495617.

Definition felt (x : Z) : Prop := 0 <= x < p.

Definition fadd (a b : Z) : Z := (a + b) mod p.
Definition fsub (a b : Z) : Z := (a - b) mod p.
Definition fmul (a b : Z) : Z := (a * b) mod p.

End Field.

Export Field.

Definition is_byte (b : Z) : Prop := 0 <= b < 256.

#[global] Instance felt_dec x : Decision (felt x).
Proof. unfold felt. apply _. Defined.

#[global] Instance is_byte_dec x : Decision (is_byte x).
Proof. unfold is_byte. apply _. Defined.

(** A signal array filled by a loop over its indices. *)
Definition tabulate {A} (n : nat) (f : nat -> A) : list A := map f (seq 0 n).

(** ** Templates of circomlib

    The circuit instantiates [Num2Bits], [Bits2Num], [IsZero], [LessThan],
    [LessEqThan] and (through the array templates) [GreaterThan]. They are
    imported, not part of the repository; each is embedded here as the
    witness computation of the library template. *)

Module Circomlib.

(** Modelled from the spec: [Num2Bits(n)] is imported from circomlib and
    absent from the sources. [out[i] <-- (in >> i) & 1], every [out[i]] is
    constrained to be a bit and [lc1 === in], with [lc1] the weighted sum of
    the bits, so the template is satisfiable exactly when [in] fits [n] bits. *)
Definition bit_of (x : Z) (i : nat) : Z := Z.land (Z.shiftr x (Z.of_nat i)) 1.

Definition bits_of (n : nat) (x : Z) : list Z := map (bit_of x) (seq 0 n).

Fixpoint lc (e2 : Z) (bits : list Z) : Z :=
  match bits with
  | [] => 0
  | b :: bs => b * e2 + lc (e2 + e2) bs
  end.

Definition Num2Bits (n : nat) (x : Z) : option (list Z) :=
  let out := bits_of n x in
  if decide (lc 1 out mod p = x) then Some out else None.

(** Modelled from the spec: [Bits2Num(n)] of circomlib, the weighted sum of
    its input bits. *)
Definition Bits2Num (bits : list Z) : Z := lc 1 bits mod p.

(** Modelled from the spec: [IsZero()] of circomlib,
    [out <== -in*inv + 1; in*out === 0]: in a field the two constraints
    leave one value for [out], 1 when [in] is 0 and 0 otherwise. *)
Definition IsZero (x : Z) : Z := if decide (x = 0) then 1 else 0.

(** Modelled from the spec: [LessThan(n)] of circomlib,
    [n2b = Num2Bits(n+1); n2b.in <== in[0] + (1<<n) - in[1];
     out <== 1 - n2b.out[n]]. *)
Definition LessThan (n : nat) (a b : Z) : option Z :=
  bits ← Num2Bits (S n) (fsub (fadd a (2 ^ Z.of_nat n)) b);
  Some (fsub 1 (nth n bits 0)).

(** Modelled from the spec: [LessEqThan(n)] of circomlib, [LessThan(n)] on
    [in[0]] and [in[1] + 1]. *)
Definition LessEqThan (n : nat) (a b : Z) : option Z :=
  LessThan n a (fadd b 1).

(** Modelled from the spec: [GreaterThan(n)] of circomlib, [LessThan(n)]
    with the inputs swapped. *)
Definition GreaterThan (n : nat) (a b : Z) : option Z :=
  LessThan n b a.

End Circomlib.

Export Circomlib.

(** ** Array templates of @zk-email/circuits *)

Module ZkEmail.

(** Modelled from the spec: [log2Ceil] of @zk-email/circuits
    ([n = a - 1; r = 0; while (n > 0) { r++; n \= 2 }]), the number of bits
    needed to index an array of [a] cells. *)
Fixpoint log2Ceil_loop (fuel n r : nat) : nat :=
  match fuel with
  | O => r
  | S fuel' => if decide (n = 0)%nat then r else log2Ceil_loop fuel' (n / 2) (S r)
  end.

Definition log2Ceil (a : nat) : nat := log2Ceil_loop a (a - 1) 0.

(** One row of the barrel shifter: cell [i] takes the cell [2^j] places to
    its right (indices modulo the array length) when the bit is set. *)
Definition mux_row (n j : nat) (b : Z) (tmp : list Z) : list Z :=
  map (fun i => let offset := ((i + 2 ^ j) mod n)%nat in
                fadd (fmul b (fsub (nth offset tmp 0) (nth i tmp 0))) (nth i tmp 0))
      (seq 0 n).

Fixpoint shift_rows (n j : nat) (bits tmp : list Z) : list Z :=
  match bits with
  | [] => tmp
  | b :: bs => shift_rows n (S j) bs (mux_row n j b tmp)
  end.

(** Modelled from the spec: [VarShiftLeft(maxArrayLen, maxOutArrayLen)] is
    imported from @zk-email/circuits and absent from the sources; the spec
    calls it a rotate-with-zero-fill shift. The shift amount is decomposed by
    [Num2Bits(log2Ceil(maxArrayLen))] and each bit drives one row of
    conditional rotations; the output is the head of the last row. *)
Definition VarShiftLeft (maxArrayLen maxOutArrayLen : nat)
    (inp : list Z) (shift : Z) : option (list Z) :=
  bits ← Num2Bits (log2Ceil maxArrayLen) shift;
  Some (take maxOutArrayLen (shift_rows maxArrayLen 0 bits inp)).

(** Modelled from the spec: [SelectSubArray(maxArrayLen, maxSubArrayLen)] is
    imported from @zk-email/circuits and absent from the sources:
    [VarShiftLeft] by [startIndex], then cell [i] is multiplied by
    [GreaterThan(log2Ceil(maxSubArrayLen))(length, i)], which zeroes the
    cells from [length] on. *)
Definition SelectSubArray (maxArrayLen maxSubArrayLen : nat)
    (inp : list Z) (startIndex length : Z) : option (list Z) :=
  shifted ← VarShiftLeft maxArrayLen maxSubArrayLen inp startIndex;
  mapM (fun i => gt ← GreaterThan (log2Ceil maxSubArrayLen) length (Z.of_nat i);
                 Some (fmul gt (nth i shifted 0)))
       (seq 0 maxSubArrayLen).

(** What [SelectSubArray] returns on a start index within the index bits
    and a length its comparators can represent: the window at the start
    index, indices taken modulo the array length, zeroed from the length on. *)
Definition window (n m : nat) (inp : list Z) (start len : Z) : option (list Z) :=
  if decide (start < 2 ^ Z.of_nat (log2Ceil n))
  then Some (tabulate m (fun i =>
               if decide (Z.of_nat i < len)
               then nth ((i + Z.to_nat start) mod n) inp 0 else 0))
  else None.

(** The rotation a barrel shifter computes, and the number a list of bits
    stands for; used to state what [VarShiftLeft] returns. *)
Definition rotl (n s : nat) (l : list Z) : list Z :=
  tabulate n (fun i => nth ((i + s) mod n) l 0).

Definition is_bit (b : Z) : Prop := b = 0 \/ b = 1.

Fixpoint bits_value (j : nat) (bits : list Z) : nat :=
  match bits with
  | [] => 0
  | b :: bs => Z.to_nat b * 2 ^ j + bits_value (S j) bs
  end.

End ZkEmail.

Export ZkEmail.

(** ** SHA-256 (FIPS 180-4) *)

Module Sha256.

Definition w32 (x : Z) : Z := x mod 2 ^ 32.
Definition rotr (n x : Z) : Z := Z.lor (Z.shiftr x n) (w32 (Z.shiftl x (32 - n))).
Definition Ch (x y z : Z) : Z :=
  Z.lxor (Z.land x y) (Z.land (Z.lxor x 0xffffffff) z).
Definition Maj (x y z : Z) : Z :=
  Z.lxor (Z.lxor (Z.land x y) (Z.land x z)) (Z.land y z).
Definition Sigma0 (x : Z) : Z := Z.lxor (Z.lxor (rotr 2 x) (rotr 13 x)) (rotr 22 x).
Definition Sigma1 (x : Z) : Z := Z.lxor (Z.lxor (rotr 6 x) (rotr 11 x)) (rotr 25 x).
Definition sigma0 (x : Z) : Z := Z.lxor (Z.lxor (rotr 7 x) (rotr 18 x)) (Z.shiftr x 3).
Definition sigma1 (x : Z) : Z := Z.lxor (Z.lxor (rotr 17 x) (rotr 19 x)) (Z.shiftr x 10).

Definition K : list Z :=
  [1116352408; 1899447441; 3049323471; 3921009573; 961987163; 1508970993;
   2453635748; 2870763221; 3624381080; 310598401; 607225278; 1426881987;
   1925078388; 2162078206; 2614888103; 3248222580; 3835390401; 4022224774;
   264347078; 604807628; 770255983; 1249150122; 1555081692; 1996064986;
   2554220882; 2821834349; 2952996808; 3210313671; 3336571891; 3584528711;
   113926993; 338241895; 666307205; 773529912; 1294757372; 1396182291;
   1695183700; 1986661051; 2177026350; 2456956037; 2730485921; 2820302411;
   3259730800; 3345764771; 3516065817; 3600352804; 4094571909; 275423344;
   430227734; 506948616; 659060556; 883997877; 958139571; 1322822218;
   1537002063; 1747873779; 1955562222; 2024104815; 2227730452; 2361852424;
   2428436474; 2756734187; 3204031479; 3329325298].

Definition H0 : list Z :=
  [1779033703; 3144134277; 1013904242; 2773480762; 1359893119; 2600822924;
   528734635; 1541459225].

(** Big-endian bytes of a number, [n] of them. *)
Fixpoint be_bytes (n : nat) (x : Z) : list Z :=
  match n with
  | O => []
  | S n' => (x / 256 ^ Z.of_nat n') mod 256 :: be_bytes n' x
  end.

Fixpoint be_int (bs : list Z) : Z :=
  match bs with
  | [] => 0
  | b :: bs' => b * 256 ^ Z.of_nat (length bs') + be_int bs'
  end.

Fixpoint chunks {A} (fuel k : nat) (l : list A) : list (list A) :=
  match fuel with
  | O => []
  | S fuel' => match l with
               | [] => []
               | _ => take k l :: chunks fuel' k (drop k l)
               end
  end.

Fixpoint schedule (n : nat) (w : list Z) : list Z :=
  match n with
  | O => w
  | S n' =>
      let t := length w in
      schedule n' (w ++ [w32 (sigma1 (nth (t - 2) w 0) + nth (t - 7) w 0
                              + sigma0 (nth (t - 15) w 0) + nth (t - 16) w 0)])
  end.

Definition round (s : list Z) (kw : Z * Z) : list Z :=
  match s with
  | [a; b; c; d; e; f; g; h] =>
      let t1 := h + Sigma1 e + Ch e f g + fst kw + snd kw in
      let t2 := Sigma0 a + Maj a b c in
      [w32 (t1 + t2); a; b; c; w32 (d + t1); e; f; g]
  | _ => s
  end.

(** The compression function on one 64-byte block. *)
Definition compress (h : list Z) (block : list Z) : list Z :=
  let w := schedule 48 (map be_int (chunks 16 4 block)) in
  let s := fold_left round (combine K w) h in
  map (fun xy => w32 (fst xy + snd xy)) (combine h s).

(** The hash state after all 64-byte blocks of an already padded message. *)
Definition hash_blocks (padded : list Z) : list Z :=
  fold_left compress (chunks (length padded) 64 padded) H0.

(** Merkle-Damgard padding: 0x80, zeros, 8-byte big-endian bit length, up to
    the next multiple of 64. *)
Definition pad (msg : list Z) : list Z :=
  let len := Z.of_nat (length msg) in
  msg ++ [128] ++ replicate (Z.to_nat ((55 - len) mod 64)) 0 ++ be_bytes 8 (8 * len).

(** The digest as 32 bytes, most significant byte of each word first. *)
Definition digest_of_state (h : list Z) : list Z := concat (map (be_bytes 4) h).

Definition sha256 (msg : list Z) : list Z := digest_of_state (hash_blocks (pad msg)).

(** The digest as 256 bits, most significant bit of each byte first. *)
Definition bits_be (n : nat) (x : Z) : list Z :=
  map (fun i => Z.b2z (Z.testbit x (Z.of_nat (n - 1 - i)))) (seq 0 n).

Definition digest_bits (h : list Z) : list Z := concat (map (bits_be 8) (digest_of_state h)).

End Sha256.

(** ** SubstringPacker *)

Module SubstringPacker.

Definition pack_size : nat := 31.
Definition maxLen : nat := 255.
Definition maxInts : nat := 9.

(** Modelled from the spec: [PackBytes(maxBytes)] of @zk-email/circuits is
    imported and absent from the sources. Following section 4.3 of the spec,
    element [i] is the big-endian integer of the 31-byte chunk starting at
    [i*31], the chunk being extended with zero bytes on the right. *)
Definition pad_right (k : nat) (l : list Z) : list Z :=
  l ++ replicate (k - length l) 0.

Definition PackBytes (bytes : list Z) : list Z :=
  map (fun i => Sha256.be_int (pad_right pack_size (take pack_size (drop (i * pack_size) bytes))))
      (seq 0 maxInts).

(** Modelled from the spec: [pack(buffer, start, length, maxLen = 255)] of
    section 4.3; the recomputation in the contract's [verify_with_binding] is
    not among the sources. A length above [maxLen] is [LengthOutOfRange]. *)
Definition pack (buffer : list Z) (start length : nat) : option (list Z) :=
  if decide (length <= maxLen)%nat
  then Some (PackBytes (take length (drop start buffer)))
  else None.

(** Modelled from the spec: the inverse the spec calls
    unpack-and-truncate-at-[length]: the 31 big-endian bytes of every element,
    in order, cut at [length]. *)
Definition unpack (elems : list Z) (length : nat) : list Z :=
  take length (concat (map (Sha256.be_bytes pack_size) elems)).

End SubstringPacker.

(** ** RecoverEmailCircuit.circom *)

Module RecoverEmailCircuit.

Definition max_header_bytes : nat := 1024.

Record Inputs := {
  emailHeader : list Z;
  emailHeaderLength : Z;
  pubkey : list Z;
  signature : list Z;
  subject_start_idx : Z;
  subject_request_id_idx : Z;
  subject_request_id_len : Z;
  subject_account_id_idx : Z;
  subject_public_key_idx : Z;
  subject_account_id_len : Z;
  subject_public_key_len : Z;
  from_start_idx : Z;
  from_addr_idx : Z;
  from_addr_len : Z;
  date_start_idx : Z;
  date_timestamp_idx : Z;
  date_timestamp_len : Z
}.

Definition prefix1 : list Z :=
  [115; 117; 98; 106; 101; 99; 116; 58; 114; 101; 99; 111; 118; 101; 114; 45].
Definition prefix2 : list Z := [101; 100; 50; 53; 53; 49; 57; 58].
Definition from_prefix : list Z := [102; 114; 111; 109; 58].
Definition date_prefix : list Z := [100; 97; 116; 101; 58].

Definition prefix1_len : Z := 16.
Definition prefix2_len : Z := 8.
Definition anchor_len : Z := 2.
Definition from_prefix_len : Z := 5.
Definition date_prefix_len : Z := 5.
Definition from_gap_max_len : nat := 255.

(** The anchor check, written three times in the template (Subject, From,
    Date): the two cells before [start_idx] are selected, and unless
    [start_idx] is zero they are constrained to be CR and LF. *)
Definition AnchorCheck (emailHeader : list Z) (start_idx : Z) : option unit :=
  anchor ← SelectSubArray max_header_bytes 2 emailHeader (fsub start_idx 2) anchor_len;
  let isFirst := IsZero start_idx in
  guard (fmul (fsub 1 isFirst) (fsub (nth 0 anchor 0) 13) = 0);;
  guard (fmul (fsub 1 isFirst) (fsub (nth 1 anchor 0) 10) = 0);;
  Some ().

(** A static prefix: [n] cells are selected at [start] and each is
    constrained to the expected byte. *)
Definition PrefixCheck (emailHeader : list Z) (start : Z) (expected : list Z)
    : option unit :=
  sel ← SelectSubArray max_header_bytes (length expected) emailHeader start
          (Z.of_nat (length expected));
  guard (sel = expected);;
  Some ().

(** The layout of the Subject line after the prefix. *)
Definition SubjectStructure (i : Inputs) : option unit :=
  guard (subject_request_id_idx i = fadd (subject_start_idx i) prefix1_len);;
  let afterRequestId := fadd (subject_request_id_idx i) (subject_request_id_len i) in
  requestDelimiter ← SelectSubArray max_header_bytes 1 (emailHeader i) afterRequestId 1;
  guard (nth 0 requestDelimiter 0 = 32);;
  guard (subject_account_id_idx i = fadd afterRequestId 1);;
  let afterAccountId := fadd (subject_account_id_idx i) (subject_account_id_len i) in
  delimiter ← SelectSubArray max_header_bytes 1 (emailHeader i) afterAccountId 1;
  guard (nth 0 delimiter 0 = 32);;
  PrefixCheck (emailHeader i) (fadd afterAccountId 1) prefix2;;
  guard (subject_public_key_idx i = fadd (fadd afterAccountId 1) prefix2_len);;
  Some ().

(** Modelled from the spec: [PackByteSubArray(maxArrayLen, 255)] is imported
    from @zk-email/circuits and absent from the sources: [SelectSubArray]
    followed by [PackBytes]. *)
Definition PackByteSubArray (emailHeader : list Z) (startIndex length : Z)
    : option (list Z) :=
  sel ← SelectSubArray max_header_bytes SubstringPacker.maxLen emailHeader startIndex length;
  Some (SubstringPacker.PackBytes sel).

(** The range check of the From line: no CR or LF between "from:" and the
    address. *)
Definition FromGapCheck (emailHeader : list Z) (from_start_idx from_addr_idx : Z)
    : option unit :=
  let from_gap_start := fadd from_start_idx from_prefix_len in
  let from_gap_len := fsub from_addr_idx from_gap_start in
  fromGap ← SelectSubArray max_header_bytes from_gap_max_len emailHeader
              from_gap_start from_gap_len;
  guard (Forall (fun b => IsZero (fmul (fsub b 13) (fsub b 10)) = 0) fromGap);;
  Some ().

Definition SubjectChecks (i : Inputs) : option unit :=
  AnchorCheck (emailHeader i) (subject_start_idx i);;
  PrefixCheck (emailHeader i) (subject_start_idx i) prefix1;;
  SubjectStructure i.

Definition FromChecks (i : Inputs) : option unit :=
  AnchorCheck (emailHeader i) (from_start_idx i);;
  PrefixCheck (emailHeader i) (from_start_idx i) from_prefix;;
  FromGapCheck (emailHeader i) (from_start_idx i) (from_addr_idx i).

Definition DateChecks (i : Inputs) : option unit :=
  AnchorCheck (emailHeader i) (date_start_idx i);;
  PrefixCheck (emailHeader i) (date_start_idx i) date_prefix.

Record Outputs := {
  request_id_packed : list Z;
  account_id_packed : list Z;
  public_key_packed : list Z;
  from_email_packed : list Z;
  timestamp_packed : list Z
}.

Section Plain.

(** [EmailVerifier] of @zk-email/circuits (the DKIM signature check over the
    header) is outside the repository: whether its constraints are
    satisfiable is a parameter. *)
Variable EmailVerifier : list Z -> Z -> list Z -> list Z -> bool.

(** [MyCircuit(1024, 64, 121, 17, 31)], the variant that exposes the packed
    From address. *)
Definition MyCircuit (i : Inputs) : option Outputs :=
  guard (EmailVerifier (emailHeader i) (emailHeaderLength i) (pubkey i) (signature i) = true);;
  SubjectChecks i;;
  requestId ← PackByteSubArray (emailHeader i) (subject_request_id_idx i) (subject_request_id_len i);
  accountId ← PackByteSubArray (emailHeader i) (subject_account_id_idx i) (subject_account_id_len i);
  publicKey ← PackByteSubArray (emailHeader i) (subject_public_key_idx i) (subject_public_key_len i);
  AnchorCheck (emailHeader i) (from_start_idx i);;
  PrefixCheck (emailHeader i) (from_start_idx i) from_prefix;;
  fromEmail ← PackByteSubArray (emailHeader i) (from_addr_idx i) (from_addr_len i);
  FromGapCheck (emailHeader i) (from_start_idx i) (from_addr_idx i);;
  DateChecks i;;
  date ← PackByteSubArray (emailHeader i) (date_timestamp_idx i) (date_timestamp_len i);
  Some {| request_id_packed := requestId; account_id_packed := accountId;
          public_key_packed := publicKey; from_email_packed := fromEmail;
          timestamp_packed := date |}.

End Plain.


(** *** The privacy-preserving variant: sender binding by hash *)

Definition max_from_len : nat := 255.
Definition max_account_len : nat := 255.
Definition max_preimage_len : nat := 512.
Definition max_preimage_padded_len : nat := 576.

(** One iteration of the lowercasing loops: the cell is constrained to a
    byte and 32 is added when it lies in 'A'..'Z'. *)
Definition lower_byte (b : Z) : option Z :=
  Num2Bits 8 b;;
  lt65 ← LessThan 8 b 65;
  lt91 ← LessThan 8 b 91;
  let isGe65 := fsub 1 lt65 in
  let isUpper := fmul isGe65 lt91 in
  Some (fadd b (fmul 32 isUpper)).

(** The ladder of eight threshold comparisons selecting the number of
    64-byte blocks. *)
Definition numBlocks (preimage_len : Z) : option Z :=
  le55 ← LessEqThan 9 preimage_len 55;
  le119 ← LessEqThan 9 preimage_len 119;
  le183 ← LessEqThan 9 preimage_len 183;
  le247 ← LessEqThan 9 preimage_len 247;
  le311 ← LessEqThan 9 preimage_len 311;
  le375 ← LessEqThan 9 preimage_len 375;
  le439 ← LessEqThan 9 preimage_len 439;
  le503 ← LessEqThan 9 preimage_len 503;
  let isBlock1 := le55 in
  let isBlock2 := fsub le119 le55 in
  let isBlock3 := fsub le183 le119 in
  let isBlock4 := fsub le247 le183 in
  let isBlock5 := fsub le311 le247 in
  let isBlock6 := fsub le375 le311 in
  let isBlock7 := fsub le439 le375 in
  let isBlock8 := fsub le503 le439 in
  let isBlock9 := fsub 1 le503 in
  guard (fadd (fadd (fadd (fadd (fadd (fadd (fadd (fadd isBlock1 isBlock2) isBlock3)
           isBlock4) isBlock5) isBlock6) isBlock7) isBlock8) isBlock9 = 1);;
  Some (fadd (fadd (fadd (fadd (fadd (fadd (fadd (fadd
          (fmul 1 isBlock1) (fmul 2 isBlock2)) (fmul 3 isBlock3)) (fmul 4 isBlock4))
          (fmul 5 isBlock5)) (fmul 6 isBlock6)) (fmul 7 isBlock7)) (fmul 8 isBlock8))
          (fmul 9 isBlock9)).

(** Modelled from the spec: [Sha256Bytes(maxByteLength)] of
    @zk-email/circuits is imported and absent from the sources. Per step 4 of
    section 4.4 it hashes the padded buffer with the standard compression
    function: the padded length must be a whole number of 64-byte blocks of
    the buffer, and the output is the digest of those blocks as 256 bits. *)
Definition Sha256Bytes (maxByteLength : nat) (paddedIn : list Z) (paddedInLength : Z)
    : option (list Z) :=
  guard (paddedInLength mod 64 = 0 /\ 0 < paddedInLength <= Z.of_nat maxByteLength);;
  mapM (Num2Bits 8) paddedIn;;
  Some (Sha256.digest_bits (Sha256.hash_blocks (take (Z.to_nat paddedInLength) paddedIn))).

(** Modelled from the spec: [PackBits(256, 8)] is imported and absent from the
    sources; per the comment at its use it packs the digest bits into 32 raw
    bytes, big-endian. *)
Definition PackBits (bits : list Z) : list Z :=
  map (fun c => fold_left (fun acc b => 2 * acc + b) c 0) (Sha256.chunks 32 8 bits).

(** Lines 452-712 of the hashed variant, from the two selected and
    zero-filled substrings to the 32 public hash bytes. *)
Definition SenderBindingHasher (fromEmailBytes : list Z) (from_addr_len : Z)
    (accountIdBytes : list Z) (subject_account_id_len : Z) : option (list Z) :=
  (* Range checks for lengths used in hashing. *)
  Num2Bits 8 from_addr_len;;
  Num2Bits 8 subject_account_id_len;;
  from_email_lower ← mapM lower_byte fromEmailBytes;
  account_id_lower ← mapM lower_byte accountIdBytes;
  let fromVec := tabulate max_preimage_len
      (fun i => if decide (i < max_from_len)%nat then nth i from_email_lower 0 else 0) in
  let accountVecBase := tabulate max_preimage_len
      (fun i => if decide (i < max_account_len)%nat then nth i account_id_lower 0 else 0) in
  let delimBase := tabulate max_preimage_len
      (fun i => if decide (i = 0)%nat then 124 else 0) in
  let accountShiftLeft := fsub (fsub (Z.of_nat max_preimage_len) from_addr_len) 1 in
  accountShifter ← VarShiftLeft max_preimage_len max_preimage_len accountVecBase accountShiftLeft;
  let fromLenIsZero := IsZero from_addr_len in
  let delimShiftLeft :=
    fmul (fsub (Z.of_nat max_preimage_len) from_addr_len) (fsub 1 fromLenIsZero) in
  delimShifter ← VarShiftLeft max_preimage_len max_preimage_len delimBase delimShiftLeft;
  let preimage := tabulate max_preimage_len
      (fun i => fadd (fadd (nth i fromVec 0) (nth i delimShifter 0)) (nth i accountShifter 0)) in
  let preimage_len := fadd (fadd from_addr_len 1) subject_account_id_len in
  Num2Bits 9 preimage_len;;
  nb ← numBlocks preimage_len;
  let preimage_padded_len := fmul nb 64 in
  let preimage_ext := tabulate max_preimage_padded_len
      (fun i => if decide (i < max_preimage_len)%nat then nth i preimage 0 else 0) in
  let oneBase := tabulate max_preimage_padded_len
      (fun i => if decide (i = 0)%nat then 128 else 0) in
  let shiftOne := fsub (Z.of_nat max_preimage_padded_len) preimage_len in
  oneShifter ← VarShiftLeft max_preimage_padded_len max_preimage_padded_len oneBase shiftOne;
  let len_bits := fmul preimage_len 8 in
  lenBitsDecomp ← Num2Bits 16 len_bits;
  let lenLo := Bits2Num (take 8 lenBitsDecomp) in
  let lenHi := Bits2Num (take 8 (drop 8 lenBitsDecomp)) in
  let lenBase := tabulate max_preimage_padded_len
      (fun i => if decide (i = 6)%nat then lenHi
                else if decide (i = 7)%nat then lenLo else 0) in
  let shiftLen := fsub (fadd (Z.of_nat max_preimage_padded_len) 8) preimage_padded_len in
  lenShifter ← VarShiftLeft max_preimage_padded_len max_preimage_padded_len lenBase shiftLen;
  let from_address_hash_preimage_padded := tabulate max_preimage_padded_len
      (fun i => fadd (fadd (nth i preimage_ext 0) (nth i oneShifter 0)) (nth i lenShifter 0)) in
  from_address_hash_bits ←
    Sha256Bytes max_preimage_padded_len from_address_hash_preimage_padded preimage_padded_len;
  Some (PackBits from_address_hash_bits).

Record HashedOutputs := {
  h_request_id_packed : list Z;
  h_account_id_packed : list Z;
  h_public_key_packed : list Z;
  from_address_hash : list Z;
  h_timestamp_packed : list Z
}.

Section Hashed.

Variable EmailVerifier : list Z -> Z -> list Z -> list Z -> bool.

(** [MyCircuit(1024, 64, 121, 17, 31)], the variant that exposes only the
    hash of the From address. *)
Definition MyCircuit_hashed (i : Inputs) : option HashedOutputs :=
  guard (EmailVerifier (emailHeader i) (emailHeaderLength i) (pubkey i) (signature i) = true);;
  SubjectChecks i;;
  requestId ← PackByteSubArray (emailHeader i) (subject_request_id_idx i) (subject_request_id_len i);
  accountId ← PackByteSubArray (emailHeader i) (subject_account_id_idx i) (subject_account_id_len i);
  publicKey ← PackByteSubArray (emailHeader i) (subject_public_key_idx i) (subject_public_key_len i);
  FromChecks i;;
  fromEmailBytes ← SelectSubArray max_header_bytes max_from_len (emailHeader i)
                     (from_addr_idx i) (from_addr_len i);
  accountIdBytes ← SelectSubArray max_header_bytes max_account_len (emailHeader i)
                     (subject_account_id_idx i) (subject_account_id_len i);
  hash ← SenderBindingHasher fromEmailBytes (from_addr_len i)
           accountIdBytes (subject_account_id_len i);
  DateChecks i;;
  date ← PackByteSubArray (emailHeader i) (date_timestamp_idx i) (date_timestamp_len i);
  Some {| h_request_id_packed := requestId; h_account_id_packed := accountId;
          h_public_key_packed := publicKey; from_address_hash := hash;
          h_timestamp_packed := date |}.

End Hashed.

End RecoverEmailCircuit.

(** ** SenderBindingHasher as the specification words it *)

Module SenderBindingSpec.

(** Step 1: ASCII 'A'..'Z' to lowercase, every other byte unchanged. *)
Definition lower (b : Z) : Z := if decide (65 <= b <= 90) then b + 32 else b.

(** Step 2: [lower(from) || '|' || lower(accountId)]. *)
Definition preimage (fromEmail accountId : list Z) : list Z :=
  map lower fromEmail ++ [124] ++ map lower accountId.

(** Steps 3 and 4: the standard SHA-256 digest of the preimage. *)
Definition hash (fromEmail accountId : list Z) : list Z :=
  Sha256.sha256 (preimage fromEmail accountId).

End SenderBindingSpec.

(** ** The witnesses the circuit accepts

    The conditions on the private inputs under which the constraints of
    [MyCircuit] are satisfiable, written over the bytes of the header. *)

Module Layout.

Import RecoverEmailCircuit.

(** The [len] cells a selection at [start] reads: the index wraps around
    the end of the buffer. *)
Definition cells (header : list Z) (start : Z) (len : nat) : list Z :=
  map (fun i => nth ((i + Z.to_nat start) mod max_header_bytes) header 0)
      (seq 0 len).

(** The lengths a selection of 255 cells can be given: 0 to 256, and [p - 1],
    which is -1 in the field. *)
Definition selectable (len : Z) : Prop := 0 <= len <= 256 \/ len = p - 1.

(** The number of cells such a selection keeps, the others being zeroed. *)
Definition kept (len : Z) : nat :=
  if decide (len = p - 1) then 0%nat else Z.to_nat (Z.min len 255).

(** A length as the integer it stands for in the index arithmetic. *)
Definition signed (len : Z) : Z := if decide (len = p - 1) then -1 else len.

(** The 255 cells selected at [start] for the length [len], and their
    packing. *)
Definition selected (header : list Z) (start len : Z) : list Z :=
  SubstringPacker.pad_right 255 (cells header start (kept len)).

Definition packed (header : list Z) (start len : Z) : list Z :=
  SubstringPacker.PackBytes (selected header start len).

(** A header line starts at [start]: CR LF before it, then the name. *)
Definition anchored (header : list Z) (start : Z) (name : list Z) : Prop :=
  2 <= start < 1024 /\
  nth (Z.to_nat (start - 2)) header 0 = 13 /\
  nth (Z.to_nat (start - 1)) header 0 = 10 /\
  cells header start (length name) = name.

(** "subject:recover-", the request id, a space, the account id, a space,
    "ed25519:", the public key. *)
Definition subject_layout (i : Inputs) : Prop :=
  let h := emailHeader i in
  let afterRequestId := subject_request_id_idx i + subject_request_id_len i in
  let afterAccountId := subject_account_id_idx i + signed (subject_account_id_len i) in
  anchored h (subject_start_idx i) prefix1 /\
  subject_request_id_idx i = subject_start_idx i + 16 /\
  0 <= subject_request_id_len i <= 256 /\
  nth (Z.to_nat afterRequestId) h 0 = 32 /\
  subject_account_id_idx i = afterRequestId + 1 /\
  selectable (subject_account_id_len i) /\
  nth (Z.to_nat afterAccountId) h 0 = 32 /\
  cells h (afterAccountId + 1) 8 = prefix2 /\
  subject_public_key_idx i = afterAccountId + 9 /\
  subject_public_key_idx i < 1024 /\
  selectable (subject_public_key_len i).

(** "from:", then at most 256 bytes, the first 255 of them neither CR nor
    LF, then the address. *)
Definition from_layout (i : Inputs) : Prop :=
  let h := emailHeader i in
  anchored h (from_start_idx i) from_prefix /\
  from_start_idx i + 4 <= from_addr_idx i <= from_start_idx i + 261 /\
  from_start_idx i + 5 < 1024 /\
  from_addr_idx i < 1024 /\
  (forall k : nat,
     from_start_idx i + 5 <= Z.of_nat k < from_addr_idx i ->
     Z.of_nat k < from_start_idx i + 260 ->
     nth k h 0 <> 13 /\ nth k h 0 <> 10) /\
  selectable (from_addr_len i).

(** "date:" at the start of a line; the timestamp anywhere in the buffer. *)
Definition date_layout (i : Inputs) : Prop :=
  anchored (emailHeader i) (date_start_idx i) date_prefix /\
  date_timestamp_idx i < 1024 /\
  selectable (date_timestamp_len i).

Definition layout (i : Inputs) : Prop :=
  subject_layout i /\ from_layout i /\ date_layout i.

(** The public outputs of the variant that exposes the address. *)
Definition outputs_of (i : Inputs) : Outputs := {|
  request_id_packed :=
    packed (emailHeader i) (subject_request_id_idx i) (subject_request_id_len i);
  account_id_packed :=
    packed (emailHeader i) (subject_account_id_idx i) (subject_account_id_len i);
  public_key_packed :=
    packed (emailHeader i) (subject_public_key_idx i) (subject_public_key_len i);
  from_email_packed :=
    packed (emailHeader i) (from_addr_idx i) (from_addr_len i);
  timestamp_packed :=
    packed (emailHeader i) (date_timestamp_idx i) (date_timestamp_len i)
|}.

(** The public outputs of the variant that exposes the sender hash. *)
Definition hashed_outputs_of (i : Inputs) : HashedOutputs := {|
  h_request_id_packed :=
    packed (emailHeader i) (subject_request_id_idx i) (subject_request_id_len i);
  h_account_id_packed :=
    packed (emailHeader i) (subject_account_id_idx i) (subject_account_id_len i);
  h_public_key_packed :=
    packed (emailHeader i) (subject_public_key_idx i) (subject_public_key_len i);
  from_address_hash :=
    SenderBindingSpec.hash
      (cells (emailHeader i) (from_addr_idx i) (kept (from_addr_len i)))
      (cells (emailHeader i) (subject_account_id_idx i)
         (kept (subject_account_id_len i)));
  h_timestamp_packed :=
    packed (emailHeader i) (date_timestamp_idx i) (date_timestamp_len i)
|}.

(** The same witness with another end of the public key, another end of the
    address and another place and length of the timestamp. *)
Definition relocate (i : Inputs) (pk_len addr_len ts_idx ts_len : Z) : Inputs := {|
  emailHeader := emailHeader i;
  emailHeaderLength := emailHeaderLength i;
  pubkey := pubkey i;
  signature := signature i;
  subject_start_idx := subject_start_idx i;
  subject_request_id_idx := subject_request_id_idx i;
  subject_request_id_len := subject_request_id_len i;
  subject_account_id_idx := subject_account_id_idx i;
  subject_public_key_idx := subject_public_key_idx i;
  subject_account_id_len := subject_account_id_len i;
  subject_public_key_len := pk_len;
  from_start_idx := from_start_idx i;
  from_addr_idx := from_addr_idx i;
  from_addr_len := addr_len;
  date_start_idx := date_start_idx i;
  date_timestamp_idx := ts_idx;
  date_timestamp_len := ts_len
|}.

(** The same witness with the request id ended at a later space: the one
    [j] bytes into the account id, where the account id now starts. *)
Definition resplit (i : Inputs) (j : Z) : Inputs := {|
  emailHeader := emailHeader i;
  emailHeaderLength := emailHeaderLength i;
  pubkey := pubkey i;
  signature := signature i;
  subject_start_idx := subject_start_idx i;
  subject_request_id_idx := subject_request_id_idx i;
  subject_request_id_len := subject_request_id_len i + 1 + j;
  subject_account_id_idx := subject_account_id_idx i + j + 1;
  subject_public_key_idx := subject_public_key_idx i;
  subject_account_id_len := subject_account_id_len i - j - 1;
  subject_public_key_len := subject_public_key_len i;
  from_start_idx := from_start_idx i;
  from_addr_idx := from_addr_idx i;
  from_addr_len := from_addr_len i;
  date_start_idx := date_start_idx i;
  date_timestamp_idx := date_timestamp_idx i;
  date_timestamp_len := date_timestamp_len i
|}.

(** The private inputs as field elements, and a header of bytes. *)
Definition well_formed (i : Inputs) : Prop :=
  length (emailHeader i) = max_header_bytes /\
  Forall is_byte (emailHeader i) /\
  Forall felt
    [subject_start_idx i; subject_request_id_idx i; subject_request_id_len i;
     subject_account_id_idx i; subject_account_id_len i;
     subject_public_key_idx i; subject_public_key_len i;
     from_start_idx i; from_addr_idx i; from_addr_len i;
     date_start_idx i; date_timestamp_idx i; date_timestamp_len i].

End Layout.

(** ** The verifier contract (docs/wasm-groth16-verifier.md) *)

Module Contract.

Import SubstringPacker.

(** Rust's [Result<T, E>]. *)
Inductive Result (T E : Type) : Type :=
| Ok (t : T)
| Err (e : E).
Arguments Ok {T E} t.
Arguments Err {T E} e.

Definition unwrap_or {T E} (r : Result T E) (d : T) : T :=
  match r with
  | Ok t => t
  | Err _ => d
  end.

(** [ProofInput], matching snarkjs [proof.json]. *)
Record ProofInput := {
  pi_a : list string;
  pi_b : list (list string);
  pi_c : list string
}.

(** The two public-input layouts of section 3 of the specification. *)
Inductive Layout := Plaintext | Hashed.

(** The binding claim supplied by the caller; the strings are byte strings. *)
Record BindingClaim := {
  accountId : list Z;
  newPublicKey : list Z;
  fromEmail : list Z;
  timestamp : list Z
}.

Definition slot (inputs : list Z) (off n : nat) : list Z := take n (drop off inputs).

(** A string packed as a whole. *)
Definition pack_str (s : list Z) : option (list Z) := pack s 0 (length s).

(** The sender hash of section 4.4, defined for lengths up to 255. *)
Definition hash_str (from account : list Z) : option (list Z) :=
  if decide (length from <= 255 /\ length account <= 255)%nat
  then Some (SenderBindingSpec.hash from account)
  else None.

Section Verifier.

(** The arkworks types and functions the contract calls. Field elements of
    the public inputs are integers. *)
Variables Proof PreparedVerifyingKey ParseError SynthesisError : Type.
Variable parse_proof : ProofInput -> Result Proof ParseError.
Variable parse_public_inputs : list string -> Result (list Z) ParseError.
Variable verify_proof :
  PreparedVerifyingKey -> Proof -> list Z -> Result bool SynthesisError.
(** [prepare_verifying_key(&vk::verifying_key())]. *)
Variable pvk : PreparedVerifyingKey.

(** The base [verify] method, as quoted in the document. *)
Definition verify (proof : ProofInput) (public_inputs : list string) : bool :=
  match parse_proof proof with
  | Err _ => false
  | Ok proof_ark =>
      match parse_public_inputs public_inputs with
      | Err _ => false
      | Ok inputs_ark => unwrap_or (verify_proof pvk proof_ark inputs_ark) false
      end
  end.

(** Modelled from the spec: the body of [verify_with_binding] is not among the
    sources (the document describes it in prose). Following section 4.5, the
    packed account id, public key and timestamp, and the packed From address
    or, in the hashed layout, the sender hash are recomputed from the claim
    and compared element-wise with their slots of the public inputs, in the
    canonical order of section 3; the result also requires the base check. *)
Definition bindings_match (layout : Layout) (inputs : list Z) (c : BindingClaim)
    : bool :=
  match pack_str (accountId c), pack_str (newPublicKey c), pack_str (timestamp c) with
  | Some a, Some k, Some t =>
      bool_decide (slot inputs 9 9 = a) && bool_decide (slot inputs 18 9 = k) &&
      match layout with
      | Plaintext =>
          match pack_str (fromEmail c) with
          | Some f => bool_decide (slot inputs 27 9 = f)
                      && bool_decide (slot inputs 36 9 = t)
          | None => false
          end
      | Hashed =>
          match hash_str (fromEmail c) (accountId c) with
          | Some h => bool_decide (slot inputs 27 32 = h)
                      && bool_decide (slot inputs 59 9 = t)
          | None => false
          end
      end
  | _, _, _ => false
  end.

(** The same comparison as a proposition: every recomputed value exists and
    equals its slot. *)
Definition bindings_hold (layout : Layout) (inputs : list Z) (c : BindingClaim)
    : Prop :=
  pack_str (accountId c) = Some (slot inputs 9 9) /\
  pack_str (newPublicKey c) = Some (slot inputs 18 9) /\
  match layout with
  | Plaintext =>
      pack_str (fromEmail c) = Some (slot inputs 27 9) /\
      pack_str (timestamp c) = Some (slot inputs 36 9)
  | Hashed =>
      hash_str (fromEmail c) (accountId c) = Some (slot inputs 27 32) /\
      pack_str (timestamp c) = Some (slot inputs 59 9)
  end.

Definition verify_with_binding (layout : Layout) (proof : ProofInput)
    (public_inputs : list string) (c : BindingClaim) : bool :=
  verify proof public_inputs &&
  match parse_public_inputs public_inputs with
  | Err _ => false
  | Ok inputs => bindings_match layout inputs c
  end.

End Verifier.

(** Two byte strings that differ in exactly one position. *)
Definition one_byte_changed (s s' : list Z) : Prop :=
  exists (i : nat) (b : Z),
    (i < length s)%nat /\ is_byte b /\ nth i s 0 <> b /\ s' = <[i := b]> s.

(** Two claims that differ in one byte of one field. *)
Inductive one_field_changed (c c' : BindingClaim) : Prop :=
| change_accountId :
    one_byte_changed (accountId c) (accountId c') ->
    newPublicKey c' = newPublicKey c -> fromEmail c' = fromEmail c ->
    timestamp c' = timestamp c -> one_field_changed c c'
| change_newPublicKey :
    one_byte_changed (newPublicKey c) (newPublicKey c') ->
    accountId c' = accountId c -> fromEmail c' = fromEmail c ->
    timestamp c' = timestamp c -> one_field_changed c c'
| change_fromEmail :
    one_byte_changed (fromEmail c) (fromEmail c') ->
    accountId c' = accountId c -> newPublicKey c' = newPublicKey c ->
    timestamp c' = timestamp c -> one_field_changed c c'
| change_timestamp :
    one_byte_changed (timestamp c) (timestamp c') ->
    accountId c' = accountId c -> newPublicKey c' = newPublicKey c ->
    fromEmail c' = fromEmail c -> one_field_changed c c'.

Definition claim_bytes (c : BindingClaim) : Prop :=
  Forall is_byte (accountId c) /\ Forall is_byte (newPublicKey c) /\
  Forall is_byte (fromEmail c) /\ Forall is_byte (timestamp c).

End Contract.

(** ** scripts/snarkjsUtils.ts: the layout check of a zkey file *)

Module SnarkjsUtils.

(** The reasons [checkGroth16ZkeyLayout] reports, one constructor per reason
    string, carrying the values the string interpolates. *)
Inductive Reason : Type :=
| FileTooSmall (size : Z)             (* file too small (<size> bytes) *)
| BadMagic (magic : list Z)           (* bad magic (<magic>) *)
| UnsupportedVersion (version : Z)    (* unsupported version (<version>) *)
| UnexpectedNSections (nSections : Z) (* unexpected nSections (<nSections>) *)
| UnexpectedEOF (i pos : Z)
    (* unexpected EOF reading section header #<i+1> at offset <pos> *)
| DuplicateSection (sectionType : Z)  (* duplicate section <sectionType> *)
| SectionExceedsFile (sectionType pos fileSize : Z)
    (* section <sectionType> exceeds file size (ends at <pos>, file is <fileSize>) *)
| TrailingBytes (pos fileSize : Z)
    (* trailing bytes after last section (last ends at <pos>, file is <fileSize>) *)
| MissingSection (section : Z).       (* missing section <section> *)

(** [ZkeyCheckResult = { ok: true } | { ok: false; reason: string }]. *)
Inductive ZkeyCheckResult : Type :=
| ok_true
| ok_false (reason : Reason).

Definition REQUIRED_SECTIONS : list Z := [1; 2; 3; 4; 5; 6; 7; 8; 9; 10].

(** "zkey". *)
Definition zkey_magic : list Z := [122; 107; 101; 121].

(** Little-endian integers in a buffer: [readUInt32LE], [readBigUInt64LE]. *)
Fixpoint le_int (bs : list Z) : Z :=
  match bs with
  | [] => 0
  | b :: rest => b + 256 * le_int rest
  end.

Definition readUInt32LE (buf : list Z) (offset : nat) : Z :=
  le_int (take 4 (drop offset buf)).

Definition readBigUInt64LE (buf : list Z) (offset : nat) : Z :=
  le_int (take 8 (drop offset buf)).

(** [fs.readSync(fd, buffer, 0, length, position)] into a fresh buffer. *)
Definition readSync (file : list Z) (length : nat) (position : Z) : list Z :=
  take length (drop (Z.to_nat position) file).

(** The [for] loop over the section headers: [n] iterations remain, [i] is
    the loop counter. It stops at the first violation and otherwise returns
    the set of section types seen and the end position. *)
Fixpoint section_loop (file : list Z) (fileSize : Z) (n : nat) (i : Z)
    (seen : gset Z) (pos : Z) : Reason + (gset Z * Z) :=
  match n with
  | O => inr (seen, pos)
  | S n' =>
      if decide (pos + 12 > fileSize) then inl (UnexpectedEOF i pos) else
      let sectionHeader := readSync file 12 pos in
      let sectionType := readUInt32LE sectionHeader 0 in
      let sectionSize := readBigUInt64LE sectionHeader 4 in
      if decide (sectionType ∈ seen) then inl (DuplicateSection sectionType) else
      let seen := {[sectionType]} ∪ seen in
      let pos := pos + (12 + sectionSize) in
      if decide (pos > fileSize)
      then inl (SectionExceedsFile sectionType pos fileSize)
      else section_loop file fileSize n' (i + 1) seen pos
  end.

(** [checkGroth16ZkeyLayout], on the content of a file that can be opened and
    read (the [catch] branch reports the failures of the file system). The
    magic is compared as bytes: the four bytes decode to the string "zkey"
    exactly when they are its four ASCII codes. *)
Definition checkGroth16ZkeyLayout (file : list Z) : ZkeyCheckResult :=
  let fileSize := Z.of_nat (length file) in
  if decide (fileSize < 12) then ok_false (FileTooSmall fileSize) else
  let fileHeader := readSync file 12 0 in
  let magic := take 4 fileHeader in
  if decide (magic <> zkey_magic) then ok_false (BadMagic magic) else
  let version := readUInt32LE fileHeader 4 in
  if decide (version <> 1) then ok_false (UnsupportedVersion version) else
  let nSections := readUInt32LE fileHeader 8 in
  if decide (nSections <> 10) then ok_false (UnexpectedNSections nSections) else
  match section_loop file fileSize (Z.to_nat nSections) 0 ∅ 12 with
  | inl reason => ok_false reason
  | inr (seen, pos) =>
      if decide (pos <> fileSize) then ok_false (TrailingBytes pos fileSize) else
      match find (fun section => bool_decide (section ∉ seen)) REQUIRED_SECTIONS with
      | Some section => ok_false (MissingSection section)
      | None => ok_true
      end
  end.

(** *** The layout the specification requires *)

Record ZkeySection := {
  sec_type : Z;
  sec_payload : list Z
}.

Fixpoint le_bytes (n : nat) (x : Z) : list Z :=
  match n with
  | O => []
  | S n' => x mod 256 :: le_bytes n' (x / 256)
  end.

(** [{type: uint32, size: uint64, payload}]. *)
Definition encode_section (s : ZkeySection) : list Z :=
  le_bytes 4 (sec_type s) ++ le_bytes 8 (Z.of_nat (length (sec_payload s)))
  ++ sec_payload s.

Definition section_fits (s : ZkeySection) : Prop :=
  0 <= sec_type s < 2 ^ 32 /\ Z.of_nat (length (sec_payload s)) < 2 ^ 64.

(** The section that starts at offset [k] of a file: its type and, after the
    twelve bytes of type and size, the payload of that size. *)
Definition section_at (file : list Z) (k : nat) : ZkeySection :=
  let D := drop k file in
  {| sec_type := le_int (take 4 D);
     sec_payload := take (Z.to_nat (le_int (take 8 (drop 4 D)))) (drop 12 D) |}.

(** Magic, version 1, count 10, then exactly ten sections back to back up to
    the end of the file, no type twice, every type 1..10 present. *)
Definition zkey_layout (file : list Z) : Prop :=
  exists secs : list ZkeySection,
    length secs = 10%nat /\ Forall section_fits secs /\
    file = zkey_magic ++ le_bytes 4 1 ++ le_bytes 4 10
           ++ concat (map encode_section secs) /\
    NoDup (map sec_type secs) /\
    forall t, In t REQUIRED_SECTIONS -> In t (map sec_type secs).

(** *** What the reasons say of a file *)

(** The type and the size in the section header at offset [pos]. *)
Definition type_at (file : list Z) (pos : Z) : Z :=
  le_int (take 4 (drop (Z.to_nat pos) file)).

Definition size_at (file : list Z) (pos : Z) : Z :=
  le_int (take 8 (drop 4 (drop (Z.to_nat pos) file))).

(** Past its twelve-byte header the file holds the sections [secs] back to
    back, of distinct types, the last of them ending at offset [pos]. *)
Definition sections_read (file : list Z) (secs : list ZkeySection) (pos : Z)
    : Prop :=
  Forall section_fits secs /\ NoDup (map sec_type secs) /\
  exists rest,
    drop 12 file = concat (map encode_section secs) ++ rest /\
    pos = Z.of_nat (length file) - Z.of_nat (length rest).

(** The violation each reason names, with the values its string shows. *)
Definition reason_holds (file : list Z) (r : Reason) : Prop :=
  let fileSize := Z.of_nat (length file) in
  match r with
  | FileTooSmall size => size = fileSize /\ fileSize < 12
  | BadMagic magic => magic = take 4 file /\ magic <> zkey_magic
  | UnsupportedVersion version =>
      version = le_int (take 4 (drop 4 file)) /\ version <> 1
  | UnexpectedNSections nSections =>
      nSections = le_int (take 4 (drop 8 file)) /\ nSections <> 10
  | UnexpectedEOF i pos =>
      exists secs,
        sections_read file secs pos /\ Z.of_nat (length secs) = i /\ i < 10 /\
        fileSize < pos + 12
  | DuplicateSection sectionType =>
      exists secs pos,
        sections_read file secs pos /\ (length secs < 10)%nat /\
        pos + 12 <= fileSize /\
        sectionType = type_at file pos /\ In sectionType (map sec_type secs)
  | SectionExceedsFile sectionType pos' size =>
      size = fileSize /\
      exists secs pos,
        sections_read file secs pos /\ (length secs < 10)%nat /\
        pos + 12 <= fileSize /\
        sectionType = type_at file pos /\
        pos' = pos + 12 + size_at file pos /\ fileSize < pos'
  | TrailingBytes pos size =>
      size = fileSize /\
      exists secs,
        length secs = 10%nat /\ sections_read file secs pos /\ pos < fileSize
  | MissingSection section =>
      In section REQUIRED_SECTIONS /\
      exists secs,
        length secs = 10%nat /\ sections_read file secs fileSize /\
        ~ In section (map sec_type secs)
  end.

End SnarkjsUtils.

(** ** scripts/generateWitness.ts: the layout of the fields in the header *)

Module GenerateWitness.

Import RecoverEmailCircuit.

(** *** Strings and buffers

    A JavaScript string is its sequence of UTF-16 code units, a [Buffer] its
    sequence of bytes. *)

(** The state of the UTF-8 decoder between two bytes of a sequence. *)
Record Utf8State := {
  bytes_needed : nat;
  code_point : Z;
  lower_boundary : Z;
  upper_boundary : Z
}.

(** The decoder on the first byte of a sequence: what it emits and the state
    it moves to. *)
Definition utf8_lead (b : Z) : list Z * option Utf8State :=
  if decide (0 <= b <= 127) then ([b], None)
  else if decide (194 <= b <= 223) then
    ([], Some {| bytes_needed := 1; code_point := Z.land b 31;
                 lower_boundary := 128; upper_boundary := 191 |})
  else if decide (224 <= b <= 239) then
    ([], Some {| bytes_needed := 2; code_point := Z.land b 15;
                 lower_boundary := if decide (b = 224) then 160 else 128;
                 upper_boundary := if decide (b = 237) then 159 else 191 |})
  else if decide (240 <= b <= 244) then
    ([], Some {| bytes_needed := 3; code_point := Z.land b 7;
                 lower_boundary := if decide (b = 240) then 144 else 128;
                 upper_boundary := if decide (b = 244) then 143 else 191 |})
  else ([65533], None).

(** UTF-8 decoding to code points; an ill-formed sequence decodes to U+FFFD
    and the byte that broke it is read again as a first byte. *)
Fixpoint utf8_decode (st : option Utf8State) (bs : list Z) : list Z :=
  match bs with
  | [] => match st with Some _ => [65533] | None => [] end
  | b :: rest =>
      match st with
      | None => let '(out, st') := utf8_lead b in out ++ utf8_decode st' rest
      | Some s =>
          if decide (lower_boundary s <= b <= upper_boundary s) then
            let cp := Z.lor (Z.shiftl (code_point s) 6) (Z.land b 63) in
            match bytes_needed s with
            | O | S O => cp :: utf8_decode None rest
            | S n =>
                utf8_decode (Some {| bytes_needed := n; code_point := cp;
                                     lower_boundary := 128;
                                     upper_boundary := 191 |}) rest
            end
          else
            let '(out, st') := utf8_lead b in
            65533 :: out ++ utf8_decode st' rest
      end
  end.

(** The code units of a code point: a surrogate pair above the basic plane. *)
Definition utf16_units (cp : Z) : list Z :=
  if decide (cp < 65536) then [cp]
  else [55296 + Z.shiftr (cp - 65536) 10; 56320 + Z.land (cp - 65536) 1023].

(** [buf.toString("utf8")]. *)
Definition toString_utf8 (buf : list Z) : list Z :=
  concat (map utf16_units (utf8_decode None buf)).

(** [Buffer.from(str, "utf8").length]: one to three bytes for a code unit,
    four for a surrogate pair, three (U+FFFD) for a lone surrogate. *)
Fixpoint utf8_length (s : list Z) : Z :=
  match s with
  | [] => 0
  | c :: rest =>
      if decide (c < 128) then 1 + utf8_length rest
      else if decide (c < 2048) then 2 + utf8_length rest
      else if decide (55296 <= c <= 56319) then
        match rest with
        | d :: rest' =>
            if decide (56320 <= d <= 57343) then 4 + utf8_length rest'
            else 3 + utf8_length rest
        | [] => 3
        end
      else 3 + utf8_length rest
  end.

(** [str.indexOf(searchString)]: the first index at which [searchString]
    occurs, -1 when it does not occur. *)
Fixpoint indexOf_from (i : Z) (s searchString : list Z) : Z :=
  if bool_decide (take (length searchString) s = searchString) then i
  else match s with
       | [] => -1
       | _ :: rest => indexOf_from (i + 1) rest searchString
       end.

Definition indexOf (s searchString : list Z) : Z := indexOf_from 0 s searchString.

(** *** Regular expressions

    The fragment the script uses: literal characters, [\s], negated classes,
    greedy [*] and [+] on one character, [^], [$], capturing groups that do
    not nest, the flags [i] and [m]. *)

Inductive ClassItem :=
| CSpace           (* \s *)
| CChar (c : Z).

Inductive Atom :=
| Lit (c : Z)
| Space            (* \s *)
| NoneOf (cs : list ClassItem).   (* [^...] *)

Inductive Item :=
| One (a : Atom)
| Star (a : Atom)
| Plus (a : Atom)
| Bol              (* ^ *)
| Eol              (* $ *)
| Open             (* ( *)
| Close.           (* ) *)

Record RegExp := {
  source : list Item;
  ignoreCase : bool;
  multiline : bool
}.

(** The result of [exec]: [index] and the array of the match and its groups. *)
Record Match := {
  index : Z;
  groups : list (list Z)
}.

(** White space and line terminators of the language, as [\s] matches them. *)
Definition is_line_terminator (c : Z) : bool :=
  bool_decide (c = 10 \/ c = 13 \/ c = 8232 \/ c = 8233).

Definition is_space (c : Z) : bool :=
  bool_decide (9 <= c <= 13 \/ c = 32 \/ c = 160 \/ c = 5760 \/
               8192 <= c <= 8202 \/ c = 8232 \/ c = 8233 \/ c = 8239 \/
               c = 8287 \/ c = 12288 \/ c = 65279).

(** Greedy repetition: the longest run first, then shorter ones down to
    [min]. *)
Fixpoint greedy {R} (try : nat -> option R) (min n : nat) : option R :=
  if (n <? min)%nat then None else
  match try n with
  | Some r => Some r
  | None => match n with O => None | S n' => greedy try min n' end
  end.

Section Matcher.

Variable re : RegExp.
Variable s : list Z.

(** Case folding under the flag [i]; no character outside ASCII folds to an
    ASCII one. *)
Definition canonicalize (c : Z) : Z :=
  if ignoreCase re && bool_decide (97 <= c <= 122) then c - 32 else c.

Definition class_item_matches (ci : ClassItem) (c : Z) : bool :=
  match ci with
  | CSpace => is_space c
  | CChar d => bool_decide (canonicalize d = canonicalize c)
  end.

Definition atom_matches (a : Atom) (c : Z) : bool :=
  match a with
  | Lit d => bool_decide (canonicalize d = canonicalize c)
  | Space => is_space c
  | NoneOf cs => negb (existsb (fun ci => class_item_matches ci c) cs)
  end.

Fixpoint run_length (a : Atom) (l : list Z) : nat :=
  match l with
  | c :: rest => if atom_matches a c then S (run_length a rest) else O
  | [] => O
  end.

Definition at_bol (pos : nat) : bool :=
  match pos with
  | O => true
  | S before =>
      multiline re &&
      match s !! before with Some c => is_line_terminator c | None => false end
  end.

Definition at_eol (pos : nat) : bool :=
  match s !! pos with
  | None => true
  | Some c => multiline re && is_line_terminator c
  end.

(** The backtracking matcher from position [pos]: the end of the match and
    the spans of the groups, [opened] being where the open group began. *)
Fixpoint match_items (rs : list Item) (pos opened : nat)
    (caps : list (nat * nat)) : option (nat * list (nat * nat)) :=
  match rs with
  | [] => Some (pos, caps)
  | One a :: rs' =>
      match s !! pos with
      | Some c => if atom_matches a c then match_items rs' (S pos) opened caps
                  else None
      | None => None
      end
  | Star a :: rs' =>
      greedy (fun k => match_items rs' (pos + k) opened caps) 0
             (run_length a (drop pos s))
  | Plus a :: rs' =>
      greedy (fun k => match_items rs' (pos + k) opened caps) 1
             (run_length a (drop pos s))
  | Bol :: rs' => if at_bol pos then match_items rs' pos opened caps else None
  | Eol :: rs' => if at_eol pos then match_items rs' pos opened caps else None
  | Open :: rs' => match_items rs' pos pos caps
  | Close :: rs' => match_items rs' pos opened (caps ++ [(opened, pos)])
  end.

Definition substring (from to : nat) : list Z := take (to - from) (drop from s).

(** The leftmost match: [n] start positions remain from [start]. *)
Fixpoint search (n start : nat) : option Match :=
  match n with
  | O => None
  | S n' =>
      match match_items (source re) start start [] with
      | Some (stop, caps) =>
          Some {| index := Z.of_nat start;
                  groups := substring start stop
                            :: map (fun c => substring c.1 c.2) caps |}
      | None => search n' (S start)
      end
  end.

(** [re.exec(s)] of a regular expression without the flag [g]. *)
Definition exec : option Match := search (S (length s)) 0.

End Matcher.

Definition lit (text : string) : list Item :=
  map (fun c => One (Lit (Z.of_N (N_of_ascii c)))) (list_ascii_of_string text).

(** [m[k]] of a match whose group [k] took part. *)
Definition group (m : Match) (k : nat) : list Z := default [] (groups m !! k).

(** [[^\s\r\n]] *)
Definition not_space : Atom := NoneOf [CSpace; CChar 13; CChar 10].

(** [[^\r\n]] *)
Definition not_newline : Atom := NoneOf [CChar 13; CChar 10].

(** [/subject:\s*recover-([^\s\r\n]+)\s+([^\s\r\n]+)\s+ed25519:([^\s\r\n]+)/i] *)
Definition subjectRegex : RegExp := {|
  source := lit "subject:" ++ [Star Space] ++ lit "recover-"
            ++ [Open; Plus not_space; Close; Plus Space;
                Open; Plus not_space; Close; Plus Space]
            ++ lit "ed25519:" ++ [Open; Plus not_space; Close];
  ignoreCase := true; multiline := false
|}.

(** [/^from:[^\r\n]*$/im] *)
Definition fromLineRegex : RegExp := {|
  source := [Bol] ++ lit "from:" ++ [Star not_newline; Eol];
  ignoreCase := true; multiline := true
|}.

(** [/<([^>\s]+)>/] *)
Definition angleRegex : RegExp := {|
  source := lit "<" ++ [Open; Plus (NoneOf [CChar 62; CSpace]); Close] ++ lit ">";
  ignoreCase := false; multiline := false
|}.

(** [/^from:\s*([^\s\r\n]+)/i] *)
Definition bareRegex : RegExp := {|
  source := [Bol] ++ lit "from:" ++ [Star Space; Open; Plus not_space; Close];
  ignoreCase := true; multiline := false
|}.

(** [/^date:\s*([^\r\n]+)$/im] *)
Definition dateRegex : RegExp := {|
  source := [Bol] ++ lit "date:" ++ [Star Space; Open; Plus not_newline; Close; Eol];
  ignoreCase := true; multiline := true
|}.

(** *** The layout computed by [main] *)

(** The errors [main] throws while it locates the fields. *)
Inductive Error :=
| SubjectNotFound       (* Failed to find "Subject: recover-..." pattern *)
| RequestIdOffset       (* Failed to locate request_id substring offset *)
| AccountIdOffset       (* Failed to locate account_id substring offset *)
| PublicKeyOffset       (* Failed to locate new_public_key substring offset *)
| FromNotFound          (* Failed to find "From:" header line *)
| SenderNotFound        (* Failed to extract sender email *)
| SenderOffset          (* Failed to locate sender email substring offset *)
| DateNotFound          (* Failed to find "Date:" header line *)
| TimestampOffset.      (* Failed to locate timestamp substring offset *)

Definition or_throw {A} (e : Error) (x : option A) : Error + A :=
  match x with Some a => inr a | None => inl e end.

Definition require (e : Error) (b : bool) : Error + unit :=
  if b then inr () else inl e.

Definition bind {A B} (x : Error + A) (k : A -> Error + B) : Error + B :=
  match x with inl e => inl e | inr a => k a end.

Local Notation "x <- m ; k" := (bind m (fun x => k))
  (at level 100, m at next level, right associativity).

(** The part of [main] that builds [circuitInput] from the inputs of the
    email verifier. *)
Definition circuitInput (emailHeader : list Z) (emailHeaderLength : Z)
    (pubkey signature : list Z) : Error + Inputs :=
  let headerBuf := take (Z.to_nat emailHeaderLength) emailHeader in
  let headerStr := toString_utf8 headerBuf in
  subjectMatch <- or_throw SubjectNotFound (exec subjectRegex headerStr);
  let requestIdStr := group subjectMatch 1 in
  let accountIdStr := group subjectMatch 2 in
  let newPublicKeyStr := group subjectMatch 3 in
  let subjectFull := group subjectMatch 0 in
  let subjectBaseIndex := index subjectMatch in
  let subject_start_idx := subjectBaseIndex in
  let requestIdOffset := indexOf subjectFull requestIdStr in
  _ <- require RequestIdOffset (negb (requestIdOffset <? 0));
  let subject_request_id_idx := subjectBaseIndex + requestIdOffset in
  let subject_request_id_len := utf8_length requestIdStr in
  let accountIdOffset := indexOf subjectFull accountIdStr in
  _ <- require AccountIdOffset (negb (accountIdOffset <? 0));
  let subject_account_id_idx := subjectBaseIndex + accountIdOffset in
  let pkOffset := indexOf subjectFull newPublicKeyStr in
  _ <- require PublicKeyOffset (negb (pkOffset <? 0));
  let subject_public_key_idx := subjectBaseIndex + pkOffset in
  let subject_account_id_len := utf8_length accountIdStr in
  let subject_public_key_len := utf8_length newPublicKeyStr in
  fromLineMatch <- or_throw FromNotFound (exec fromLineRegex headerStr);
  let fromLine := group fromLineMatch 0 in
  let from_start_idx := index fromLineMatch in
  fromEmailStr <-
    match exec angleRegex fromLine with
    | Some angleMatch => inr (group angleMatch 1)
    | None =>
        bareMatch <- or_throw SenderNotFound (exec bareRegex fromLine);
        inr (group bareMatch 1)
    end;
  let fromEmailOffset := indexOf fromLine fromEmailStr in
  _ <- require SenderOffset (negb (fromEmailOffset <? 0));
  let from_addr_idx := from_start_idx + fromEmailOffset in
  let from_addr_len := utf8_length fromEmailStr in
  dateMatch <- or_throw DateNotFound (exec dateRegex headerStr);
  let dateFull := group dateMatch 0 in
  let timestampStr := group dateMatch 1 in
  let date_start_idx := index dateMatch in
  let tsOffset := indexOf dateFull timestampStr in
  _ <- require TimestampOffset (negb (tsOffset <? 0));
  let date_timestamp_idx := date_start_idx + tsOffset in
  let date_timestamp_len := utf8_length timestampStr in
  inr {| RecoverEmailCircuit.emailHeader := emailHeader;
         RecoverEmailCircuit.emailHeaderLength := emailHeaderLength;
         RecoverEmailCircuit.pubkey := pubkey;
         RecoverEmailCircuit.signature := signature;
         RecoverEmailCircuit.subject_start_idx := subject_start_idx;
         RecoverEmailCircuit.subject_request_id_idx := subject_request_id_idx;
         RecoverEmailCircuit.subject_request_id_len := subject_request_id_len;
         RecoverEmailCircuit.subject_account_id_idx := subject_account_id_idx;
         RecoverEmailCircuit.subject_public_key_idx := subject_public_key_idx;
         RecoverEmailCircuit.subject_account_id_len := subject_account_id_len;
         RecoverEmailCircuit.subject_public_key_len := subject_public_key_len;
         RecoverEmailCircuit.from_start_idx := from_start_idx;
         RecoverEmailCircuit.from_addr_idx := from_addr_idx;
         RecoverEmailCircuit.from_addr_len := from_addr_len;
         RecoverEmailCircuit.date_start_idx := date_start_idx;
         RecoverEmailCircuit.date_timestamp_idx := date_timestamp_idx;
         RecoverEmailCircuit.date_timestamp_len := date_timestamp_len |}.

(** [Buffer.from(str, "utf8")]: the bytes a string encodes to. *)
Fixpoint utf8_encode (s : list Z) : list Z :=
  match s with
  | [] => []
  | c :: rest =>
      if decide (c < 128) then c :: utf8_encode rest
      else if decide (c < 2048) then
        [192 + Z.shiftr c 6; 128 + Z.land c 63] ++ utf8_encode rest
      else
        let three (u : Z) :=
          [224 + Z.shiftr u 12; 128 + Z.land (Z.shiftr u 6) 63; 128 + Z.land u 63] in
        if decide (55296 <= c <= 56319) then
          match rest with
          | d :: rest' =>
              if decide (56320 <= d <= 57343) then
                let cp := 65536 + (c - 55296) * 1024 + (d - 56320) in
                [240 + Z.shiftr cp 18; 128 + Z.land (Z.shiftr cp 12) 63;
                 128 + Z.land (Z.shiftr cp 6) 63; 128 + Z.land cp 63]
                ++ utf8_encode rest'
              else three 65533 ++ utf8_encode rest
          | [] => three 65533
          end
        else if decide (56320 <= c <= 57343) then three 65533 ++ utf8_encode rest
        else three c ++ utf8_encode rest
  end.

End GenerateWitness.

(** ** What the located layout addresses (scripts/generateWitness.ts)

    The predicates in which the layout computed by [main] is described:
    the code units, or the bytes, at an offset. *)

Module Located.

Import RecoverEmailCircuit GenerateWitness.

(** [s.slice(idx, idx + len)]. *)
Definition slice (s : list Z) (idx len : Z) : list Z :=
  take (Z.to_nat len) (drop (Z.to_nat idx) s).

Definition is_ascii (s : list Z) : Prop := Forall (fun c => 0 <= c < 128) s.

(** Case folding of the ASCII letters, as the flag [i] compares them. *)
Definition upper (c : Z) : Z := if bool_decide (97 <= c <= 122) then c - 32 else c.

(** A header name at an offset, in any letter case. *)
Definition name_at (s : list Z) (idx : Z) (name : list Z) : Prop :=
  0 <= idx /\
  map upper (slice s idx (Z.of_nat (length name))) = map upper name.

(** An offset at the start of the string or after a line terminator. *)
Definition line_start (s : list Z) (idx : Z) : Prop :=
  idx = 0 \/
  0 < idx /\ exists c, s !! Z.to_nat (idx - 1) = Some c /\ is_line_terminator c = true.

Definition is_newline (c : Z) : bool := bool_decide (c = 13 \/ c = 10).

(** A text the pattern [(a+)] captured. *)
Definition captured (re : RegExp) (a : Atom) (text : list Z) : Prop :=
  text <> [] /\ Forall (fun c => atom_matches re a c = true) text.

(** A located field: at or after [from], the code units at [idx] are a text
    that is not empty and holds no excluded character, [len] is the number
    of bytes of its UTF-8 encoding, and where the buffer is ASCII up to the
    end of the field the text is the [len] bytes of the buffer at [idx]. *)
Definition field_at (buf s : list Z) (from idx len : Z) (excluded : Z -> bool) : Prop :=
  exists text : list Z,
    text <> [] /\ Forall (fun c => excluded c = false) text /\
    from <= idx /\ slice s idx (Z.of_nat (length text)) = text /\
    len = utf8_length text /\
    forall n : nat, is_ascii (take n buf) -> idx + len <= Z.of_nat n ->
      slice buf idx len = text.

Definition subject_name : list Z := [115; 117; 98; 106; 101; 99; 116; 58].

(** The layout [main] computes, read in the decoded header. *)
Definition located_layout (buf : list Z) (i : Inputs) : Prop :=
  let s := toString_utf8 buf in
  name_at s (subject_start_idx i) subject_name /\
  field_at buf s (subject_start_idx i)
    (subject_request_id_idx i) (subject_request_id_len i) is_space /\
  field_at buf s (subject_start_idx i)
    (subject_account_id_idx i) (subject_account_id_len i) is_space /\
  field_at buf s (subject_start_idx i)
    (subject_public_key_idx i) (subject_public_key_len i) is_space /\
  line_start s (from_start_idx i) /\
  name_at s (from_start_idx i) from_prefix /\
  field_at buf s (from_start_idx i) (from_addr_idx i) (from_addr_len i) is_space /\
  line_start s (date_start_idx i) /\
  name_at s (date_start_idx i) date_prefix /\
  field_at buf s (date_start_idx i)
    (date_timestamp_idx i) (date_timestamp_len i) is_newline.

End Located.

(** ** Sample headers *)

Module Examples.

Import RecoverEmailCircuit.

Definition str (s : string) : list Z :=
  map (fun c => Z.of_N (N_of_ascii c)) (list_ascii_of_string s).

Definition crlf : list Z := [13; 10].

(** The header buffer: the verified bytes followed by zero padding. *)
Definition header_of (bytes : list Z) : list Z :=
  bytes ++ replicate (max_header_bytes - length bytes) 0.

Definition accept_all : list Z -> Z -> list Z -> list Z -> bool :=
  fun _ _ _ _ => true.

(** The scenario of the specification, as the signature scheme
    canonicalizes it (no space after the header names). *)
Definition scenario_bytes : list Z :=
  str "to:bob@example.org" ++ crlf
  ++ str "subject:recover-req42 alice.near ed25519:PUBKEY123" ++ crlf
  ++ str "from:Alice <alice@example.com>" ++ crlf
  ++ str "date:Mon, 01 Jan 2024 00:00:00 +0000" ++ crlf.

Definition scenario : Inputs := {|
  emailHeader := header_of scenario_bytes;
  emailHeaderLength := Z.of_nat (length scenario_bytes);
  pubkey := []; signature := [];
  subject_start_idx := 20;
  subject_request_id_idx := 36;
  subject_request_id_len := 5;
  subject_account_id_idx := 42;
  subject_public_key_idx := 61;
  subject_account_id_len := 10;
  subject_public_key_len := 9;
  from_start_idx := 72;
  from_addr_idx := 84;
  from_addr_len := 17;
  date_start_idx := 104;
  date_timestamp_idx := 109;
  date_timestamp_len := 31
|}.

(** A Subject line with a space in what is read as the account id. *)
Definition two_accounts_bytes : list Z :=
  str "to:bob@example.org" ++ crlf
  ++ str "subject:recover-req42 alice.near bob.near ed25519:PUBKEY123" ++ crlf
  ++ str "from:Alice <alice@example.com>" ++ crlf
  ++ str "date:Mon, 01 Jan 2024 00:00:00 +0000" ++ crlf.

Definition two_accounts : Inputs := {|
  emailHeader := header_of two_accounts_bytes;
  emailHeaderLength := Z.of_nat (length two_accounts_bytes);
  pubkey := []; signature := [];
  subject_start_idx := 20;
  subject_request_id_idx := 36;
  subject_request_id_len := 5;
  subject_account_id_idx := 42;
  subject_public_key_idx := 70;
  subject_account_id_len := 19;
  subject_public_key_len := 9;
  from_start_idx := 81;
  from_addr_idx := 93;
  from_addr_len := 17;
  date_start_idx := 113;
  date_timestamp_idx := 118;
  date_timestamp_len := 31
|}.

(** A From line whose gap is 256 bytes long and ends in a line feed. *)
Definition long_gap_bytes : list Z :=
  str "to:bob@example.org" ++ crlf
  ++ str "subject:recover-req42 alice.near ed25519:PUBKEY123" ++ crlf
  ++ str "date:Mon, 01 Jan 2024 00:00:00 +0000" ++ crlf
  ++ str "from:" ++ replicate 255 32 ++ [10] ++ str "mallory@example.com" ++ crlf.

Definition long_gap : Inputs := {|
  emailHeader := header_of long_gap_bytes;
  emailHeaderLength := Z.of_nat (length long_gap_bytes);
  pubkey := []; signature := [];
  subject_start_idx := 20;
  subject_request_id_idx := 36;
  subject_request_id_len := 5;
  subject_account_id_idx := 42;
  subject_public_key_idx := 61;
  subject_account_id_len := 10;
  subject_public_key_len := 9;
  from_start_idx := 110;
  from_addr_idx := 371;
  from_addr_len := 19;
  date_start_idx := 72;
  date_timestamp_idx := 77;
  date_timestamp_len := 31
|}.

(** A header whose first line is the From line. *)
Definition from_first_bytes : list Z :=
  str "from:alice@example.com" ++ crlf
  ++ str "subject:recover-req42 alice.near ed25519:PUBKEY123" ++ crlf
  ++ str "date:Mon, 01 Jan 2024 00:00:00 +0000" ++ crlf.

Definition from_first : Inputs := {|
  emailHeader := header_of from_first_bytes;
  emailHeaderLength := Z.of_nat (length from_first_bytes);
  pubkey := []; signature := [];
  subject_start_idx := 24;
  subject_request_id_idx := 40;
  subject_request_id_len := 5;
  subject_account_id_idx := 46;
  subject_public_key_idx := 65;
  subject_account_id_len := 10;
  subject_public_key_len := 9;
  from_start_idx := 0;
  from_addr_idx := 5;
  from_addr_len := 17;
  date_start_idx := 76;
  date_timestamp_idx := 81;
  date_timestamp_len := 31
|}.

(** A sample instantiation of the library the contract calls: coordinates
    and public inputs are parsed as decimal numbers, and the proof check is
    taken to succeed. *)
Fixpoint parse_digits (acc : Z) (s : string) : option Z :=
  match s with
  | EmptyString => Some acc
  | String ch rest =>
      let d := Z.of_N (N_of_ascii ch) - 48 in
      if decide (0 <= d <= 9) then parse_digits (10 * acc + d) rest else None
  end.

Definition parse_fr (s : string) : Contract.Result Z unit :=
  match s with
  | EmptyString => Contract.Err ()
  | _ => match parse_digits 0 s with
         | Some z => Contract.Ok z
         | None => Contract.Err ()
         end
  end.

Fixpoint parse_all (l : list string) : Contract.Result (list Z) unit :=
  match l with
  | [] => Contract.Ok []
  | s :: rest =>
      match parse_fr s, parse_all rest with
      | Contract.Ok z, Contract.Ok zs => Contract.Ok (z :: zs)
      | _, _ => Contract.Err ()
      end
  end.

Definition sample_parse_proof (pr : Contract.ProofInput)
    : Contract.Result (list Z) unit :=
  parse_all (Contract.pi_a pr ++ concat (Contract.pi_b pr) ++ Contract.pi_c pr).

Definition sample_verify_proof (_ : unit) (_ : list Z) (_ : list Z)
    : Contract.Result bool unit :=
  Contract.Ok true.

Definition sample_proof : Contract.ProofInput := {|
  Contract.pi_a := ["1"; "2"; "1"]%string;
  Contract.pi_b := [["1"; "2"]; ["3"; "4"]; ["1"; "0"]]%string;
  Contract.pi_c := ["5"; "6"; "1"]%string
|}.

(** Decimal strings of the public inputs of the hashed layout for a claim. *)
Definition digits_of (z : Z) : string := pretty.pretty z.

Definition hashed_public_inputs (requestId : list Z) (c : Contract.BindingClaim)
    : list string :=
  map digits_of
    (SubstringPacker.PackBytes requestId
     ++ SubstringPacker.PackBytes (Contract.accountId c)
     ++ SubstringPacker.PackBytes (Contract.newPublicKey c)
     ++ SenderBindingSpec.hash (Contract.fromEmail c) (Contract.accountId c)
     ++ SubstringPacker.PackBytes (Contract.timestamp c)).

Definition sample_claim : Contract.BindingClaim := {|
  Contract.accountId := str "alice.near";
  Contract.newPublicKey := str "PUBKEY123";
  Contract.fromEmail := str "Alice@example.com";
  Contract.timestamp := str "Mon, 01 Jan 2024 00:00:00 +0000"
|}.

(** The same claim with the first letter of the address in lowercase. *)
Definition sample_claim_lowercase : Contract.BindingClaim := {|
  Contract.accountId := str "alice.near";
  Contract.newPublicKey := str "PUBKEY123";
  Contract.fromEmail := str "alice@example.com";
  Contract.timestamp := str "Mon, 01 Jan 2024 00:00:00 +0000"
|}.

(** A zkey file of ten sections, their types 1 to 10 in some order, a
    section of type [t] holding [t] bytes. *)
Definition sample_sections : list SnarkjsUtils.ZkeySection :=
  map (fun t => {| SnarkjsUtils.sec_type := t;
                   SnarkjsUtils.sec_payload := replicate (Z.to_nat t) 7 |})
      [3; 1; 2; 10; 4; 5; 6; 7; 8; 9].

Definition sample_zkey : list Z :=
  SnarkjsUtils.zkey_magic ++ SnarkjsUtils.le_bytes 4 1
  ++ SnarkjsUtils.le_bytes 4 10
  ++ concat (map SnarkjsUtils.encode_section sample_sections).

(** A header whose From line carries a display name with a two-byte
    character (U+00E9, bytes C3 A9) before the address. *)
Definition accent_bytes : list Z :=
  str "to:bob@example.org" ++ crlf
  ++ str "subject:recover-req42 alice.near ed25519:PUBKEY123" ++ crlf
  ++ str "date:Mon, 01 Jan 2024 00:00:00 +0000" ++ crlf
  ++ str "from:Jos" ++ [195; 169] ++ str " <jose@example.com>" ++ crlf.

(** The same character in the To line, before every located field. *)
Definition accent_first_bytes : list Z :=
  str "to:Jos" ++ [195; 169] ++ str " <jose@example.org>" ++ crlf
  ++ str "subject:recover-req42 alice.near ed25519:PUBKEY123" ++ crlf
  ++ str "from:Alice <alice@example.com>" ++ crlf
  ++ str "date:Mon, 01 Jan 2024 00:00:00 +0000" ++ crlf.

(** The header as [generateEmailVerifierInputs] hands it to [main]: padded
    for SHA-256, then with zeros up to the size of the buffer, and the
    padded length. *)
Definition verifier_header (bytes : list Z) : list Z := header_of (Sha256.pad bytes).

Definition verifier_length (bytes : list Z) : Z :=
  Z.of_nat (length (Sha256.pad bytes)).

(** What [main] computes for a header. *)
Definition located (bytes : list Z) : GenerateWitness.Error + Inputs :=
  GenerateWitness.circuitInput (verifier_header bytes) (verifier_length bytes) [] [].

(** The indices and lengths of a layout. *)
Definition indices (i : Inputs) : list Z :=
  [subject_start_idx i; subject_request_id_idx i; subject_request_id_len i;
   subject_account_id_idx i; subject_account_id_len i;
   subject_public_key_idx i; subject_public_key_len i;
   from_start_idx i; from_addr_idx i; from_addr_len i;
   date_start_idx i; date_timestamp_idx i; date_timestamp_len i].

(** The first offset at which [field] lies in [bytes]. *)
Definition byte_offset (bytes field : list Z) : Z :=
  GenerateWitness.indexOf bytes field.

(** The circuit inputs [main] computes for these two headers. *)
Definition accent_located : Inputs := {|
  emailHeader := verifier_header accent_bytes;
  emailHeaderLength := verifier_length accent_bytes;
  pubkey := []; signature := [];
  subject_start_idx := 20;
  subject_request_id_idx := 36;
  subject_request_id_len := 5;
  subject_account_id_idx := 42;
  subject_public_key_idx := 61;
  subject_account_id_len := 10;
  subject_public_key_len := 9;
  from_start_idx := 110;
  from_addr_idx := 121;
  from_addr_len := 16;
  date_start_idx := 72;
  date_timestamp_idx := 77;
  date_timestamp_len := 31
|}.

Definition accent_first_located : Inputs := {|
  emailHeader := verifier_header accent_first_bytes;
  emailHeaderLength := verifier_length accent_first_bytes;
  pubkey := []; signature := [];
  subject_start_idx := 28;
  subject_request_id_idx := 44;
  subject_request_id_len := 5;
  subject_account_id_idx := 50;
  subject_public_key_idx := 69;
  subject_account_id_len := 10;
  subject_public_key_len := 9;
  from_start_idx := 80;
  from_addr_idx := 92;
  from_addr_len := 17;
  date_start_idx := 112;
  date_timestamp_idx := 117;
  date_timestamp_len := 31
|}.

(** An ASCII header whose request id contains the account id. *)
Definition repeated_bytes : list Z :=
  str "subject:recover-alice.near-7 alice.near ed25519:PUBKEY123" ++ crlf
  ++ str "from:Alice <alice@example.com>" ++ crlf
  ++ str "date:Mon, 01 Jan 2024 00:00:00 +0000" ++ crlf.

End Examples.

(** Integer ceiling division, the direct computation the specification
    names for the block count. *)
Definition ceil_div (a b : Z) : Z := (a + b - 1) / b.

(** * Properties *)

(** ** Field arithmetic *)

Section FieldFacts.

Lemma p_pos : 0 < p.
Proof. reflexivity. Qed.

Lemma p_big : 2 ^ 253 < p.
Proof. reflexivity. Qed.

Lemma p_million : 1000000 < p.
Proof. reflexivity. Qed.

Lemma felt_mod x : felt (x mod p).
Proof. apply Z.mod_pos_bound, p_pos. Qed.

Lemma felt_small x : 0 <= x < 2 ^ 253 -> felt x.
Proof. pose proof p_big. unfold felt. lia. Qed.

Lemma mod_felt x : felt x -> x mod p = x.
Proof. intros H. apply Z.mod_small, H. Qed.

Lemma fadd_felt a b : felt (fadd a b).
Proof. apply felt_mod. Qed.

Lemma fsub_felt a b : felt (fsub a b).
Proof. apply felt_mod. Qed.

Lemma fmul_felt a b : felt (fmul a b).
Proof. apply felt_mod. Qed.

Lemma fadd_small a b : 0 <= a + b < p -> fadd a b = a + b.
Proof. intros H. apply Z.mod_small, H. Qed.

Lemma fsub_small a b : 0 <= a - b < p -> fsub a b = a - b.
Proof. intros H. apply Z.mod_small, H. Qed.

Lemma fsub_wrap a b : - p <= a - b < 0 -> fsub a b = a - b + p.
Proof.
  intros H. unfold fsub. rewrite <- (Z_mod_plus_full _ 1), Z.mul_1_l.
  apply Z.mod_small. lia.
Qed.

Lemma fmul_small a b : 0 <= a * b < p -> fmul a b = a * b.
Proof. intros H. apply Z.mod_small, H. Qed.

Lemma fsub_0_iff a b : felt a -> felt b -> fsub a b = 0 <-> a = b.
Proof.
  unfold felt. intros Ha Hb. split.
  - intros H. destruct (Z.eq_dec a b) as [|Hne]; [done|exfalso].
    destruct (Z_lt_le_dec a b).
    + rewrite fsub_wrap in H by lia. lia.
    + rewrite fsub_small in H by lia. lia.
  - intros ->. unfold fsub. by rewrite Z.sub_diag.
Qed.

Lemma fsub_0_eq a b : felt a -> felt b -> fsub a b = 0 -> a = b.
Proof. intros Ha Hb. by apply fsub_0_iff. Qed.

Lemma fmul_1_l a : felt a -> fmul 1 a = a.
Proof. intros H. unfold fmul. rewrite Z.mul_1_l. by apply mod_felt. Qed.

Lemma fmul_0_l a : fmul 0 a = 0.
Proof. reflexivity. Qed.

Lemma fadd_0_l a : felt a -> fadd 0 a = a.
Proof. intros H. unfold fadd. rewrite Z.add_0_l. by apply mod_felt. Qed.

Lemma fadd_0_r a : felt a -> fadd a 0 = a.
Proof. intros H. unfold fadd. rewrite Z.add_0_r. by apply mod_felt. Qed.

(** The multiplexer of the barrel shifter. *)
Lemma mux_0 x y : felt y -> fadd (fmul 0 (fsub x y)) y = y.
Proof. intros. rewrite fmul_0_l. by apply fadd_0_l. Qed.

Lemma mux_1 x y : felt x -> felt y -> fadd (fmul 1 (fsub x y)) y = x.
Proof.
  intros Hx Hy. rewrite fmul_1_l by apply fsub_felt.
  unfold fadd, fsub. rewrite Zplus_mod_idemp_l.
  replace (x - y + y) with x by lia. by apply mod_felt.
Qed.

End FieldFacts.

(** Linear arithmetic that knows the field is large. *)
Ltac flia := pose proof p_million; unfold felt in *; lia.

Create HintDb felt.
#[global] Hint Resolve felt_mod fadd_felt fsub_felt fmul_felt : felt.

(** ** Lists as signal arrays *)

Section ArrayFacts.

Lemma length_tabulate {A} n (f : nat -> A) : length (tabulate n f) = n.
Proof. unfold tabulate. by rewrite length_map, length_seq. Qed.

Lemma nth_tabulate {A} n (f : nat -> A) i d :
  (i < n)%nat -> nth i (tabulate n f) d = f i.
Proof.
  intros Hi. unfold tabulate.
  rewrite (nth_indep _ d (f 0%nat)) by (rewrite length_map, length_seq; lia).
  rewrite (map_nth f (seq 0 n) 0%nat i), seq_nth by lia. done.
Qed.

Lemma nth_tabulate_ge {A} n (f : nat -> A) i d :
  (n <= i)%nat -> nth i (tabulate n f) d = d.
Proof. intros Hi. apply nth_overflow. rewrite length_tabulate. lia. Qed.

Lemma tabulate_ext {A} n (f g : nat -> A) :
  (forall i, (i < n)%nat -> f i = g i) -> tabulate n f = tabulate n g.
Proof.
  intros H. unfold tabulate. apply map_ext_in. intros i Hi.
  apply in_seq in Hi. apply H. lia.
Qed.

Lemma tabulate_nth {A} (l : list A) d : tabulate (length l) (fun i => nth i l d) = l.
Proof.
  apply (nth_ext _ _ d d); [apply length_tabulate|].
  intros i Hi. rewrite length_tabulate in Hi. by rewrite nth_tabulate.
Qed.

Lemma take_tabulate {A} m n (f : nat -> A) :
  (m <= n)%nat -> take m (tabulate n f) = tabulate m f.
Proof.
  intros Hmn. apply (nth_ext _ _ (f 0%nat) (f 0%nat)).
  - rewrite length_take, !length_tabulate. lia.
  - intros i Hi. rewrite length_take, length_tabulate in Hi.
    rewrite nth_firstn. destruct (Nat.ltb_spec i m); [|lia].
    rewrite !nth_tabulate by lia. done.
Qed.

Lemma Forall_tabulate {A} (P : A -> Prop) n f :
  (forall i, (i < n)%nat -> P (f i)) -> Forall P (tabulate n f).
Proof.
  intros H. unfold tabulate. apply Forall_map, Forall_forall.
  intros i Hi. apply list_elem_of_In, in_seq in Hi. apply H. lia.
Qed.

Lemma Forall_nth_felt l i : Forall felt l -> felt (nth i l 0).
Proof.
  intros H. destruct (Nat.lt_ge_cases i (length l)) as [Hi|Hi].
  - rewrite Forall_forall in H. apply H, list_elem_of_In, nth_In, Hi.
  - rewrite nth_overflow by lia. pose proof p_pos. unfold felt. lia.
Qed.

End ArrayFacts.

(** ** The circomlib templates compute what their names say *)

Section CircomlibFacts.

Lemma bit_of_eq x i : bit_of x i = (x / 2 ^ Z.of_nat i) mod 2.
Proof.
  unfold bit_of. rewrite Z.shiftr_div_pow2 by lia.
  change 1 with (Z.ones 1). rewrite Z.land_ones by lia. done.
Qed.

Lemma bit_of_range x i : 0 <= bit_of x i < 2.
Proof. rewrite bit_of_eq. apply Z.mod_pos_bound. lia. Qed.

Lemma lc_bits x : forall n k e,
  lc e (map (bit_of x) (seq k n)) = e * ((x / 2 ^ Z.of_nat k) mod 2 ^ Z.of_nat n).
Proof.
  induction n as [|n IH]; intros k e; simpl.
  - rewrite Z.mod_1_r. lia.
  - rewrite IH, bit_of_eq.
    replace (Z.of_nat (S k)) with (Z.of_nat k + 1) by lia.
    rewrite Z.pow_add_r, Z.pow_1_r by lia.
    rewrite <- Z.div_div by lia.
    set (y := x / 2 ^ Z.of_nat k).
    replace (2 ^ Z.of_nat (S n)) with (2 * 2 ^ Z.of_nat n)
      by (rewrite <- Z.pow_succ_r by lia; f_equal; lia).
    rewrite (Z.rem_mul_r y 2 (2 ^ Z.of_nat n)) by lia. lia.
Qed.

Lemma lc_bits_of n x : lc 1 (bits_of n x) = x mod 2 ^ Z.of_nat n.
Proof. unfold bits_of. rewrite lc_bits. simpl. rewrite Z.div_1_r. lia. Qed.

Lemma length_bits_of n x : length (bits_of n x) = n.
Proof. unfold bits_of. by rewrite length_map, length_seq. Qed.

Lemma nth_bits_of n x i : (i < n)%nat -> nth i (bits_of n x) 0 = bit_of x i.
Proof. intros Hi. apply (nth_tabulate n (bit_of x) i 0 Hi). Qed.

(** [Num2Bits(n)] is satisfiable exactly on the [n]-bit values. *)
Lemma Num2Bits_spec n x :
  felt x -> (n <= 253)%nat ->
  Num2Bits n x = if decide (x < 2 ^ Z.of_nat n) then Some (bits_of n x) else None.
Proof.
  intros Hx Hn. unfold Num2Bits. rewrite lc_bits_of.
  assert (2 ^ Z.of_nat n <= 2 ^ 253) by (apply Z.pow_le_mono_r; lia).
  pose proof p_big. pose proof (Z.mod_pos_bound x (2 ^ Z.of_nat n)) as Hm.
  rewrite (Z.mod_small (x mod _) p) by lia.
  unfold felt in Hx. repeat case_decide; try done.
  - exfalso. lia.
  - exfalso. rewrite Z.mod_small in * by lia. lia.
Qed.

Lemma Num2Bits_Some n x bits :
  felt x -> (n <= 253)%nat ->
  Num2Bits n x = Some bits -> x < 2 ^ Z.of_nat n /\ bits = bits_of n x.
Proof.
  intros Hx Hn. rewrite Num2Bits_spec by done. case_decide; [|done].
  intros [= <-]. done.
Qed.

Lemma top_bit n v :
  0 <= v < 2 ^ Z.of_nat (S n) ->
  bit_of v n = if decide (v < 2 ^ Z.of_nat n) then 0 else 1.
Proof.
  intros Hv. rewrite bit_of_eq.
  replace (2 ^ Z.of_nat (S n)) with (2 * 2 ^ Z.of_nat n) in Hv
    by (rewrite <- Z.pow_succ_r by lia; f_equal; lia).
  assert (0 < 2 ^ Z.of_nat n) by (apply Z.pow_pos_nonneg; lia).
  case_decide.
  - rewrite Z.div_small by lia. done.
  - replace v with (1 * 2 ^ Z.of_nat n + (v - 2 ^ Z.of_nat n)) by lia.
    rewrite Z.div_add_l, Z.div_small by lia. done.
Qed.

(** [LessThan(n)] on arbitrary field elements: satisfiable exactly when
    [a + 2^n - b] (in the field) fits [n+1] bits, and then it reports whether
    that value is below [2^n]. *)
Lemma LessThan_spec n a b :
  (n <= 252)%nat ->
  let v := fsub (fadd a (2 ^ Z.of_nat n)) b in
  LessThan n a b =
    if decide (v < 2 ^ Z.of_nat (S n))
    then Some (if decide (v < 2 ^ Z.of_nat n) then 1 else 0)
    else None.
Proof.
  intros Hn v. unfold LessThan. fold v.
  rewrite Num2Bits_spec by (try apply fsub_felt; lia).
  case_decide as Hv; [|done]. cbv [mbind option_bind].
  rewrite nth_bits_of by lia.
  pose proof (fsub_felt (fadd a (2 ^ Z.of_nat n)) b) as Hf. fold v in Hf.
  rewrite top_bit by (unfold felt in Hf; lia).
  case_decide; done.
Qed.

(** On [n]-bit operands [LessThan(n)] is the comparison. *)
Lemma LessThan_small n a b :
  (n <= 252)%nat -> 0 <= a < 2 ^ Z.of_nat n -> 0 <= b <= 2 ^ Z.of_nat n ->
  LessThan n a b = Some (if decide (a < b) then 1 else 0).
Proof.
  intros Hn Ha Hb. rewrite LessThan_spec by done.
  assert (2 ^ Z.of_nat n <= 2 ^ 252) by (apply Z.pow_le_mono_r; lia).
  assert (2 ^ Z.of_nat (S n) = 2 * 2 ^ Z.of_nat n) as HS
    by (rewrite <- Z.pow_succ_r by lia; f_equal; lia).
  pose proof p_big. assert (2 ^ 253 = 2 * 2 ^ 252) by done.
  rewrite fadd_small, fsub_small by (rewrite ?fadd_small; lia).
  rewrite HS. repeat case_decide; try done; exfalso; lia.
Qed.

Lemma LessEqThan_small n a b :
  (n <= 252)%nat -> 0 <= a < 2 ^ Z.of_nat n -> 0 <= b < 2 ^ Z.of_nat n ->
  LessEqThan n a b = Some (if decide (a <= b) then 1 else 0).
Proof.
  intros Hn Ha Hb. unfold LessEqThan.
  assert (2 ^ Z.of_nat n <= 2 ^ 252) by (apply Z.pow_le_mono_r; lia).
  pose proof p_big. assert (2 ^ 253 = 2 * 2 ^ 252) by done.
  rewrite fadd_small by lia. rewrite LessThan_small by (done || lia).
  repeat case_decide; try done; exfalso; lia.
Qed.

Lemma IsZero_0 : IsZero 0 = 1.
Proof. done. Qed.

Lemma IsZero_ne x : x <> 0 -> IsZero x = 0.
Proof. intros H. unfold IsZero. by case_decide. Qed.

End CircomlibFacts.

(** ** The barrel shifter is a rotation *)

Section ShifterFacts.

Lemma length_rotl n s l : length (rotl n s l) = n.
Proof. apply length_tabulate. Qed.

Lemma nth_rotl n s l i :
  (i < n)%nat -> nth i (rotl n s l) 0 = nth ((i + s) mod n) l 0.
Proof. intros Hi. unfold rotl. by rewrite nth_tabulate. Qed.

Lemma rotl_felt n s l : Forall felt l -> Forall felt (rotl n s l).
Proof. intros H. apply Forall_tabulate. intros i _. by apply Forall_nth_felt. Qed.

Lemma rotl_0 n l : length l = n -> rotl n 0 l = l.
Proof.
  intros <-. unfold rotl. etrans; [|apply (tabulate_nth l 0)].
  apply tabulate_ext. intros i Hi. by rewrite Nat.add_0_r, Nat.mod_small.
Qed.

Lemma rotl_rotl n a b l :
  (0 < n)%nat -> rotl n a (rotl n b l) = rotl n (b + a) l.
Proof.
  intros Hn. unfold rotl at 1 3. apply tabulate_ext. intros i Hi.
  rewrite nth_rotl by (apply Nat.mod_upper_bound; lia).
  f_equal. rewrite Nat.Div0.add_mod_idemp_l. f_equal. lia.
Qed.

Lemma mux_row_0 n j tmp :
  length tmp = n -> Forall felt tmp -> mux_row n j 0 tmp = tmp.
Proof.
  intros <- Hf. etrans; [|apply (tabulate_nth tmp 0)].
  apply tabulate_ext. intros i Hi. cbv zeta.
  apply mux_0. by apply Forall_nth_felt.
Qed.

Lemma mux_row_1 n j tmp :
  Forall felt tmp -> mux_row n j 1 tmp = rotl n (2 ^ j) tmp.
Proof.
  intros Hf. apply tabulate_ext. intros i Hi. cbv zeta.
  apply mux_1; by apply Forall_nth_felt.
Qed.

Lemma shift_rows_spec n : forall bits j tmp,
  (0 < n)%nat -> length tmp = n -> Forall felt tmp -> Forall is_bit bits ->
  shift_rows n j bits tmp = rotl n (bits_value j bits) tmp.
Proof.
  induction bits as [|b bits IH]; intros j tmp Hn Hlen Hf Hb; simpl.
  - by rewrite rotl_0.
  - inversion Hb as [|?? [-> | ->] Hbs]; subst.
    + rewrite mux_row_0 by done. rewrite IH by done. done.
    + rewrite mux_row_1 by done.
      rewrite IH by (try apply length_rotl; try apply rotl_felt; done).
      rewrite rotl_rotl by done. f_equal. simpl. lia.
Qed.

Lemma bits_of_is_bit n x : Forall is_bit (bits_of n x).
Proof.
  apply Forall_tabulate. intros i _. pose proof (bit_of_range x i).
  unfold is_bit. lia.
Qed.

Lemma bits_value_lc : forall bits j,
  Forall is_bit bits -> Z.of_nat (bits_value j bits) = lc (2 ^ Z.of_nat j) bits.
Proof.
  induction bits as [|b bits IH]; intros j Hb; simpl; [done|].
  inversion Hb as [|?? Hb0 Hbs]; subst.
  rewrite Nat2Z.inj_add, Nat2Z.inj_mul, IH by done.
  rewrite Nat2Z.inj_pow. change (Z.of_nat 2) with 2.
  replace (2 ^ Z.of_nat j + 2 ^ Z.of_nat j) with (2 ^ Z.of_nat (S j))
    by (rewrite Nat2Z.inj_succ, Z.pow_succ_r by lia; lia).
  destruct Hb0 as [-> | ->]; simpl; lia.
Qed.

Lemma bits_value_bits_of n x :
  0 <= x < 2 ^ Z.of_nat n -> bits_value 0 (bits_of n x) = Z.to_nat x.
Proof.
  intros Hx. apply Nat2Z.inj.
  rewrite bits_value_lc by apply bits_of_is_bit.
  change (2 ^ Z.of_nat 0) with 1. rewrite lc_bits_of, Z.mod_small by done. lia.
Qed.

(** [VarShiftLeft] rejects a shift that does not fit the index bits and
    otherwise returns the rotation of the input by the shift. *)
Lemma VarShiftLeft_spec n m inp s :
  (0 < n)%nat -> (m <= n)%nat -> (log2Ceil n <= 253)%nat ->
  length inp = n -> Forall felt inp -> felt s ->
  VarShiftLeft n m inp s =
    if decide (s < 2 ^ Z.of_nat (log2Ceil n))
    then Some (tabulate m (fun i => nth ((i + Z.to_nat s) mod n) inp 0))
    else None.
Proof.
  intros Hn Hm Hl Hlen Hf Hs. unfold VarShiftLeft.
  rewrite Num2Bits_spec by done. case_decide as Hlt; [|done].
  cbv [mbind option_bind]. f_equal.
  rewrite shift_rows_spec by (try apply bits_of_is_bit; done).
  rewrite bits_value_bits_of by (unfold felt in Hs; lia).
  unfold rotl. by rewrite take_tabulate.
Qed.

End ShifterFacts.

(** ** Loops of fallible components *)

Section MapMFacts.

Context {A B : Type}.

Lemma mapM_map_Some (f : A -> option B) (g : A -> B) (l : list A) :
  (forall x, In x l -> f x = Some (g x)) -> mapM f l = Some (map g l).
Proof.
  induction l as [|a l IH]; intros H; [done|].
  cbn. rewrite (H a) by (by left). cbn.
  rewrite IH by (intros x Hx; apply H; by right). done.
Qed.

Lemma mapM_Some_nth (f : A -> option B) (l : list A) (k : list B) da db :
  mapM f l = Some k ->
  length k = length l /\
  forall i, (i < length l)%nat -> f (nth i l da) = Some (nth i k db).
Proof.
  revert k. induction l as [|a l IH]; intros k H.
  - injection H as <-. split; [done|]. simpl. lia.
  - cbn in H. destruct (f a) as [b|] eqn:Hfa; [|done]. cbn in H.
    destruct (mapM f l) as [k'|] eqn:Hm; [|done]. injection H as <-.
    destruct (IH k' eq_refl) as [Hlen Hnth]. split; [simpl; lia|].
    intros [|i] Hi; simpl; [done|]. apply Hnth. simpl in Hi. lia.
Qed.

End MapMFacts.

Lemma mapM_seq_tabulate {B} (f : nat -> option B) (g : nat -> B) m :
  (forall i, (i < m)%nat -> f i = Some (g i)) ->
  mapM f (seq 0 m) = Some (tabulate m g).
Proof.
  intros H. apply mapM_map_Some. intros i Hi. apply in_seq in Hi. apply H. lia.
Qed.

(** ** [SelectSubArray] *)

Section SelectFacts.

Variables (n m c : nat).
Hypothesis Hn : (0 < n)%nat.
Hypothesis Hmn : (m <= n)%nat.
Hypothesis Hbl : (log2Ceil n <= 253)%nat.
Hypothesis Hc : c = log2Ceil m.
Hypothesis Hc252 : (c <= 252)%nat.
Hypothesis Hmc : Z.of_nat m <= 2 ^ Z.of_nat c.

Variable inp : list Z.
Hypothesis Hlen : length inp = n.
Hypothesis Hfelt : Forall felt inp.

(** With a length the comparators can represent, the output is the window
    at [startIndex] (indices modulo the array length), zeroed from [len] on;
    a start index that does not fit the index bits is rejected. *)
Lemma SelectSubArray_valid start len :
  felt start -> 0 <= len <= 2 ^ Z.of_nat c ->
  SelectSubArray n m inp start len = window n m inp start len.
Proof.
  intros Hs Hl. unfold SelectSubArray, window.
  rewrite VarShiftLeft_spec by done. case_decide; [|done].
  cbv [mbind option_bind]. apply mapM_seq_tabulate. intros i Hi.
  unfold GreaterThan. rewrite <- Hc.
  rewrite LessThan_small by lia. cbv [mbind option_bind]. f_equal.
  rewrite nth_tabulate by done. case_decide.
  - apply fmul_1_l. by apply Forall_nth_felt.
  - apply fmul_0_l.
Qed.

(** Whatever the length signal: an accepted selection has a start index
    within the index bits, and every cell is the window cell or zero. *)
Lemma SelectSubArray_Some start len out :
  felt start ->
  SelectSubArray n m inp start len = Some out ->
  start < 2 ^ Z.of_nat (log2Ceil n) /\ length out = m /\
  forall i, (i < m)%nat ->
    exists g, GreaterThan c len (Z.of_nat i) = Some g /\
              nth i out 0 = fmul g (nth ((i + Z.to_nat start) mod n) inp 0).
Proof.
  intros Hs. unfold SelectSubArray.
  rewrite VarShiftLeft_spec by done. case_decide; [|done].
  cbv [mbind option_bind]. intros HM.
  apply (mapM_Some_nth _ _ _ 0%nat 0) in HM as [Hlo Hnth].
  rewrite length_seq in *. split; [done|]. split; [done|].
  intros i Hi. specialize (Hnth i Hi). rewrite seq_nth in Hnth by done.
  simpl in Hnth. rewrite <- Hc in Hnth.
  destruct (GreaterThan c len (Z.of_nat i)) as [g|]; [|done].
  exists g. split; [done|]. injection Hnth as <-.
  by rewrite nth_tabulate.
Qed.

Lemma SelectSubArray_start_range start len out :
  felt start ->
  SelectSubArray n m inp start len = Some out ->
  start < 2 ^ Z.of_nat (log2Ceil n).
Proof. intros Hs H. by destruct (SelectSubArray_Some _ _ _ Hs H). Qed.

End SelectFacts.

(** ** AnchoredFieldVerifier: the anchor check *)

Section AnchorFacts.

Import RecoverEmailCircuit.

Lemma AnchorCheck_origin_select header :
  SelectSubArray max_header_bytes 2 header (fsub 0 2) anchor_len = None.
Proof.
  unfold SelectSubArray, VarShiftLeft.
  replace (Num2Bits (log2Ceil max_header_bytes) (fsub 0 2)) with (@None (list Z))
    by (vm_compute; reflexivity).
  done.
Qed.

Lemma AnchorCheck_sound header start :
  length header = max_header_bytes -> Forall felt header -> felt start ->
  AnchorCheck header start = Some () ->
  2 <= start <= 1025 /\
  nth (Z.to_nat (start - 2) mod 1024) header 0 = 13 /\
  nth ((1 + Z.to_nat (start - 2)) mod 1024) header 0 = 10.
Proof.
  intros Hlen Hf Hs. unfold AnchorCheck.
  rewrite (SelectSubArray_valid 1024 2 1) by
    (done || apply fsub_felt || (unfold anchor_len; simpl; lia) || (simpl; lia) || (vm_compute; lia)).
  unfold window.
  case_decide as Hr; [|done]. cbv [mbind option_bind].
  assert (2 <= start <= 1025) as Hstart.
  { change (2 ^ Z.of_nat (log2Ceil 1024)) with 1024 in Hr.
    destruct (Z_lt_le_dec start 2).
    - rewrite fsub_wrap in Hr by flia. flia.
    - rewrite fsub_small in Hr by flia. lia. }
  rewrite (fsub_small start 2) by flia.
  rewrite IsZero_ne by lia.
  rewrite !nth_tabulate by lia. unfold anchor_len.
  rewrite !decide_True by lia.
  change (fsub 1 0) with 1.
  rewrite !fmul_1_l by apply fsub_felt.
  case_guard as H13; [|done]. case_guard as H10; [|done]. intros _.
  apply fsub_0_eq in H13; [|by apply Forall_nth_felt|by vm_compute].
  apply fsub_0_eq in H10; [|by apply Forall_nth_felt|by vm_compute].
  rewrite Nat.add_0_l in H13. done.
Qed.

End AnchorFacts.

(** ** AnchoredFieldVerifier: prefix and From gap *)

Section PrefixGapFacts.

Import RecoverEmailCircuit.

Variable header : list Z.
Hypothesis Hlen : length header = max_header_bytes.
Hypothesis Hfelt : Forall felt header.

Lemma PrefixCheck_sound c start expected :
  c = log2Ceil (length expected) -> (c <= 252)%nat ->
  Z.of_nat (length expected) <= 2 ^ Z.of_nat c ->
  (length expected <= 1024)%nat ->
  felt start ->
  PrefixCheck header start expected = Some () ->
  start < 1024 /\
  forall j, (j < length expected)%nat ->
    nth ((j + Z.to_nat start) mod 1024) header 0 = nth j expected 0.
Proof.
  intros Hc Hc252 Hmc Hm Hs. unfold PrefixCheck.
  rewrite (SelectSubArray_valid 1024 (length expected) c) by
    (done || lia || (vm_compute; lia)).
  unfold window.
  case_decide as Hr; [|done]. cbv [mbind option_bind].
  case_guard as Heq; [|done]. intros _. split; [exact Hr|].
  intros j Hj. pose proof (f_equal (fun l => nth j l 0) Heq) as Hnth.
  cbv beta in Hnth. rewrite nth_tabulate in Hnth by done.
  rewrite decide_True in Hnth by lia. done.
Qed.

(** The lengths the 8-bit comparators of the 255-cell window accept. *)
Lemma window_length_cases len :
  felt len ->
  is_Some (GreaterThan 8 len 0) -> is_Some (GreaterThan 8 len 254) ->
  0 <= len <= 256 \/ len = p - 1.
Proof.
  intros Hl [g0 H0] [g1 H1]. unfold GreaterThan in *.
  rewrite LessThan_spec in H0, H1 by lia.
  repeat case_decide; try done.
  all: change (2 ^ Z.of_nat 9) with 512 in *; change (2 ^ Z.of_nat 8) with 256 in *;
       change (fadd 0 256) with 256 in *; change (fadd 254 256) with 510 in *.
  all: destruct (Z_le_gt_dec len 256); [left; flia|right].
  all: rewrite (fsub_wrap 256 len) in * by flia;
       rewrite (fsub_wrap 510 len) in * by flia; flia.
Qed.

Lemma not_newline_cell b :
  IsZero (fmul (fsub b 13) (fsub b 10)) = 0 -> b <> 13 /\ b <> 10.
Proof.
  intros H. split; intros ->; by vm_compute in H.
Qed.

Lemma byte_not_newline b :
  0 <= b < 256 -> b <> 13 -> b <> 10 ->
  IsZero (fmul (fsub b 13) (fsub b 10)) = 0.
Proof.
  intros Hb H13 H10. apply IsZero_ne.
  destruct (decide (b = 11)) as [->|]; [by vm_compute|].
  destruct (decide (b = 12)) as [->|]; [by vm_compute|].
  unfold fmul, fsub. rewrite <- Zmult_mod.
  assert (0 < (b - 13) * (b - 10) < 256 * 256) by nia.
  rewrite Z.mod_small by flia. lia.
Qed.

Lemma FromGapCheck_sound from_start from_addr :
  0 <= from_start < 1024 -> felt from_addr ->
  FromGapCheck header from_start from_addr = Some () ->
  forall k : nat,
    from_start + 5 <= Z.of_nat k < from_addr ->
    Z.of_nat k < from_start + 5 + 255 ->
    nth k header 0 <> 13 /\ nth k header 0 <> 10.
Proof.
  intros Hs Ha. unfold FromGapCheck, from_prefix_len.
  rewrite (fadd_small from_start 5) by flia.
  destruct (SelectSubArray _ _ _ _ _) as [out|] eqn:Hsel; [|done].
  cbv [mbind option_bind]. case_guard as Hall; [|done]. intros _ k Hk Hw.
  apply (SelectSubArray_Some 1024 255 8) in Hsel as (Hr & Hlo & Hcells);
    [|done || lia || flia || (vm_compute; lia)..].
  destruct (Nat.lt_ge_cases k 1024) as [Hk1024|Hk1024];
    [|rewrite nth_overflow by (rewrite Hlen; unfold max_header_bytes; lia); lia].
  set (i := (k - Z.to_nat (from_start + 5))%nat).
  assert (0 <= fsub from_addr (from_start + 5) <= 256
          \/ fsub from_addr (from_start + 5) = p - 1) as Hcases.
  { apply window_length_cases; [apply fsub_felt|..].
    - destruct (Hcells 0%nat ltac:(lia)) as (g0 & Hg0 & _). by exists g0.
    - destruct (Hcells 254%nat ltac:(lia)) as (g1 & Hg1 & _). by exists g1. }
  destruct (Hcells i ltac:(lia)) as (g & Hg & Hcell).
  rewrite fsub_small in Hg, Hcases by flia.
  destruct Hcases as [Hcases|Hcases]; [|flia].
  unfold GreaterThan in Hg. rewrite LessThan_small in Hg by lia.
  rewrite decide_True in Hg by lia. injection Hg as <-.
  rewrite fmul_1_l in Hcell by (by apply Forall_nth_felt).
  replace ((i + Z.to_nat (from_start + 5)) mod 1024)%nat with k in Hcell
    by (rewrite Nat.mod_small; lia).
  rewrite <- Hcell. apply not_newline_cell.
  rewrite Forall_forall in Hall. apply Hall, list_elem_of_In, nth_In. lia.
Qed.

Lemma FromGapCheck_complete from_start from_addr :
  0 <= from_start -> from_start + 5 < 1024 ->
  from_start + 5 <= from_addr <= from_start + 5 + 255 ->
  (forall k : nat, from_start + 5 <= Z.of_nat k < from_addr ->
     0 <= nth (k mod 1024) header 0 < 256 /\
     nth (k mod 1024) header 0 <> 13 /\ nth (k mod 1024) header 0 <> 10) ->
  FromGapCheck header from_start from_addr = Some ().
Proof.
  intros Hs Hs5 Ha Hgap. unfold FromGapCheck, from_prefix_len.
  rewrite (fadd_small from_start 5) by flia. rewrite fsub_small by flia.
  rewrite (SelectSubArray_valid 1024 255 8) by (done || lia || flia || (vm_compute; lia)).
  unfold window.
  rewrite decide_True by (change (2 ^ Z.of_nat (log2Ceil 1024)) with 1024; lia).
  cbv [mbind option_bind]. case_guard as Hall; [done|]. exfalso. apply Hall.
  apply Forall_tabulate. intros i Hi. case_decide as Hlt; [|by vm_compute].
  replace (i + Z.to_nat (from_start + 5))%nat with (Z.to_nat (Z.of_nat i + from_start + 5)) by lia.
  destruct (Hgap (Z.to_nat (Z.of_nat i + from_start + 5)) ltac:(lia)) as (? & ? & ?).
  by apply byte_not_newline.
Qed.

End PrefixGapFacts.

(** ** SenderBindingHasher: lengths and block count *)

Section LadderFacts.

Import RecoverEmailCircuit.

Lemma numBlocks_spec L :
  0 <= L <= 511 -> numBlocks L = Some ((L + 9 + 63) / 64).
Proof.
  intros HL. unfold numBlocks.
  assert (Hle : forall b, 0 <= b < 512 ->
            LessEqThan 9 L b = Some (if decide (L <= b) then 1 else 0)).
  { intros b Hb. apply LessEqThan_small; change (2 ^ Z.of_nat 9) with 512; lia. }
  rewrite !Hle by lia. clear Hle.
  cbv [mbind option_bind].
  assert (L <= 55 \/ 55 < L <= 119 \/ 119 < L <= 183 \/ 183 < L <= 247 \/
          247 < L <= 311 \/ 311 < L <= 375 \/ 375 < L <= 439 \/
          439 < L <= 503 \/ 503 < L) as Hcase by lia.
  destruct Hcase as [H|[H|[H|[H|[H|[H|[H|[H|H]]]]]]]].
  all: repeat first [rewrite decide_True by lia | rewrite decide_False by lia].
  all: match goal with
       | |- ?lhs = _ =>
           let v := eval vm_compute in lhs in
           transitivity v; [vm_compute; reflexivity|]
       end.
  all: apply (f_equal Some); Z.div_mod_to_equations; lia.
Qed.

End LadderFacts.

(** ** SenderBindingHasher: case folding *)

Section LowerFacts.

Import RecoverEmailCircuit SenderBindingSpec SubstringPacker.

Lemma lower_byte_spec b : is_byte b -> lower_byte b = Some (lower b).
Proof.
  intros Hb. unfold lower_byte, is_byte in *.
  rewrite Num2Bits_spec by (flia || lia).
  rewrite decide_True by (change (2 ^ Z.of_nat 8) with 256; lia).
  rewrite !LessThan_small by (change (2 ^ Z.of_nat 8) with 256; lia).
  cbv [mbind option_bind]. unfold lower. f_equal.
  repeat case_decide; try lia.
  - change (fsub 1 1) with 0. rewrite fmul_0_l. change (fmul 32 0) with 0.
    apply fadd_0_r. flia.
  - change (fsub 1 0) with 1. change (fmul 1 1) with 1. change (fmul 32 1) with 32.
    apply fadd_small. flia.
  - change (fsub 1 0) with 1. change (fmul 1 0) with 0. change (fmul 32 0) with 0.
    apply fadd_0_r. flia.
Qed.

Lemma lower_byte_not_byte b : felt b -> ~ is_byte b -> lower_byte b = None.
Proof.
  intros Hf Hb. unfold lower_byte, is_byte in *.
  rewrite Num2Bits_spec by (done || lia).
  rewrite decide_False by (change (2 ^ Z.of_nat 8) with 256; flia). done.
Qed.

Lemma lower_is_byte b : is_byte b -> is_byte (lower b).
Proof. unfold lower, is_byte. case_decide; lia. Qed.

Lemma lower_idemp b : lower (lower b) = lower b.
Proof. unfold lower. repeat case_decide; lia. Qed.

Lemma lower_0 : lower 0 = 0.
Proof. done. Qed.

Lemma map_lower_pad_right k l :
  map lower (pad_right k l) = pad_right k (map lower l).
Proof.
  unfold pad_right. rewrite map_app, length_map. f_equal.
  induction (k - length l)%nat as [|j IH]; simpl; [done|]. by rewrite IH.
Qed.

Lemma pad_right_is_byte k l : Forall is_byte l -> Forall is_byte (pad_right k l).
Proof.
  intros H. unfold pad_right. apply Forall_app. split; [done|].
  apply Forall_replicate. unfold is_byte. lia.
Qed.

Lemma mapM_lower_byte l :
  Forall is_byte l -> mapM lower_byte l = Some (map lower l).
Proof.
  intros H. apply mapM_map_Some. intros x Hx. apply lower_byte_spec.
  rewrite Forall_forall in H. by apply H, list_elem_of_In.
Qed.

Lemma length_pad_right k l : (length l <= k)%nat -> length (pad_right k l) = k.
Proof. intros H. unfold pad_right. rewrite length_app, length_replicate. lia. Qed.

Lemma nth_replicate_0 k i : nth i (replicate k 0) 0 = 0.
Proof. revert i. induction k as [|k IH]; intros [|i]; simpl; auto. Qed.

Lemma nth_pad_right k l i : nth i (pad_right k l) 0 = nth i l 0.
Proof.
  unfold pad_right. destruct (Nat.lt_ge_cases i (length l)).
  - by rewrite app_nth1.
  - rewrite app_nth2 by done. rewrite (nth_overflow l) by done.
    apply nth_replicate_0.
Qed.

Lemma map_lower_is_byte l : Forall is_byte l -> Forall is_byte (map lower l).
Proof.
  intros H. apply Forall_map. eapply Forall_impl; [exact H|]. apply lower_is_byte.
Qed.

Lemma length_map_le l k : (length l <= k)%nat -> (length (map lower l) <= k)%nat.
Proof. by rewrite length_map. Qed.

End LowerFacts.

(** ** SenderBindingHasher: the preimage and its padding *)

Ltac mlia := zify; Z.to_euclidean_division_equations; lia.

Section ByteFacts.

Lemma nth_is_byte l i : Forall is_byte l -> is_byte (nth i l 0).
Proof.
  intros H. destruct (Nat.lt_ge_cases i (length l)) as [Hi|Hi].
  - rewrite Forall_forall in H. apply H, list_elem_of_In, nth_In, Hi.
  - rewrite nth_overflow by lia. unfold is_byte. lia.
Qed.

Lemma is_byte_felt b : is_byte b -> felt b.
Proof. unfold is_byte. flia. Qed.

Lemma Forall_is_byte_felt l : Forall is_byte l -> Forall felt l.
Proof. intros H. eapply Forall_impl; [exact H|]. apply is_byte_felt. Qed.

End ByteFacts.

Section DigestFacts.

Import RecoverEmailCircuit Sha256.

Lemma round_length s kw : length s = 8%nat -> length (round s kw) = 8%nat.
Proof. do 9 (destruct s as [|? s]; try done). Qed.

Lemma fold_round_length l : forall s,
  length s = 8%nat -> length (fold_left round l s) = 8%nat.
Proof.
  induction l as [|kw l IH]; intros s Hs; simpl; [done|].
  apply IH. by apply round_length.
Qed.

Lemma compress_length h block : length h = 8%nat -> length (compress h block) = 8%nat.
Proof.
  intros Hh. unfold compress.
  rewrite length_map, length_combine, fold_round_length by done. lia.
Qed.

Lemma hash_blocks_length padded : length (hash_blocks padded) = 8%nat.
Proof.
  unfold hash_blocks. generalize (chunks (length padded) 64 padded).
  assert (length H0 = 8%nat) as Hh by done. revert Hh. generalize H0.
  intros h Hh l. revert h Hh. induction l as [|b l IH]; intros h Hh; simpl; [done|].
  apply IH. by apply compress_length.
Qed.

Lemma be_bytes_is_byte n x : Forall is_byte (be_bytes n x).
Proof.
  induction n as [|n IH]; simpl; [done|]. apply Forall_cons. split; [|done].
  unfold is_byte. apply Z.mod_pos_bound. lia.
Qed.

Lemma length_be_bytes n x : length (be_bytes n x) = n.
Proof. induction n as [|n IH]; simpl; [done|]. by rewrite IH. Qed.

Lemma digest_of_state_length h : length (digest_of_state h) = (4 * length h)%nat.
Proof.
  unfold digest_of_state. induction h as [|x h IH]; [done|].
  cbn [map concat]. rewrite length_app, IH, length_be_bytes. simpl. lia.
Qed.

Lemma digest_of_state_is_byte h : Forall is_byte (digest_of_state h).
Proof.
  unfold digest_of_state. induction h as [|x h IH]; [done|].
  cbn [map concat]. apply Forall_app. split; [apply (be_bytes_is_byte 4)|done].
Qed.

Lemma pack_byte_table :
  forallb (fun k => Z.eqb (fold_left (fun acc b => 2 * acc + b) (bits_be 8 (Z.of_nat k)) 0)
                          (Z.of_nat k))
          (seq 0 256) = true.
Proof. vm_compute. reflexivity. Qed.

Lemma pack_byte x :
  is_byte x -> fold_left (fun acc b => 2 * acc + b) (bits_be 8 x) 0 = x.
Proof.
  intros Hx. pose proof pack_byte_table as H. rewrite forallb_forall in H.
  specialize (H (Z.to_nat x)). unfold is_byte in Hx.
  rewrite Z2Nat.id in H by lia. apply Z.eqb_eq, H, in_seq. lia.
Qed.

Lemma chunks_bits bs : forall fuel,
  (length bs <= fuel)%nat ->
  chunks fuel 8 (concat (map (bits_be 8) bs)) = map (bits_be 8) bs.
Proof.
  induction bs as [|b bs IH]; intros fuel Hf.
  - by destruct fuel.
  - destruct fuel as [|fuel]; [simpl in Hf; lia|].
    change (concat (map (bits_be 8) (b :: bs)))
      with (bits_be 8 b ++ concat (map (bits_be 8) bs)).
    change (bits_be 8 b) with
      [Z.b2z (Z.testbit b 7); Z.b2z (Z.testbit b 6); Z.b2z (Z.testbit b 5);
       Z.b2z (Z.testbit b 4); Z.b2z (Z.testbit b 3); Z.b2z (Z.testbit b 2);
       Z.b2z (Z.testbit b 1); Z.b2z (Z.testbit b 0)].
    cbn [chunks app firstn skipn map]. f_equal. apply IH. simpl in Hf. lia.
Qed.

Lemma PackBits_digest_bits h :
  length h = 8%nat -> PackBits (digest_bits h) = digest_of_state h.
Proof.
  intros Hh. unfold PackBits, digest_bits.
  rewrite chunks_bits by (rewrite digest_of_state_length; lia).
  rewrite map_map. rewrite <- (map_id (digest_of_state h)) at 2.
  apply map_ext_in. intros x Hx. apply pack_byte.
  pose proof (digest_of_state_is_byte h) as Hb. rewrite Forall_forall in Hb.
  by apply Hb, list_elem_of_In.
Qed.

End DigestFacts.

Section HasherFacts.

Import RecoverEmailCircuit SenderBindingSpec SubstringPacker.

Variables f a : list Z.
Hypothesis Hf : Forall is_byte f.
Hypothesis Ha : Forall is_byte a.
Hypothesis Hf255 : (length f <= 255)%nat.
Hypothesis Ha255 : (length a <= 255)%nat.

(** The two strings after case folding. *)
Let lf := map lower f.
Let la := map lower a.
Let Hlf : Forall is_byte lf := map_lower_is_byte f Hf.
Let Hla : Forall is_byte la := map_lower_is_byte a Ha.
Let Hnf : (length lf <= 255)%nat := length_map_le f 255 Hf255.
Let Hna : (length la <= 255)%nat := length_map_le a 255 Ha255.

Let nf := length lf.
Let na := length la.
Let msg := lf ++ [124] ++ la.
Let L := (nf + 1 + na)%nat.
Let Hnf' : (nf <= 255)%nat := Hnf.
Let Hna' : (na <= 255)%nat := Hna.

Lemma nth_msg i :
  nth i msg 0 =
    if decide (i < nf)%nat then nth i lf 0
    else if decide (i = nf) then 124
    else nth (i - nf - 1) la 0.
Proof.
  unfold msg. repeat case_decide.
  - by rewrite app_nth1.
  - subst i. rewrite app_nth2 by lia. fold nf. by rewrite Nat.sub_diag.
  - rewrite app_nth2 by (fold nf; lia). fold nf.
    destruct (i - nf)%nat as [|j] eqn:Hj; [lia|]. simpl. f_equal. lia.
Qed.

Lemma length_msg : length msg = L.
Proof. unfold msg, L, nf, na. rewrite !length_app. simpl. lia. Qed.

Lemma msg_is_byte : Forall is_byte msg.
Proof.
  unfold msg. apply Forall_app. split; [done|].
  apply Forall_cons. split; [unfold is_byte; lia|done].
Qed.

(** The three 512-cell vectors and their shifts. *)
Let fromVec := tabulate max_preimage_len
  (fun i => if decide (i < max_from_len)%nat then nth i (pad_right 255 lf) 0 else 0).
Let accountVecBase := tabulate max_preimage_len
  (fun i => if decide (i < max_account_len)%nat then nth i (pad_right 255 la) 0 else 0).
Let delimBase := tabulate max_preimage_len
  (fun i => if decide (i = 0)%nat then 124 else 0).

Lemma nth_fromVec i : nth i fromVec 0 = nth i lf 0.
Proof.
  unfold fromVec. destruct (Nat.lt_ge_cases i 512).
  - rewrite nth_tabulate by done. case_decide.
    + apply nth_pad_right.
    + rewrite nth_overflow; [done|]. unfold max_from_len in *. lia.
  - rewrite nth_tabulate_ge by done. rewrite nth_overflow; [done|lia].
Qed.

Lemma nth_accountVecBase i : nth i accountVecBase 0 = nth i la 0.
Proof.
  unfold accountVecBase. destruct (Nat.lt_ge_cases i 512).
  - rewrite nth_tabulate by done. case_decide.
    + apply nth_pad_right.
    + rewrite nth_overflow; [done|]. unfold max_account_len in *. lia.
  - rewrite nth_tabulate_ge by done. rewrite nth_overflow; [done|lia].
Qed.

Lemma accountVecBase_felt : Forall felt accountVecBase.
Proof.
  apply Forall_tabulate. intros i _. case_decide; [|flia].
  rewrite nth_pad_right. by apply is_byte_felt, nth_is_byte.
Qed.

Lemma delimBase_felt : Forall felt delimBase.
Proof. apply Forall_tabulate. intros i _. case_decide; flia. Qed.

Lemma accountShifter_eq :
  VarShiftLeft max_preimage_len max_preimage_len accountVecBase
    (fsub (fsub (Z.of_nat max_preimage_len) (Z.of_nat nf)) 1)
  = Some (tabulate 512 (fun i =>
            if decide (nf < i)%nat then nth (i - nf - 1) la 0 else 0)).
Proof.
  rewrite VarShiftLeft_spec;
    [|unfold max_preimage_len; lia|lia|vm_compute; lia|apply length_tabulate
     |apply accountVecBase_felt|apply fsub_felt].
  unfold max_preimage_len. change (Z.of_nat 512) with 512.
  rewrite (fsub_small 512) by flia. rewrite fsub_small by flia.
  rewrite decide_True by (change (2 ^ Z.of_nat (log2Ceil 512)) with 512; lia).
  apply (f_equal Some), tabulate_ext. intros i Hi.
  rewrite nth_accountVecBase. case_decide.
  - f_equal. mlia.
  - apply nth_overflow. fold na. mlia.
Qed.

Lemma delimShifter_eq :
  VarShiftLeft max_preimage_len max_preimage_len delimBase
    (fmul (fsub (Z.of_nat max_preimage_len) (Z.of_nat nf))
          (fsub 1 (IsZero (Z.of_nat nf))))
  = Some (tabulate 512 (fun i => if decide (i = nf) then 124 else 0)).
Proof.
  rewrite VarShiftLeft_spec;
    [|unfold max_preimage_len; lia|lia|vm_compute; lia|apply length_tabulate
     |apply delimBase_felt|apply fmul_felt].
  unfold max_preimage_len. change (Z.of_nat 512) with 512.
  rewrite (fsub_small 512) by flia.
  destruct (decide (nf = 0)%nat) as [H0|H0].
  - rewrite H0. change (IsZero (Z.of_nat 0)) with 1. change (fsub 1 1) with 0.
    rewrite fmul_small by flia.
    rewrite decide_True by (change (2 ^ Z.of_nat (log2Ceil 512)) with 512; lia).
    apply (f_equal Some), tabulate_ext. intros i Hi.
    unfold delimBase. rewrite nth_tabulate by (unfold max_preimage_len; mlia).
    repeat case_decide; try done; mlia.
  - rewrite IsZero_ne by lia. change (fsub 1 0) with 1.
    rewrite fmul_small by flia.
    rewrite decide_True by (change (2 ^ Z.of_nat (log2Ceil 512)) with 512; lia).
    apply (f_equal Some), tabulate_ext. intros i Hi.
    unfold delimBase. rewrite nth_tabulate by (unfold max_preimage_len; mlia).
    repeat case_decide; try done; mlia.
Qed.

(** The combined vector is the preimage followed by zeros. *)
Lemma preimage_eq :
  tabulate max_preimage_len (fun i =>
    fadd (fadd (nth i fromVec 0)
               (nth i (tabulate 512 (fun i => if decide (i = nf) then 124 else 0)) 0))
         (nth i (tabulate 512 (fun i =>
            if decide (nf < i)%nat then nth (i - nf - 1) la 0 else 0)) 0))
  = tabulate 512 (fun i => nth i msg 0).
Proof.
  apply tabulate_ext. intros i Hi. unfold max_preimage_len in Hi.
  rewrite !nth_tabulate by done. rewrite nth_fromVec, nth_msg.
  pose proof (nth_is_byte lf i Hlf) as Hb1.
  pose proof (nth_is_byte la (i - nf - 1) Hla) as Hb2.
  unfold is_byte in *.
  repeat case_decide; try lia.
  all: try rewrite (nth_overflow lf) by (unfold nf in *; lia).
  all: lazymatch goal with
       | |- fadd (fadd 0 124) 0 = 124 => reflexivity
       | |- fadd (fadd 0 0) ?x = ?x => change (fadd 0 0) with 0; apply fadd_0_l; flia
       | |- fadd (fadd ?x 0) 0 = ?x =>
           rewrite (fadd_0_r x) by flia; apply fadd_0_r; flia
       end.
Qed.

(** The padding: 0x80 at the message length, the bit length in the last two
    bytes of the last block. *)
Let Lz := Z.of_nat L.
Let padded := 64 * ((Lz + 9 + 63) / 64).
Let npad := Z.to_nat padded.
Let lenHi := (8 * Lz / 256) mod 256.
Let lenLo := (8 * Lz) mod 256.
Let oneBase := tabulate max_preimage_padded_len
  (fun i => if decide (i = 0)%nat then 128 else 0).
Let lenBase := tabulate max_preimage_padded_len
  (fun i => if decide (i = 6)%nat then lenHi
            else if decide (i = 7)%nat then lenLo else 0).

Lemma L_range : 1 <= Lz <= 511.
Proof. unfold Lz, L, nf, na in *. lia. Qed.

Lemma padded_range : 64 <= padded <= 576 /\ Lz + 9 <= padded < Lz + 9 + 64.
Proof. pose proof L_range. unfold padded. Z.div_mod_to_equations. lia. Qed.

Lemma preimage_len_eq :
  fadd (fadd (Z.of_nat nf) 1) (Z.of_nat na) = Lz.
Proof.
  pose proof L_range. unfold Lz, L in *.
  rewrite (fadd_small (Z.of_nat nf)) by flia. rewrite fadd_small by flia. lia.
Qed.

Lemma oneShifter_eq :
  VarShiftLeft max_preimage_padded_len max_preimage_padded_len oneBase
    (fsub (Z.of_nat max_preimage_padded_len) Lz)
  = Some (tabulate 576 (fun i => if decide (i = L) then 128 else 0)).
Proof.
  pose proof L_range as HL.
  rewrite VarShiftLeft_spec;
    [|unfold max_preimage_padded_len; lia|lia|vm_compute; lia|apply length_tabulate
     |apply Forall_tabulate; intros; case_decide; flia|apply fsub_felt].
  unfold max_preimage_padded_len. change (Z.of_nat 576) with 576.
  rewrite fsub_small by flia.
  rewrite decide_True by (change (2 ^ Z.of_nat (log2Ceil 576)) with 1024; lia).
  apply (f_equal Some), tabulate_ext. intros i Hi.
  unfold oneBase. rewrite nth_tabulate by (unfold max_preimage_padded_len; mlia).
  unfold Lz in *. repeat case_decide; try done; mlia.
Qed.

Lemma lenHi_byte : is_byte lenHi.
Proof. unfold lenHi, is_byte. apply Z.mod_pos_bound. lia. Qed.

Lemma lenLo_byte : is_byte lenLo.
Proof. unfold lenLo, is_byte. apply Z.mod_pos_bound. lia. Qed.

Lemma lenBits_eq :
  Num2Bits 16 (fmul Lz 8) = Some (bits_of 16 (8 * Lz)).
Proof.
  pose proof L_range as HL. rewrite fmul_small by flia.
  rewrite Num2Bits_spec by (flia || lia).
  rewrite decide_True by (change (2 ^ Z.of_nat 16) with 65536; lia).
  f_equal. f_equal. lia.
Qed.

Lemma lenLo_eq : Bits2Num (take 8 (bits_of 16 (8 * Lz))) = lenLo.
Proof.
  unfold Bits2Num. change (take 8 (bits_of 16 (8 * Lz))) with (bits_of 8 (8 * Lz)).
  rewrite lc_bits_of. change (2 ^ Z.of_nat 8) with 256.
  apply Z.mod_small. pose proof lenLo_byte. unfold lenLo, is_byte in *. flia.
Qed.

Lemma lenHi_eq : Bits2Num (take 8 (drop 8 (bits_of 16 (8 * Lz)))) = lenHi.
Proof.
  unfold Bits2Num.
  change (take 8 (drop 8 (bits_of 16 (8 * Lz))))
    with (map (bit_of (8 * Lz)) (seq 8 8)).
  rewrite lc_bits. change (2 ^ Z.of_nat 8) with 256. rewrite Z.mul_1_l.
  apply Z.mod_small. pose proof lenHi_byte. unfold lenHi, is_byte in *. flia.
Qed.

Lemma lenShifter_eq :
  VarShiftLeft max_preimage_padded_len max_preimage_padded_len lenBase
    (fsub (fadd (Z.of_nat max_preimage_padded_len) 8) padded)
  = Some (tabulate 576 (fun i =>
            if decide (i = npad - 2)%nat then lenHi
            else if decide (i = npad - 1)%nat then lenLo else 0)).
Proof.
  pose proof padded_range as HP. pose proof lenHi_byte. pose proof lenLo_byte.
  rewrite VarShiftLeft_spec;
    [|unfold max_preimage_padded_len; lia|lia|vm_compute; lia|apply length_tabulate
     |apply Forall_tabulate; intros; repeat case_decide; unfold is_byte in *; flia
     |apply fsub_felt].
  unfold max_preimage_padded_len. change (fadd (Z.of_nat 576) 8) with 584.
  rewrite fsub_small by flia.
  rewrite decide_True by (change (2 ^ Z.of_nat (log2Ceil 576)) with 1024; lia).
  apply (f_equal Some), tabulate_ext. intros i Hi.
  unfold lenBase. rewrite nth_tabulate by (unfold max_preimage_padded_len; mlia).
  unfold npad in *. repeat case_decide; try done; mlia.
Qed.

Lemma be_bytes8_small x :
  0 <= x < 65536 ->
  Sha256.be_bytes 8 x = [0; 0; 0; 0; 0; 0; (x / 256) mod 256; x mod 256].
Proof.
  intros Hx. unfold Sha256.be_bytes.
  change (256 ^ Z.of_nat 0) with 1. change (256 ^ Z.of_nat 1) with 256.
  rewrite Z.div_1_r.
  rewrite !(Z.div_small x (256 ^ _)); [done|..].
  all: match goal with |- _ <= _ < ?c => let v := eval vm_compute in c in change c with v end; lia.
Qed.

Lemma pad_msg_eq :
  Sha256.pad msg =
    msg ++ 128 :: replicate (Z.to_nat ((55 - Lz) mod 64)) 0
        ++ [0; 0; 0; 0; 0; 0; lenHi; lenLo].
Proof.
  pose proof L_range. unfold Sha256.pad. rewrite length_msg. fold Lz.
  rewrite be_bytes8_small by lia. done.
Qed.

Lemma length_pad_msg : length (Sha256.pad msg) = npad.
Proof.
  pose proof L_range. rewrite pad_msg_eq.
  rewrite length_app, length_msg. simpl. rewrite length_app, length_replicate. simpl.
  unfold npad, padded. fold Lz. unfold Lz in *. mlia.
Qed.

Lemma nth_pad_msg i :
  nth i (Sha256.pad msg) 0 =
    if decide (i < L)%nat then nth i msg 0
    else if decide (i = L) then 128
    else if decide (i = npad - 2)%nat then lenHi
    else if decide (i = npad - 1)%nat then lenLo
    else 0.
Proof.
  pose proof L_range as HL. pose proof padded_range as HP.
  pose proof length_pad_msg as Hlen. rewrite pad_msg_eq in *.
  rewrite length_app, length_msg in Hlen. simpl in Hlen.
  rewrite length_app, length_replicate in Hlen. simpl in Hlen.
  set (k := Z.to_nat ((55 - Lz) mod 64)) in *.
  case_decide as H1; [by rewrite app_nth1 by (rewrite length_msg; lia)|].
  rewrite app_nth2 by (rewrite length_msg; lia). rewrite length_msg.
  case_decide as H2; [subst i; by rewrite Nat.sub_diag|].
  destruct (i - L)%nat as [|j] eqn:Hj; [lia|]. simpl.
  destruct (Nat.lt_ge_cases j k) as [Hjk|Hjk].
  - rewrite app_nth1 by (rewrite length_replicate; lia).
    rewrite nth_replicate_0. repeat case_decide; try done; lia.
  - rewrite app_nth2 by (rewrite length_replicate; lia). rewrite length_replicate.
    destruct (j - k)%nat as [|[|[|[|[|[|[|[|m]]]]]]]] eqn:Hm; simpl;
      repeat case_decide; try done; try lia.
    by destruct m.
Qed.

Lemma preimage_ext_eq i :
  (if decide (i < max_preimage_len)%nat
   then nth i (tabulate 512 (fun i => nth i msg 0)) 0 else 0) = nth i msg 0.
Proof.
  pose proof L_range. unfold max_preimage_len. case_decide.
  - by rewrite nth_tabulate.
  - rewrite nth_overflow; [done|]. rewrite length_msg. unfold Lz in *. lia.
Qed.

(** The padded buffer the circuit hands to the hash is the standard padding
    of the preimage, followed by zeros. *)
Lemma padded_preimage_eq :
  tabulate max_preimage_padded_len (fun i =>
    fadd (fadd (nth i (tabulate max_preimage_padded_len (fun i =>
                   if decide (i < max_preimage_len)%nat
                   then nth i (tabulate 512 (fun i => nth i msg 0)) 0 else 0)) 0)
               (nth i (tabulate 576 (fun i => if decide (i = L) then 128 else 0)) 0))
         (nth i (tabulate 576 (fun i =>
            if decide (i = npad - 2)%nat then lenHi
            else if decide (i = npad - 1)%nat then lenLo else 0)) 0))
  = tabulate 576 (fun i => nth i (Sha256.pad msg) 0).
Proof.
  pose proof L_range as HL. pose proof padded_range as HP.
  pose proof lenHi_byte as HHi. pose proof lenLo_byte as HLo.
  apply tabulate_ext. intros i Hi. unfold max_preimage_padded_len in Hi.
  rewrite (nth_tabulate max_preimage_padded_len _ i) by done.
  rewrite preimage_ext_eq. rewrite !(nth_tabulate 576 _ i) by done.
  rewrite nth_pad_msg.
  pose proof (nth_is_byte msg i msg_is_byte) as Hb.
  unfold is_byte, npad, Lz in *.
  repeat case_decide; try lia.
  all: try rewrite (nth_overflow msg) by (rewrite length_msg; lia).
  all: lazymatch goal with
       | |- fadd (fadd 0 128) 0 = 128 => reflexivity
       | |- fadd (fadd 0 0) ?x = ?x => change (fadd 0 0) with 0; apply fadd_0_l; flia
       | |- fadd (fadd ?x 0) 0 = ?x =>
           rewrite (fadd_0_r x) by flia; apply fadd_0_r; flia
       end.
Qed.

Lemma take_padded :
  take npad (tabulate 576 (fun i => nth i (Sha256.pad msg) 0)) = Sha256.pad msg.
Proof.
  pose proof padded_range. rewrite take_tabulate by (unfold npad; lia).
  rewrite <- length_pad_msg. apply tabulate_nth.
Qed.

Lemma pad_msg_is_byte : Forall is_byte (Sha256.pad msg).
Proof.
  rewrite pad_msg_eq. apply Forall_app. split; [apply msg_is_byte|].
  apply Forall_cons. split; [unfold is_byte; lia|].
  apply Forall_app. split; [apply Forall_replicate; unfold is_byte; lia|].
  pose proof lenHi_byte. pose proof lenLo_byte.
  repeat (apply Forall_cons; split; [done || (unfold is_byte; lia)|]). done.
Qed.

Lemma Num2Bits_bytes l :
  Forall is_byte l -> mapM (Num2Bits 8) l = Some (map (bits_of 8) l).
Proof.
  intros H. apply mapM_map_Some. intros x Hx.
  rewrite Forall_forall in H. apply list_elem_of_In, H in Hx.
  rewrite Num2Bits_spec by (by apply is_byte_felt || lia).
  rewrite decide_True; [done|]. change (2 ^ Z.of_nat 8) with 256.
  unfold is_byte in Hx. lia.
Qed.

Local Lemma obind_some {A B} (x : A) (k : A -> option B) : Some x ≫= k = k x.
Proof. done. Qed.

(** The hasher block of the circuit computes the SHA-256 digest of the
    case-folded, delimiter-joined preimage. *)
Lemma SenderBindingHasher_eq :
  SenderBindingHasher (pad_right 255 f) (Z.of_nat (length f))
                      (pad_right 255 a) (Z.of_nat (length a))
  = Some (hash f a).
Proof.
  pose proof L_range as HL. pose proof padded_range as HP.
  replace (length f) with nf by (unfold nf, lf; by rewrite length_map).
  replace (length a) with na by (unfold na, la; by rewrite length_map).
  unfold SenderBindingHasher.
  rewrite (Num2Bits_spec 8 (Z.of_nat nf)) by (flia || lia).
  rewrite decide_True by (change (2 ^ Z.of_nat 8) with 256; lia).
  rewrite obind_some; cbv beta.
  rewrite (Num2Bits_spec 8 (Z.of_nat na)) by (flia || lia).
  rewrite decide_True by (change (2 ^ Z.of_nat 8) with 256; lia).
  rewrite obind_some; cbv beta.
  rewrite !mapM_lower_byte by (by apply pad_right_is_byte).
  rewrite !obind_some; cbv beta. rewrite !map_lower_pad_right. fold lf la.
  cbv zeta. fold accountVecBase delimBase oneBase fromVec.
  rewrite accountShifter_eq, obind_some; cbv beta.
  rewrite delimShifter_eq, obind_some; cbv beta.
  rewrite preimage_len_eq.
  rewrite (Num2Bits_spec 9 Lz) by (flia || lia).
  rewrite decide_True by (change (2 ^ Z.of_nat 9) with 512; lia).
  rewrite obind_some; cbv beta.
  rewrite numBlocks_spec by lia. rewrite obind_some; cbv beta.
  rewrite oneShifter_eq, obind_some; cbv beta.
  rewrite lenBits_eq, obind_some; cbv beta. rewrite lenLo_eq, lenHi_eq.
  replace (fmul ((Lz + 9 + 63) / 64) 64) with padded
    by (unfold padded in *; rewrite fmul_small by flia; lia).
  fold lenBase. rewrite lenShifter_eq, obind_some; cbv beta.
  rewrite preimage_eq. rewrite padded_preimage_eq.
  unfold Sha256Bytes.
  rewrite option_guard_True
    by (unfold max_preimage_padded_len, padded in *; split; [|lia];
        rewrite Z.mul_comm; apply Z_mod_mult).
  rewrite Num2Bits_bytes.
  2:{ apply Forall_tabulate. intros i _. apply nth_is_byte, pad_msg_is_byte. }
  rewrite obind_some; cbv beta. fold npad. rewrite take_padded.
  rewrite obind_some; cbv beta.
  rewrite PackBits_digest_bits by apply hash_blocks_length. done.
Qed.

End HasherFacts.

(** ** Running the circuit on sample headers *)

Section Evaluation.

Import RecoverEmailCircuit Examples SenderBindingSpec SubstringPacker.

Lemma SelectSubArray_window m header start len :
  length header = max_header_bytes -> Forall felt header -> felt start ->
  (m <= 1024)%nat -> (log2Ceil m <= 252)%nat ->
  Z.of_nat m <= 2 ^ Z.of_nat (log2Ceil m) ->
  0 <= len <= 2 ^ Z.of_nat (log2Ceil m) ->
  SelectSubArray max_header_bytes m header start len
  = window max_header_bytes m header start len.
Proof.
  intros. apply (SelectSubArray_valid 1024 m (log2Ceil m)); try done.
  - lia.
  - vm_compute. lia.
Qed.

Lemma header_of_length bytes :
  (length bytes <= max_header_bytes)%nat -> length (header_of bytes) = max_header_bytes.
Proof. intros H. unfold header_of. rewrite length_app, length_replicate. lia. Qed.

Lemma header_of_felt bytes : Forall is_byte bytes -> Forall felt (header_of bytes).
Proof.
  intros H. unfold header_of. apply Forall_app. split.
  - by apply Forall_is_byte_felt.
  - apply Forall_replicate. flia.
Qed.

End Evaluation.

(** Replace every [SelectSubArray] on a concrete header by its window. *)
Ltac select_windows Hlen Hfelt :=
  repeat (rewrite SelectSubArray_window;
          [ | exact Hlen | exact Hfelt | apply felt_mod || (vm_compute; split; [discriminate|reflexivity])
            | vm_compute; lia | vm_compute; lia | vm_compute; discriminate
            | vm_compute; split; discriminate ]).

Import RecoverEmailCircuit Examples.

Ltac unfold_circuit :=
  unfold MyCircuit, MyCircuit_hashed, SubjectChecks, FromChecks, DateChecks,
    SubjectStructure, AnchorCheck, PrefixCheck, FromGapCheck, PackByteSubArray;
  cbn [emailHeader emailHeaderLength pubkey signature
       subject_start_idx subject_request_id_idx subject_request_id_len
       subject_account_id_idx subject_public_key_idx subject_account_id_len
       subject_public_key_len from_start_idx from_addr_idx from_addr_len
       date_start_idx date_timestamp_idx date_timestamp_len
       scenario long_gap from_first accent_located accent_first_located].

Section EvaluationScenario.

Import RecoverEmailCircuit Examples SenderBindingSpec SubstringPacker.

Lemma scenario_length : length (emailHeader scenario) = max_header_bytes.
Proof. reflexivity. Qed.

Lemma scenario_felt : Forall felt (emailHeader scenario).
Proof. apply header_of_felt. compute_done. Qed.

Lemma scenario_FromChecks : FromChecks scenario = Some ().
Proof.
  unfold_circuit. select_windows scenario_length scenario_felt.
  vm_compute. reflexivity.
Qed.

Lemma scenario_accepted : is_Some (MyCircuit accept_all scenario).
Proof.
  unfold_circuit. select_windows scenario_length scenario_felt.
  vm_compute. eexists. reflexivity.
Qed.

Lemma scenario_accepted_hashed : is_Some (MyCircuit_hashed accept_all scenario).
Proof.
  unfold_circuit. select_windows scenario_length scenario_felt.
  vm_compute. eexists. reflexivity.
Qed.

Lemma long_gap_length : length (emailHeader long_gap) = max_header_bytes.
Proof. reflexivity. Qed.

Lemma long_gap_felt : Forall felt (emailHeader long_gap).
Proof. apply header_of_felt. compute_done. Qed.

Lemma long_gap_accepted : is_Some (MyCircuit accept_all long_gap).
Proof.
  unfold_circuit. select_windows long_gap_length long_gap_felt.
  vm_compute. eexists. reflexivity.
Qed.

End EvaluationScenario.

(** * The claims about the circuit *)

Lemma obind_Some {A B} (x : A) (k : A -> option B) : Some x ≫= k = k x.
Proof. done. Qed.

Lemma obind_None {A B} (k : A -> option B) : None ≫= k = None.
Proof. done. Qed.

(** Peel one component off a chain that ends in rejection. *)
Ltac reject_step :=
  rewrite ?obind_None;
  lazymatch goal with
  | |- None = None => reflexivity
  | |- (?m ≫= _) = None => destruct m; [rewrite obind_Some; cbv beta|reflexivity]
  end.

(** Peel one component off an accepted chain. *)
Ltac accept_step H :=
  lazymatch type of H with
  | (?m ≫= _) = Some _ =>
      let E := fresh "E" in
      destruct m eqn:E; [rewrite obind_Some in H; cbv beta in H|discriminate H]
  end.

Section CircuitClaims.

Import RecoverEmailCircuit Examples SenderBindingSpec SubstringPacker.

Lemma AnchorCheck_origin header : AnchorCheck header 0 = None.
Proof. unfold AnchorCheck. by rewrite AnchorCheck_origin_select. Qed.

(** No input with a field at index 0 satisfies either variant. *)
Lemma MyCircuit_rejects_origin EV i :
  subject_start_idx i = 0 \/ from_start_idx i = 0 \/ date_start_idx i = 0 ->
  MyCircuit EV i = None /\ MyCircuit_hashed EV i = None.
Proof.
  intros H. unfold MyCircuit, MyCircuit_hashed, SubjectChecks, FromChecks, DateChecks.
  destruct H as [H|[H|H]]; rewrite H, !AnchorCheck_origin; split; repeat reject_step.
Qed.

(** C1. The anchor rule exempts a field that starts at index 0 (the template's
    comment says the check is skipped there), but the circuit rejects it: the
    anchor selector is asked for the cells at index [0 - 2], which is not a
    valid index. The sample header whose first line is the From line fails
    the From checks although its prefix and gap checks pass. *)
Theorem anchor_origin_rejected :
  (forall header, AnchorCheck header 0 = None) /\
  PrefixCheck (emailHeader from_first) (from_start_idx from_first) from_prefix = Some () /\
  FromGapCheck (emailHeader from_first) (from_start_idx from_first)
    (from_addr_idx from_first) = Some () /\
  FromChecks from_first = None /\
  MyCircuit accept_all from_first = None.
Proof.
  assert (Hlen : length (emailHeader from_first) = max_header_bytes) by reflexivity.
  assert (Hfelt : Forall felt (emailHeader from_first))
    by (apply header_of_felt; compute_done).
  split; [apply AnchorCheck_origin|].
  split; [unfold_circuit; select_windows Hlen Hfelt; vm_compute; reflexivity|].
  split; [unfold_circuit; select_windows Hlen Hfelt; vm_compute; reflexivity|].
  assert (FromChecks from_first = None) as HF.
  { unfold FromChecks. change (from_start_idx from_first) with 0.
    by rewrite AnchorCheck_origin. }
  split; [exact HF|].
  apply MyCircuit_rejects_origin. right. left. reflexivity.
Qed.

(** The sound half of the anchor rule: an accepted field starts at least two
    cells into the buffer and is preceded by CR LF. *)
Lemma anchored_start header start expected c :
  length header = max_header_bytes -> Forall felt header -> felt start ->
  c = log2Ceil (length expected) -> (c <= 252)%nat ->
  Z.of_nat (length expected) <= 2 ^ Z.of_nat c -> (length expected <= 1024)%nat ->
  AnchorCheck header start = Some () ->
  PrefixCheck header start expected = Some () ->
  2 <= start < 1024 /\
  nth (Z.to_nat start - 2) header 0 = 13 /\
  nth (Z.to_nat start - 1) header 0 = 10.
Proof.
  intros Hlen Hfelt Hs Hc Hc252 Hmc Hm HA HP.
  apply AnchorCheck_sound in HA as (Hr & H13 & H10);
    [|exact Hlen|exact Hfelt|exact Hs].
  eapply PrefixCheck_sound in HP as [Hlt _];
    [|exact Hlen|exact Hfelt|exact Hc|exact Hc252|exact Hmc|exact Hm|exact Hs].
  split; [lia|].
  replace (Z.to_nat (start - 2) mod 1024)%nat with (Z.to_nat start - 2)%nat in H13 by mlia.
  replace ((1 + Z.to_nat (start - 2)) mod 1024)%nat with (Z.to_nat start - 1)%nat in H10 by mlia.
  done.
Qed.

(** The plain variant at the long-gap sample: accepted, with a line feed
    strictly inside the From gap. *)
Lemma long_gap_newline :
  from_start_idx long_gap + 5 <= 370 < from_addr_idx long_gap /\
  nth 370 (emailHeader long_gap) 0 = 10.
Proof. split; [vm_compute; split; [discriminate|reflexivity]|reflexivity]. Qed.

(** C5. The gap check does not cover a gap of 256 bytes: the sample whose
    From gap is 255 spaces and a line feed is accepted by the whole circuit
    although byte 370, strictly between the end of "from:" and the address,
    is a line feed. The gap window has 255 cells and its comparators also
    accept the length 256, so the last byte of such a gap is never
    inspected. *)
Lemma from_gap_256_accepted :
  is_Some (MyCircuit accept_all long_gap) /\
  from_start_idx long_gap + 5 <= 370 < from_addr_idx long_gap /\
  nth 370 (emailHeader long_gap) 0 = 10.
Proof. split; [exact long_gap_accepted|exact long_gap_newline]. Qed.

(** What the gap check does enforce. With a From line accepted by the
    circuit, no byte of the gap between "from:" and the address that lies in
    the 255-cell gap window is CR or LF, so every gap byte when the gap has
    at most 255 bytes. And the zero cells of the window past the gap never
    cause rejection: a gap of at most 255 bytes, none of them CR or LF,
    passes the gap check whatever follows it in the buffer. *)
Theorem from_gap_window_no_newline (i : Inputs) :
  length (emailHeader i) = max_header_bytes -> Forall felt (emailHeader i) ->
  felt (from_start_idx i) -> felt (from_addr_idx i) ->
  (FromChecks i = Some () ->
   forall k : nat,
     from_start_idx i + 5 <= Z.of_nat k < from_addr_idx i ->
     Z.of_nat k < from_start_idx i + 5 + 255 ->
     nth k (emailHeader i) 0 <> 13 /\ nth k (emailHeader i) 0 <> 10) /\
  (from_start_idx i + 5 < 1024 ->
   from_start_idx i + 5 <= from_addr_idx i <= from_start_idx i + 5 + 255 ->
   (forall k : nat,
      from_start_idx i + 5 <= Z.of_nat k < from_addr_idx i ->
      is_byte (nth (k mod 1024) (emailHeader i) 0) /\
      nth (k mod 1024) (emailHeader i) 0 <> 13 /\
      nth (k mod 1024) (emailHeader i) 0 <> 10) ->
   FromGapCheck (emailHeader i) (from_start_idx i) (from_addr_idx i) = Some ()).
Proof.
  intros Hlen Hfelt Hs Ha. split.
  - unfold FromChecks. intros H.
    destruct (AnchorCheck _ _) as [[]|] eqn:HA; [|done]. rewrite obind_Some in H.
    destruct (PrefixCheck _ _ _) as [[]|] eqn:HP; [|done]. rewrite obind_Some in H.
    eapply (PrefixCheck_sound _ Hlen Hfelt 3) in HP as [Hlt _];
      [|reflexivity|lia|vm_compute; discriminate|vm_compute; lia|exact Hs].
    apply (FromGapCheck_sound _ Hlen Hfelt); [flia|done|done].
  - intros H5 Hr Hgap. apply (FromGapCheck_complete _ Hlen Hfelt); [flia|done|done|].
    intros k Hk. destruct (Hgap k Hk) as (Hb & H13 & H10). done.
Qed.

Lemma from_gap_window_no_newline_witness :
  (FromChecks scenario = Some () ->
   forall k : nat,
     from_start_idx scenario + 5 <= Z.of_nat k < from_addr_idx scenario ->
     Z.of_nat k < from_start_idx scenario + 5 + 255 ->
     nth k (emailHeader scenario) 0 <> 13 /\ nth k (emailHeader scenario) 0 <> 10) /\
  (from_start_idx scenario + 5 < 1024 ->
   from_start_idx scenario + 5 <= from_addr_idx scenario
     <= from_start_idx scenario + 5 + 255 ->
   (forall k : nat,
      from_start_idx scenario + 5 <= Z.of_nat k < from_addr_idx scenario ->
      is_byte (nth (k mod 1024) (emailHeader scenario) 0) /\
      nth (k mod 1024) (emailHeader scenario) 0 <> 13 /\
      nth (k mod 1024) (emailHeader scenario) 0 <> 10) ->
   FromGapCheck (emailHeader scenario) (from_start_idx scenario)
     (from_addr_idx scenario) = Some ()).
Proof.
  apply (from_gap_window_no_newline scenario).
  - reflexivity.
  - exact scenario_felt.
  - vm_compute. split; [discriminate|reflexivity].
  - vm_compute. split; [discriminate|reflexivity].
Defined.

(** C6. For a preimage length of 0 to 511 the ladder of eight comparisons
    selects ceil((L + 9) / 64) blocks, and the padded length, the block count
    times 64, is the least multiple of 64 that is at least L + 9. *)
Theorem numBlocks_is_ceil (L : Z) :
  0 <= L <= 511 ->
  exists nb,
    numBlocks L = Some nb /\ nb = ceil_div (L + 9) 64 /\
    fmul nb 64 = 64 * nb /\ L + 9 <= 64 * nb /\
    forall k, L + 9 <= 64 * k -> 64 * nb <= 64 * k.
Proof.
  intros HL. exists ((L + 9 + 63) / 64).
  split; [by apply numBlocks_spec|].
  split; [unfold ceil_div; f_equal; lia|].
  assert (1 <= (L + 9 + 63) / 64 <= 9) by (Z.div_mod_to_equations; lia).
  split; [rewrite fmul_small by flia; lia|].
  split; [Z.div_mod_to_equations; lia|].
  intros k Hk. Z.div_mod_to_equations. lia.
Qed.

Lemma numBlocks_is_ceil_witness :
  exists nb,
    numBlocks 56 = Some nb /\ nb = ceil_div (56 + 9) 64 /\
    fmul nb 64 = 64 * nb /\ 56 + 9 <= 64 * nb /\
    forall k, 56 + 9 <= 64 * k -> 64 * nb <= 64 * k.
Proof. apply (numBlocks_is_ceil 56). lia. Defined.

Lemma SenderBindingHasher_lengths fb fl ab al h :
  felt fl -> felt al ->
  SenderBindingHasher fb fl ab al = Some h -> fl < 256 /\ al < 256.
Proof.
  intros Hfl Hal H. unfold SenderBindingHasher in H.
  accept_step H. accept_step H.
  apply Num2Bits_Some in E as [? _]; [|done|lia].
  apply Num2Bits_Some in E0 as [? _]; [|done|lia].
  done.
Qed.

(** C10. In the privacy-preserving variant every accepted witness has
    [from_addr_len] and [subject_account_id_len] below 256, so the preimage
    length signal is the integer [from_addr_len + 1 + subject_account_id_len]
    and lies between 1 and 511: the delimiter is always part of the preimage. *)
Theorem hashed_witness_length_bounds EV (i : Inputs) (o : HashedOutputs) :
  felt (from_addr_len i) -> felt (subject_account_id_len i) ->
  MyCircuit_hashed EV i = Some o ->
  from_addr_len i < 256 /\ subject_account_id_len i < 256 /\
  fadd (fadd (from_addr_len i) 1) (subject_account_id_len i)
    = from_addr_len i + 1 + subject_account_id_len i /\
  1 <= from_addr_len i + 1 + subject_account_id_len i <= 511.
Proof.
  intros Hfl Hal H. unfold MyCircuit_hashed in H.
  do 8 accept_step H. accept_step H.
  apply SenderBindingHasher_lengths in E7 as [Hf Ha]; [|done..].
  split; [done|]. split; [done|].
  rewrite (fadd_small (from_addr_len i)) by flia. rewrite fadd_small by flia.
  unfold felt in *. lia.
Qed.

Lemma hashed_witness_length_bounds_witness :
  from_addr_len scenario < 256 /\ subject_account_id_len scenario < 256 /\
  fadd (fadd (from_addr_len scenario) 1) (subject_account_id_len scenario)
    = from_addr_len scenario + 1 + subject_account_id_len scenario /\
  1 <= from_addr_len scenario + 1 + subject_account_id_len scenario <= 511.
Proof.
  destruct scenario_accepted_hashed as [o Ho].
  apply (hashed_witness_length_bounds accept_all scenario o).
  - vm_compute. split; [discriminate|reflexivity].
  - vm_compute. split; [discriminate|reflexivity].
  - exact Ho.
Defined.

(** C3. For byte strings of at most 255 bytes the hasher block of the circuit
    returns the 32 bytes of the standard SHA-256 digest of
    [lower(fromEmail) || 0x7C || lower(accountId)], where [lower] adds 32 to
    the bytes 65..90 and leaves every other byte unchanged; so inputs that
    differ only in ASCII letter case have the same hash. *)
Theorem sender_binding_hash_is_sha256 (fromEmail accountId : list Z) :
  Forall is_byte fromEmail -> Forall is_byte accountId ->
  (length fromEmail <= 255)%nat -> (length accountId <= 255)%nat ->
  SenderBindingHasher (pad_right 255 fromEmail) (Z.of_nat (length fromEmail))
                      (pad_right 255 accountId) (Z.of_nat (length accountId))
    = Some (Sha256.sha256 (map lower fromEmail ++ [124] ++ map lower accountId)) /\
  length (Sha256.sha256 (map lower fromEmail ++ [124] ++ map lower accountId)) = 32%nat /\
  (forall b, lower b = if decide (65 <= b <= 90) then b + 32 else b) /\
  (forall fromEmail' accountId',
     Forall is_byte fromEmail' -> Forall is_byte accountId' ->
     map lower fromEmail' = map lower fromEmail ->
     map lower accountId' = map lower accountId ->
     SenderBindingHasher (pad_right 255 fromEmail') (Z.of_nat (length fromEmail'))
                         (pad_right 255 accountId') (Z.of_nat (length accountId'))
     = SenderBindingHasher (pad_right 255 fromEmail) (Z.of_nat (length fromEmail))
                           (pad_right 255 accountId) (Z.of_nat (length accountId))).
Proof.
  intros Hf Ha Hnf Hna.
  split; [by apply SenderBindingHasher_eq|].
  split; [unfold Sha256.sha256; rewrite digest_of_state_length, hash_blocks_length; done|].
  split; [done|].
  intros f' a' Hf' Ha' Ef Ea.
  assert (length f' = length fromEmail) as Hlf
    by (rewrite <- (length_map lower f'), Ef; apply length_map).
  assert (length a' = length accountId) as Hla
    by (rewrite <- (length_map lower a'), Ea; apply length_map).
  rewrite !SenderBindingHasher_eq by (done || lia).
  unfold hash, preimage. by rewrite Ef, Ea.
Qed.

Lemma sender_binding_hash_is_sha256_witness :
  let fromEmail := str "Alice@Example.com" in
  let accountId := str "Bob" in
  SenderBindingHasher (pad_right 255 fromEmail) (Z.of_nat (length fromEmail))
                      (pad_right 255 accountId) (Z.of_nat (length accountId))
    = Some (Sha256.sha256 (map lower fromEmail ++ [124] ++ map lower accountId)) /\
  length (Sha256.sha256 (map lower fromEmail ++ [124] ++ map lower accountId)) = 32%nat /\
  (forall b, lower b = if decide (65 <= b <= 90) then b + 32 else b) /\
  (forall fromEmail' accountId',
     Forall is_byte fromEmail' -> Forall is_byte accountId' ->
     map lower fromEmail' = map lower fromEmail ->
     map lower accountId' = map lower accountId ->
     SenderBindingHasher (pad_right 255 fromEmail') (Z.of_nat (length fromEmail'))
                         (pad_right 255 accountId') (Z.of_nat (length accountId'))
     = SenderBindingHasher (pad_right 255 fromEmail) (Z.of_nat (length fromEmail))
                           (pad_right 255 accountId) (Z.of_nat (length accountId))).
Proof.
  apply (sender_binding_hash_is_sha256 (str "Alice@Example.com") (str "Bob")).
  - compute_done.
  - compute_done.
  - vm_compute. lia.
  - vm_compute. lia.
Defined.

(** The determinism example of the specification:
    hash("Alice@Example.com", "Bob") = hash("alice@example.com", "BOB"). *)
Example hash_case_insensitive :
  SenderBindingHasher (pad_right 255 (str "Alice@Example.com"))
                      (Z.of_nat (length (str "Alice@Example.com")))
                      (pad_right 255 (str "Bob")) (Z.of_nat (length (str "Bob")))
  = SenderBindingHasher (pad_right 255 (str "alice@example.com"))
                        (Z.of_nat (length (str "alice@example.com")))
                        (pad_right 255 (str "BOB")) (Z.of_nat (length (str "BOB"))).
Proof.
  rewrite !SenderBindingHasher_eq by (compute_done || (vm_compute; lia)).
  apply (f_equal Some). unfold hash, preimage. apply (f_equal Sha256.sha256).
  vm_compute. reflexivity.
Qed.

End CircuitClaims.

(** * SubstringPacker: packing is invertible *)

Section PackFacts.

Import Sha256 SubstringPacker.

Lemma pow256_pos n : 0 < 256 ^ Z.of_nat n.
Proof. apply Z.pow_pos_nonneg; lia. Qed.

Lemma be_int_bound c : Forall is_byte c -> 0 <= be_int c < 256 ^ Z.of_nat (length c).
Proof.
  induction 1 as [|b c Hb Hc IH]; [simpl; lia|].
  cbn [be_int length]. rewrite Nat2Z.inj_succ, Z.pow_succ_r by lia.
  unfold is_byte in Hb. pose proof (pow256_pos (length c)). nia.
Qed.

(** The digit at place [k] ignores what lies above place [n > k]. *)
Lemma digit_high a r (n k : nat) :
  (k < n)%nat ->
  ((a * 256 ^ Z.of_nat n + r) / 256 ^ Z.of_nat k) mod 256
  = (r / 256 ^ Z.of_nat k) mod 256.
Proof.
  intros Hk. pose proof (pow256_pos k).
  replace (256 ^ Z.of_nat n)
    with (256 ^ Z.of_nat (n - k - 1) * 256 * 256 ^ Z.of_nat k).
  2:{ rewrite <- (Z.pow_1_r 256) at 2. rewrite <- !Z.pow_add_r by lia.
      f_equal. lia. }
  rewrite !Z.mul_assoc, Z.div_add_l by lia.
  rewrite Z.add_comm, Z_mod_plus_full. done.
Qed.

Lemma be_bytes_high a r : forall n,
  be_bytes n (a * 256 ^ Z.of_nat n + r) = be_bytes n r.
Proof.
  assert (forall m n, (m <= n)%nat ->
            be_bytes m (a * 256 ^ Z.of_nat n + r) = be_bytes m r) as H.
  { induction m as [|m IH]; intros n Hn; [done|].
    cbn [be_bytes]. rewrite digit_high by lia. f_equal. apply IH. lia. }
  intros n. by apply H.
Qed.

Lemma be_bytes_be_int c :
  Forall is_byte c -> be_bytes (length c) (be_int c) = c.
Proof.
  induction 1 as [|b c Hb Hc IH]; [done|].
  cbn [be_int length be_bytes].
  pose proof (be_int_bound c Hc) as Hbound. pose proof (pow256_pos (length c)).
  unfold is_byte in Hb. f_equal.
  - rewrite Z.div_add_l by lia. rewrite Z.div_small by lia.
    rewrite Z.add_0_r. apply Z.mod_small. lia.
  - rewrite be_bytes_high. exact IH.
Qed.

Lemma nth_take_drop {A} (l : list A) n s j d :
  nth j (take n (drop s l)) d = if decide (j < n)%nat then nth (s + j) l d else d.
Proof.
  rewrite nth_firstn. case_decide.
  - destruct (Nat.ltb_spec j n); [|lia]. apply nth_skipn.
  - destruct (Nat.ltb_spec j n); [lia|done].
Qed.

Lemma length_take_drop_le {A} (l : list A) n s : (length (take n (drop s l)) <= n)%nat.
Proof. rewrite length_take. lia. Qed.

(** A chunk extended with zeros is the chunk of the zero-extended string. *)
Lemma chunk_pad_right bs i :
  (length bs <= 279)%nat -> (i < 9)%nat ->
  pad_right 31 (take 31 (drop (i * 31) bs))
  = take 31 (drop (i * 31) (pad_right 279 bs)).
Proof.
  intros Hl Hi. apply (nth_ext _ _ 0 0).
  - rewrite length_pad_right by apply length_take_drop_le.
    rewrite length_take, length_drop, length_pad_right by done. lia.
  - intros j Hj. rewrite length_pad_right in Hj by apply length_take_drop_le.
    rewrite nth_pad_right, !nth_take_drop, nth_pad_right. done.
Qed.

Lemma concat_chunks {A} n : forall k (l : list A),
  length l = (k * n)%nat ->
  concat (map (fun i => take n (drop (i * n) l)) (seq 0 k)) = l.
Proof.
  induction k as [|k IH]; intros l Hl.
  - by destruct l.
  - cbn [seq map concat]. rewrite <- seq_shift, map_map.
    transitivity (take n l ++ drop n l); [|apply take_drop].
    change (0 * n)%nat with 0%nat. rewrite drop_0. apply (f_equal (app (take n l))).
    etrans; [|apply (IH (drop n l)); rewrite length_drop; lia].
    apply (f_equal (@concat A)), map_ext. intros i. rewrite drop_drop.
    apply (f_equal (take n)), (f_equal (fun j => drop j l)). lia.
Qed.

Lemma pad_right_is_byte' k l : Forall is_byte l -> Forall is_byte (pad_right k l).
Proof.
  intros H. unfold pad_right. apply Forall_app. split; [done|].
  apply Forall_replicate. unfold is_byte. lia.
Qed.

Lemma Forall_take_drop {A} (P : A -> Prop) l n s :
  Forall P l -> Forall P (take n (drop s l)).
Proof. intros H. by apply Forall_take, Forall_drop. Qed.

(** Unpacking the nine elements gives back the string, zero-extended. *)
Lemma unpack_PackBytes bs :
  Forall is_byte bs -> (length bs <= 255)%nat ->
  concat (map (be_bytes pack_size) (PackBytes bs)) = pad_right 279 bs.
Proof.
  intros Hb Hl. unfold PackBytes, pack_size, maxInts. rewrite map_map.
  rewrite <- (concat_chunks 31 9 (pad_right 279 bs))
    by (rewrite length_pad_right; lia).
  f_equal. apply map_ext_in. intros i Hi. apply in_seq in Hi.
  rewrite chunk_pad_right by lia.
  assert (length (take 31 (drop (i * 31) (pad_right 279 bs))) = 31%nat) as Hlen.
  { rewrite length_take, length_drop, length_pad_right by lia. lia. }
  rewrite <- Hlen at 1. apply be_bytes_be_int.
  by apply Forall_take_drop, pad_right_is_byte'.
Qed.

Lemma take_pad_right k (l : list Z) : take (length l) (pad_right k l) = l.
Proof. unfold pad_right. by rewrite take_app_length. Qed.

Lemma length_PackBytes bs : length (PackBytes bs) = 9%nat.
Proof. unfold PackBytes. by rewrite length_map, length_seq. Qed.

Lemma nth_PackBytes bs i :
  (i < 9)%nat ->
  nth i (PackBytes bs) 0 = be_int (pad_right 31 (take 31 (drop (i * 31) bs))).
Proof.
  intros Hi. unfold PackBytes.
  apply (nth_tabulate 9
    (fun i => be_int (pad_right 31 (take 31 (drop (i * 31) bs)))) i 0 Hi).
Qed.

Lemma be_int_zeros k : be_int (replicate k 0) = 0.
Proof. induction k as [|k IH]; [done|]. cbn [replicate be_int]. rewrite IH. lia. Qed.

End PackFacts.

Section PackClaims.

Import Sha256 SubstringPacker.

(** Unpacking what [pack] returns, cut at the length, gives the substring. *)
Lemma unpack_pack (buffer : list Z) (start len : nat) :
  Forall is_byte buffer -> (len <= 255)%nat -> (start + len <= length buffer)%nat ->
  exists v, pack buffer start len = Some v /\
            unpack v len = take len (drop start buffer).
Proof.
  intros Hb Hl Hs. set (sub := take len (drop start buffer)).
  assert (length sub = len) as Hsub
    by (unfold sub; rewrite length_take, length_drop; lia).
  assert (Forall is_byte sub) as Hbs by (by apply Forall_take_drop).
  exists (PackBytes sub). unfold pack, maxLen. rewrite decide_True by done.
  split; [done|]. unfold unpack. rewrite unpack_PackBytes by (done || lia).
  rewrite <- Hsub at 1. apply take_pad_right.
Qed.

(** C4. For a substring of at most 255 bytes, [pack] returns nine elements,
    element [i] being the big-endian integer of the bytes
    [i*31, min((i+1)*31, length)) extended with zeros on the right, and 0
    when [i*31 >= length]; unpacking and truncating at the length gives the
    substring back. *)
Theorem pack_unpack_roundtrip (buffer : list Z) (start len : nat) :
  Forall is_byte buffer -> (len <= 255)%nat -> (start + len <= length buffer)%nat ->
  exists v,
    pack buffer start len = Some v /\ length v = 9%nat /\
    unpack v len = take len (drop start buffer) /\
    (forall i, (i < 9)%nat ->
       nth i v 0 = be_int (pad_right 31
                     (take 31 (drop (i * 31) (take len (drop start buffer)))))) /\
    (forall i, (i < 9)%nat -> (len <= i * 31)%nat -> nth i v 0 = 0).
Proof.
  intros Hb Hl Hs. set (sub := take len (drop start buffer)).
  assert (length sub = len) as Hsub
    by (unfold sub; rewrite length_take, length_drop; lia).
  assert (Forall is_byte sub) as Hbs by (by apply Forall_take_drop).
  exists (PackBytes sub). unfold pack, maxLen. rewrite decide_True by done.
  split; [done|]. split; [apply length_PackBytes|].
  split; [|split].
  - unfold unpack. rewrite unpack_PackBytes by (done || lia).
    rewrite <- Hsub at 1. apply take_pad_right.
  - intros i Hi. by apply nth_PackBytes.
  - intros i Hi Hz. rewrite nth_PackBytes by done.
    rewrite drop_ge by lia. by destruct (be_int_zeros 31).
Qed.

Lemma pack_unpack_roundtrip_witness :
  exists v,
    pack (Examples.str "subject:recover-req42 alice.near") 22 10 = Some v /\
    length v = 9%nat /\
    unpack v 10 = take 10 (drop 22 (Examples.str "subject:recover-req42 alice.near")) /\
    (forall i, (i < 9)%nat ->
       nth i v 0 = be_int (pad_right 31
         (take 31 (drop (i * 31)
            (take 10 (drop 22 (Examples.str "subject:recover-req42 alice.near"))))))) /\
    (forall i, (i < 9)%nat -> (10 <= i * 31)%nat -> nth i v 0 = 0).
Proof.
  apply (pack_unpack_roundtrip (Examples.str "subject:recover-req42 alice.near") 22 10).
  - compute_done.
  - lia.
  - vm_compute. lia.
Defined.

(** A length above 255 is out of range. *)
Lemma pack_out_of_range buffer start len :
  (255 < len)%nat -> pack buffer start len = None.
Proof. intros H. unfold pack, maxLen. by rewrite decide_False by lia. Qed.

(** Strings of one length with the same packing are equal. *)
Lemma pack_str_inj s s' v :
  Forall is_byte s -> Forall is_byte s' -> length s = length s' ->
  Contract.pack_str s = Some v -> Contract.pack_str s' = Some v -> s = s'.
Proof.
  intros Hs Hs' Hlen H H'. unfold Contract.pack_str in *.
  assert (length s <= 255)%nat as Hl.
  { unfold pack, maxLen in H. by case_decide. }
  destruct (unpack_pack s 0 (length s) Hs Hl ltac:(lia)) as (w & Hw & Hu).
  destruct (unpack_pack s' 0 (length s') Hs' ltac:(lia) ltac:(lia))
    as (w' & Hw' & Hu').
  rewrite H in Hw. rewrite H' in Hw'. injection Hw as <-. injection Hw' as <-.
  rewrite drop_0, firstn_all in Hu, Hu'. rewrite <- Hu, <- Hu', Hlen. done.
Qed.

End PackClaims.

(** * The verifier contract *)

Section ContractClaims.

Import Contract SubstringPacker.

Variables Proof PreparedVerifyingKey ParseError SynthesisError : Type.
Variable parse_proof : ProofInput -> Result Proof ParseError.
Variable parse_public_inputs : list string -> Result (list Z) ParseError.
Variable verify_proof :
  PreparedVerifyingKey -> Proof -> list Z -> Result bool SynthesisError.
Variable pvk : PreparedVerifyingKey.

Local Abbreviation verify :=
  (verify _ _ _ _ parse_proof parse_public_inputs verify_proof pvk).
Local Abbreviation verify_with_binding :=
  (verify_with_binding _ _ _ _ parse_proof parse_public_inputs verify_proof pvk).

(** C7. [verify] always returns a boolean: [false] when the proof or the
    public inputs fail to parse, and otherwise the result of the proof check
    on the prepared key, the parsed proof and the parsed inputs, read as
    [false] when the library reports an error instead of a boolean. *)
Theorem verify_parse_failure_is_false (proof : ProofInput) (public_inputs : list string) :
  ((exists e, parse_proof proof = Err e) -> verify proof public_inputs = false) /\
  ((exists e, parse_public_inputs public_inputs = Err e) ->
     verify proof public_inputs = false) /\
  (forall p v,
     parse_proof proof = Ok p -> parse_public_inputs public_inputs = Ok v ->
     verify proof public_inputs = unwrap_or (verify_proof pvk p v) false /\
     (forall b, verify_proof pvk p v = Ok b -> verify proof public_inputs = b) /\
     (forall e, verify_proof pvk p v = Err e -> verify proof public_inputs = false)).
Proof.
  unfold Contract.verify. split; [|split].
  - intros [e ->]. done.
  - intros [e ->]. by destruct (parse_proof proof).
  - intros p v -> ->. split; [done|]. split; intros ? ->; done.
Qed.

Lemma bindings_match_iff layout inputs c :
  bindings_match layout inputs c = true <-> bindings_hold layout inputs c.
Proof.
  unfold bindings_match, bindings_hold.
  destruct (pack_str (accountId c)) as [a|]; [|intuition congruence].
  destruct (pack_str (newPublicKey c)) as [k|]; [|intuition congruence].
  destruct (pack_str (timestamp c)) as [t|]; [|destruct layout; intuition congruence].
  destruct layout.
  - destruct (pack_str (fromEmail c)) as [f|].
    + rewrite !andb_true_iff, !bool_decide_eq_true. intuition congruence.
    + rewrite andb_false_r. intuition congruence.
  - destruct (hash_str (fromEmail c) (accountId c)) as [h|].
    + rewrite !andb_true_iff, !bool_decide_eq_true. intuition congruence.
    + rewrite andb_false_r. intuition congruence.
Qed.

Lemma verify_with_binding_iff layout proof public_inputs c :
  verify_with_binding layout proof public_inputs c = true <->
  verify proof public_inputs = true /\
  exists inputs, parse_public_inputs public_inputs = Ok inputs /\
                 bindings_hold layout inputs c.
Proof.
  unfold Contract.verify_with_binding. rewrite andb_true_iff.
  destruct (parse_public_inputs public_inputs) as [inputs|e].
  - rewrite bindings_match_iff. split.
    + intros [Hv Hb]. split; [done|]. by exists inputs.
    + intros [Hv (inputs' & [= <-] & Hb)]. done.
  - split; [intros [_ ?]; done|]. intros [_ (inputs & ? & _)]. done.
Qed.

Lemma one_byte_changed_length s s' : one_byte_changed s s' -> length s' = length s.
Proof. intros (i & b & _ & _ & _ & ->). apply length_insert. Qed.

Lemma one_byte_changed_ne s s' : one_byte_changed s s' -> s' <> s.
Proof.
  intros (i & b & Hi & _ & Hne & ->) Heq. apply Hne.
  rewrite <- Heq at 1. rewrite nth_lookup, list_lookup_insert_eq by done. done.
Qed.

Lemma one_byte_changed_bytes s s' :
  Forall is_byte s -> one_byte_changed s s' -> Forall is_byte s'.
Proof. intros Hs (i & b & _ & Hb & _ & ->). by apply Forall_insert. Qed.

(** A packed slot cannot match both a string and the string with one byte
    changed. *)
Lemma pack_str_changed s s' v :
  Forall is_byte s -> one_byte_changed s s' ->
  pack_str s = Some v -> pack_str s' <> Some v.
Proof.
  intros Hs Hc H H'. apply (one_byte_changed_ne s s' Hc). symmetry.
  eapply pack_str_inj; eauto using one_byte_changed_bytes.
  symmetry. by apply one_byte_changed_length.
Qed.

Lemma hash_str_case from from' account :
  map SenderBindingSpec.lower from' = map SenderBindingSpec.lower from ->
  hash_str from' account = hash_str from account.
Proof.
  intros E. unfold hash_str, SenderBindingSpec.hash, SenderBindingSpec.preimage.
  assert (length from' = length from) as ->
    by (rewrite <- (length_map SenderBindingSpec.lower from'), E; apply length_map).
  by rewrite E.
Qed.

(** C2, amended. [verify_with_binding] returns true exactly when the base
    check passes and every recomputed value (the packed account id, public
    key and timestamp, and the packed From address or, in the hashed layout,
    the sender hash) equals its slot of the public inputs. From a true
    result, changing one byte of the account id, of the public key, of the
    timestamp, or of the From address in the plaintext layout makes the
    result false; in the hashed layout a changed From address makes it false
    when the sender hash changes, and a From address that differs only in
    ASCII letter case leaves the result as it was. *)
Theorem verify_with_binding_binds (layout : Layout) (proof : ProofInput)
    (public_inputs : list string) (c : BindingClaim) :
  (verify_with_binding layout proof public_inputs c = true <->
   verify proof public_inputs = true /\
   exists inputs, parse_public_inputs public_inputs = Ok inputs /\
                  bindings_hold layout inputs c) /\
  (forall c',
     claim_bytes c -> one_field_changed c c' ->
     verify_with_binding layout proof public_inputs c = true ->
     (layout = Hashed -> fromEmail c' <> fromEmail c ->
      SenderBindingSpec.hash (fromEmail c') (accountId c')
        <> SenderBindingSpec.hash (fromEmail c) (accountId c)) ->
     verify_with_binding layout proof public_inputs c' = false) /\
  (forall c',
     layout = Hashed ->
     accountId c' = accountId c -> newPublicKey c' = newPublicKey c ->
     timestamp c' = timestamp c ->
     map SenderBindingSpec.lower (fromEmail c')
       = map SenderBindingSpec.lower (fromEmail c) ->
     verify_with_binding layout proof public_inputs c'
       = verify_with_binding layout proof public_inputs c).
Proof.
  split; [apply verify_with_binding_iff|]. split.
  - intros c' (Ha & Hk & Hf & Ht) Hchg Htrue Hhash.
    destruct (Contract.verify_with_binding _ _ _ _ _ _ _ _ layout proof public_inputs c')
      eqn:Htrue'; [exfalso|done].
    apply verify_with_binding_iff in Htrue as (_ & inputs & Hp & Hb).
    apply verify_with_binding_iff in Htrue' as (_ & inputs' & Hp' & Hb').
    rewrite Hp in Hp'. injection Hp' as <-.
    destruct Hb as (Hba & Hbk & Hbl). destruct Hb' as (Hba' & Hbk' & Hbl').
    destruct Hchg as [Hc Ek Ef Et|Hc Ea Ef Et|Hc Ea Ek Et|Hc Ea Ek Ef].
    + by apply (pack_str_changed _ _ _ Ha Hc Hba).
    + by apply (pack_str_changed _ _ _ Hk Hc Hbk).
    + destruct layout.
      * destruct Hbl as [Hbf _]. destruct Hbl' as [Hbf' _].
        by apply (pack_str_changed _ _ _ Hf Hc Hbf).
      * destruct Hbl as [Hbf _]. destruct Hbl' as [Hbf' _].
        apply (Hhash eq_refl (one_byte_changed_ne _ _ Hc)).
        unfold hash_str in Hbf, Hbf'. repeat case_decide; try done. congruence.
    + destruct layout.
      * destruct Hbl as [_ Hbt]. destruct Hbl' as [_ Hbt'].
        by apply (pack_str_changed _ _ _ Ht Hc Hbt).
      * destruct Hbl as [_ Hbt]. destruct Hbl' as [_ Hbt'].
        by apply (pack_str_changed _ _ _ Ht Hc Hbt).
  - intros c' -> Ea Ek Et Ef. unfold Contract.verify_with_binding.
    apply (f_equal (andb _)).
    destruct (parse_public_inputs public_inputs) as [inputs|]; [|done].
    unfold bindings_match. rewrite Ea, Ek, Et.
    by rewrite (hash_str_case (fromEmail c) (fromEmail c') (accountId c) Ef).
Qed.

End ContractClaims.

Section ContractSamples.

Import Contract SubstringPacker.

Local Abbreviation sample_vwb :=
  (verify_with_binding _ _ _ _ sample_parse_proof parse_all sample_verify_proof tt).

Lemma sample_one_field_changed : one_field_changed sample_claim sample_claim_lowercase.
Proof.
  apply change_fromEmail; try reflexivity.
  exists 0%nat, 97. split; [vm_compute; lia|]. split; [compute_done|].
  split; [by vm_compute|reflexivity].
Qed.

(** C2, as stated, fails in the hashed layout: lowering the first letter of
    the claimed From address changes one character of the claim, and the
    result is true before and after the change. *)
Lemma binding_case_change_keeps_true :
  one_field_changed sample_claim sample_claim_lowercase /\
  sample_vwb Hashed sample_proof
    (hashed_public_inputs (str "req42") sample_claim) sample_claim = true /\
  sample_vwb Hashed sample_proof
    (hashed_public_inputs (str "req42") sample_claim) sample_claim_lowercase = true.
Proof.
  split; [exact sample_one_field_changed|].
  split; vm_compute; reflexivity.
Qed.

Lemma verify_with_binding_binds_witness :
  (sample_vwb Hashed sample_proof
     (hashed_public_inputs (str "req42") sample_claim) sample_claim = true <->
   verify _ _ _ _ sample_parse_proof parse_all sample_verify_proof tt sample_proof
     (hashed_public_inputs (str "req42") sample_claim) = true /\
   exists inputs,
     parse_all (hashed_public_inputs (str "req42") sample_claim) = Ok inputs /\
     bindings_hold Hashed inputs sample_claim) /\
  (forall c',
     claim_bytes sample_claim -> one_field_changed sample_claim c' ->
     sample_vwb Hashed sample_proof
       (hashed_public_inputs (str "req42") sample_claim) sample_claim = true ->
     (Hashed = Hashed -> fromEmail c' <> fromEmail sample_claim ->
      SenderBindingSpec.hash (fromEmail c') (accountId c')
        <> SenderBindingSpec.hash (fromEmail sample_claim) (accountId sample_claim)) ->
     sample_vwb Hashed sample_proof
       (hashed_public_inputs (str "req42") sample_claim) c' = false) /\
  (forall c',
     Hashed = Hashed ->
     accountId c' = accountId sample_claim ->
     newPublicKey c' = newPublicKey sample_claim ->
     timestamp c' = timestamp sample_claim ->
     map SenderBindingSpec.lower (fromEmail c')
       = map SenderBindingSpec.lower (fromEmail sample_claim) ->
     sample_vwb Hashed sample_proof
       (hashed_public_inputs (str "req42") sample_claim) c'
     = sample_vwb Hashed sample_proof
         (hashed_public_inputs (str "req42") sample_claim) sample_claim).
Proof.
  apply (verify_with_binding_binds _ _ _ _ sample_parse_proof parse_all
           sample_verify_proof tt Hashed sample_proof
           (hashed_public_inputs (str "req42") sample_claim) sample_claim).
Defined.

Lemma verify_parse_failure_is_false_witness :
  verify _ _ _ _ sample_parse_proof parse_all sample_verify_proof tt
    sample_proof ["12"; "x"]%string = false.
Proof.
  apply (verify_parse_failure_is_false _ _ _ _ sample_parse_proof parse_all
           sample_verify_proof tt sample_proof ["12"; "x"]%string).
  exists (). reflexivity.
Defined.

End ContractSamples.

(** * The layout check of a zkey file *)

Section ZkeyFacts.

Import SnarkjsUtils.

Lemma le_int_bound bs :
  Forall is_byte bs -> 0 <= le_int bs < 256 ^ Z.of_nat (length bs).
Proof.
  induction 1 as [|b bs Hb Hbs IH]; [simpl; lia|].
  cbn [le_int length]. rewrite Nat2Z.inj_succ, Z.pow_succ_r by lia.
  unfold is_byte in Hb. lia.
Qed.

Lemma le_bytes_le_int bs :
  Forall is_byte bs -> le_bytes (length bs) (le_int bs) = bs.
Proof.
  induction 1 as [|b bs Hb Hbs IH]; [done|].
  cbn [le_int length le_bytes]. unfold is_byte in Hb.
  replace ((b + 256 * le_int bs) mod 256) with b by (Z.div_mod_to_equations; lia).
  replace ((b + 256 * le_int bs) / 256) with (le_int bs)
    by (Z.div_mod_to_equations; lia).
  by rewrite IH.
Qed.

Lemma le_int_le_bytes n : forall x,
  0 <= x < 256 ^ Z.of_nat n -> le_int (le_bytes n x) = x.
Proof.
  induction n as [|n IH]; intros x Hx.
  - simpl in *. lia.
  - cbn [le_bytes le_int]. rewrite Nat2Z.inj_succ, Z.pow_succ_r in Hx by lia.
    rewrite IH by (Z.div_mod_to_equations; lia).
    Z.div_mod_to_equations. lia.
Qed.

Lemma length_le_bytes n x : length (le_bytes n x) = n.
Proof. revert x. induction n as [|n IH]; intros x; simpl; [done|]. by rewrite IH. Qed.

Lemma le_bytes_is_byte n : forall x, Forall is_byte (le_bytes n x).
Proof.
  induction n as [|n IH]; intros x; simpl; [done|].
  apply Forall_cons. split; [|done]. unfold is_byte. apply Z.mod_pos_bound. lia.
Qed.

Lemma length_encode_section s :
  Z.of_nat (length (encode_section s)) = 12 + Z.of_nat (length (sec_payload s)).
Proof. unfold encode_section. rewrite !length_app, !length_le_bytes. lia. Qed.

Lemma take_is_byte n (l : list Z) : Forall is_byte l -> Forall is_byte (take n l).
Proof. apply Forall_take. Qed.

Lemma drop_is_byte n (l : list Z) : Forall is_byte l -> Forall is_byte (drop n l).
Proof. apply Forall_drop. Qed.

(** The three fields of a section that starts a buffer [D]. *)
Lemma read_section_header (D : list Z) :
  readUInt32LE (take 12 D) 0 = le_int (take 4 D) /\
  readBigUInt64LE (take 12 D) 4 = le_int (take 8 (drop 4 D)).
Proof.
  unfold readUInt32LE, readBigUInt64LE. split.
  - by rewrite drop_0, take_take.
  - by rewrite (take_drop_commute (take 12 D)), take_take, (take_drop_commute D).
Qed.

Lemma split_section (D : list Z) (sz : nat) :
  D = take 4 D ++ take 8 (drop 4 D) ++ take sz (drop 12 D) ++ drop (12 + sz) D.
Proof.
  rewrite <- (take_drop 4 D) at 1. f_equal.
  rewrite <- (take_drop 8 (drop 4 D)) at 1. f_equal.
  rewrite drop_drop. change (4 + 8)%nat with 12%nat.
  rewrite <- (take_drop sz (drop 12 D)) at 1. f_equal.
  by rewrite drop_drop.
Qed.

Lemma section_at_spec file k :
  Forall is_byte file ->
  let s := section_at file k in
  let sz := le_int (take 8 (drop 4 (drop k file))) in
  Z.of_nat k + 12 + sz <= Z.of_nat (length file) ->
  0 <= sz /\ section_fits s /\
  Z.of_nat (length (sec_payload s)) = sz /\
  drop k file = encode_section s ++ drop (k + (12 + Z.to_nat sz)) file.
Proof.
  intros Hb s sz Hle.
  assert (Hsz : 0 <= sz < 256 ^ Z.of_nat (length (take 8 (drop 4 (drop k file))))).
  { apply le_int_bound. by apply take_is_byte, drop_is_byte, drop_is_byte. }
  assert (Ht : 0 <= sec_type s < 256 ^ Z.of_nat (length (take 4 (drop k file)))).
  { apply le_int_bound. by apply take_is_byte, drop_is_byte. }
  rewrite length_take, !length_drop in Hsz.
  rewrite length_take, !length_drop in Ht.
  assert (Hlen : length (sec_payload s) = Z.to_nat sz).
  { unfold s, section_at. cbn [sec_payload]. fold sz.
    rewrite length_take, !length_drop. lia. }
  replace (8 `min` (length file - k - 4))%nat with 8%nat in Hsz by lia.
  replace (4 `min` (length file - k))%nat with 4%nat in Ht by lia.
  split; [lia|]. split; [|split].
  - split; [change (2 ^ 32) with (256 ^ Z.of_nat 4); lia|].
    rewrite Hlen. change (2 ^ 64) with (256 ^ Z.of_nat 8). lia.
  - lia.
  - unfold encode_section. rewrite Hlen.
    unfold s, section_at. cbn [sec_type sec_payload]. fold sz.
    rewrite Z2Nat.id by lia.
    pose proof (le_bytes_le_int (take 4 (drop k file))) as A1.
    pose proof (le_bytes_le_int (take 8 (drop 4 (drop k file)))) as A2.
    replace (length (take 4 (drop k file))) with 4%nat in A1
      by (rewrite length_take, length_drop; lia).
    replace (length (take 8 (drop 4 (drop k file)))) with 8%nat in A2
      by (rewrite length_take, !length_drop; lia).
    fold sz in A2.
    rewrite A1, A2 by (by repeat first [apply take_is_byte | apply drop_is_byte]).
    rewrite <- !app_assoc.
    rewrite (split_section (drop k file) (Z.to_nat sz)) at 1.
    do 3 f_equal. by rewrite drop_drop.
Qed.

(** What a run of the loop that reaches its end has read: [n] sections back
    to back from offset [k], none of a type seen before or twice. *)
Lemma section_loop_sound file n : forall i seen k seen' pos',
  Forall is_byte file -> (k <= length file)%nat ->
  section_loop file (Z.of_nat (length file)) n i seen (Z.of_nat k)
    = inr (seen', pos') ->
  exists secs k',
    pos' = Z.of_nat k' /\ (k' <= length file)%nat /\
    length secs = n /\ Forall section_fits secs /\
    drop k file = concat (map encode_section secs) ++ drop k' file /\
    NoDup (map sec_type secs) /\
    (forall t, In t (map sec_type secs) -> t ∉ seen) /\
    (forall t, t ∈ seen' <-> t ∈ seen \/ In t (map sec_type secs)).
Proof.
  induction n as [|n IH]; intros i seen k seen' pos' Hb Hk H.
  - cbn in H. inversion H; subst. exists [], k.
    do 5 (split; [done|]). split; [apply NoDup_nil_2|].
    split; [by intros t []|]. intros t. cbn. tauto.
  - cbn [section_loop] in H.
    destruct (decide (_ > _)) as [|Hge]; [done|].
    unfold readSync in H. rewrite Nat2Z.id in H. cbv zeta in H.
    destruct (read_section_header (drop k file)) as [E1 E2].
    rewrite E1, E2 in H. clear E1 E2.
    destruct (decide (_ ∈ seen)) as [|Hnew]; [done|].
    destruct (decide (_ > _)) as [|Hfit]; [done|].
    destruct (section_at_spec file k Hb) as (Hsz & Hf & Hlen & Hsplit); [lia|].
    set (s := section_at file k) in *.
    set (sz := le_int (take 8 (drop 4 (drop k file)))) in *.
    replace (Z.of_nat k + (12 + sz)) with (Z.of_nat (k + (12 + Z.to_nat sz))) in H
      by lia.
    apply IH in H; [|done|lia].
    destruct H as (secs & k' & -> & Hk' & Hn & Hfits & Hdrop & Hnd & Hns & Hs').
    exists (s :: secs), k'. split; [done|]. split; [done|].
    split; [by cbn; rewrite Hn|]. split; [by apply Forall_cons|].
    split; [|split; [|split]].
    + cbn [map concat]. rewrite <- app_assoc, <- Hdrop. exact Hsplit.
    + cbn [map]. apply NoDup_cons_2; [|done].
      intros Hin%list_elem_of_In. apply Hns in Hin.
      by apply Hin, elem_of_union_l, elem_of_singleton.
    + intros t [<-|Hin]; [done|]. apply Hns in Hin.
      intros Hel. by apply Hin, elem_of_union_r.
    + intros t. rewrite Hs', elem_of_union, elem_of_singleton. cbn [map In].
      change (sec_type s) with (le_int (take 4 (drop k file))).
      intuition (subst; tauto).
Qed.

(** Sections laid back to back from offset [k] are read to their end. *)
Lemma section_loop_complete file secs : forall i seen k rest,
  Forall section_fits secs ->
  drop k file = concat (map encode_section secs) ++ rest ->
  (k <= length file)%nat ->
  NoDup (map sec_type secs) ->
  (forall t, In t (map sec_type secs) -> t ∉ seen) ->
  exists seen',
    section_loop file (Z.of_nat (length file)) (length secs) i seen (Z.of_nat k)
      = inr (seen', Z.of_nat (length file - length rest)) /\
    (forall t, t ∈ seen' <-> t ∈ seen \/ In t (map sec_type secs)).
Proof.
  induction secs as [|s secs IH]; intros i seen k rest Hfits Hdrop Hk Hnd Hns.
  - exists seen. cbn in *. split; [|intuition].
    do 2 f_equal. rewrite <- Hdrop, length_drop. lia.
  - cbn [map concat] in Hdrop. rewrite <- app_assoc in Hdrop.
    apply Forall_cons in Hfits as [[Ht Hp] Hfits].
    cbn [map] in Hnd. apply NoDup_cons in Hnd as [Hnotin Hnd].
    pose proof (f_equal length Hdrop) as Hlen.
    rewrite length_drop, length_app in Hlen.
    pose proof (length_encode_section s) as Hes.
    assert (E4 : take 4 (drop k file) = le_bytes 4 (sec_type s)).
    { rewrite Hdrop. unfold encode_section. rewrite <- app_assoc.
      by rewrite take_app_length' by (by rewrite length_le_bytes). }
    assert (E8 : take 8 (drop 4 (drop k file))
                 = le_bytes 8 (Z.of_nat (length (sec_payload s)))).
    { rewrite Hdrop. unfold encode_section. rewrite <- !app_assoc.
      rewrite drop_app_length' by (by rewrite length_le_bytes).
      by rewrite take_app_length' by (by rewrite length_le_bytes). }
    cbn [length section_loop].
    rewrite decide_False by lia.
    unfold readSync. rewrite Nat2Z.id. cbv zeta.
    destruct (read_section_header (drop k file)) as [E1 E2].
    rewrite E1, E2, E4, E8. clear E1 E2.
    rewrite !le_int_le_bytes
      by (first [change (256 ^ Z.of_nat 4) with (2 ^ 32)
                |change (256 ^ Z.of_nat 8) with (2 ^ 64)]; lia).
    rewrite decide_False by (apply Hns; by left).
    rewrite decide_False by lia.
    replace (Z.of_nat k + (12 + Z.of_nat (length (sec_payload s))))
      with (Z.of_nat (k + length (encode_section s))) by lia.
    destruct (IH (i + 1) ({[sec_type s]} ∪ seen) (k + length (encode_section s))%nat
                rest Hfits) as (seen' & Hrun & Hs'); [|lia|done| |].
    + rewrite <- drop_drop, Hdrop. by rewrite drop_app_length.
    + intros t Hin Hel. apply elem_of_union in Hel as [Hel|Hel].
      * apply elem_of_singleton in Hel as ->. by apply Hnotin, list_elem_of_In.
      * apply (Hns t); [by right|done].
    + exists seen'. split; [done|].
      intros t. rewrite Hs', elem_of_union, elem_of_singleton. cbn [map In].
      intuition (subst; tauto).
Qed.

(** The fields of the file header. *)
Lemma read_file_header (file : list Z) :
  take 4 (readSync file 12 0) = take 4 file /\
  readUInt32LE (readSync file 12 0) 4 = le_int (take 4 (drop 4 file)) /\
  readUInt32LE (readSync file 12 0) 8 = le_int (take 4 (drop 8 file)).
Proof.
  unfold readSync, readUInt32LE. change (Z.to_nat 0) with 0%nat. rewrite drop_0.
  split; [by rewrite take_take|]. split.
  - by rewrite (take_drop_commute (take 12 file)), take_take,
      (take_drop_commute file).
  - by rewrite (take_drop_commute (take 12 file)), take_take,
      (take_drop_commute file).
Qed.

Lemma split_file_header (file : list Z) :
  file = take 4 file ++ take 4 (drop 4 file) ++ take 4 (drop 8 file)
         ++ drop 12 file.
Proof.
  rewrite <- (take_drop 4 file) at 1. f_equal.
  rewrite <- (take_drop 4 (drop 4 file)) at 1. f_equal.
  rewrite drop_drop. change (4 + 4)%nat with 8%nat.
  rewrite <- (take_drop 4 (drop 8 file)) at 1. f_equal.
  by rewrite drop_drop.
Qed.

Lemma find_missing_None (seen : gset Z) :
  find (fun section => bool_decide (section ∉ seen)) REQUIRED_SECTIONS = None
  <-> forall t, In t REQUIRED_SECTIONS -> t ∈ seen.
Proof.
  split.
  - intros H t Hin. eapply find_none in H; [|exact Hin].
    apply bool_decide_eq_false in H. by apply dec_stable.
  - intros H. destruct (find _ _) as [t|] eqn:E; [|done].
    apply find_some in E as [Hin Hb]. apply bool_decide_eq_true in Hb.
    by apply H in Hin.
Qed.

(** The check on a file of at least twelve bytes, its header fields read
    from the file itself. *)
Lemma checkGroth16ZkeyLayout_unfold file :
  (12 <= length file)%nat ->
  checkGroth16ZkeyLayout file =
    if decide (take 4 file <> zkey_magic) then ok_false (BadMagic (take 4 file))
    else if decide (le_int (take 4 (drop 4 file)) <> 1)
    then ok_false (UnsupportedVersion (le_int (take 4 (drop 4 file))))
    else if decide (le_int (take 4 (drop 8 file)) <> 10)
    then ok_false (UnexpectedNSections (le_int (take 4 (drop 8 file))))
    else
      match section_loop file (Z.of_nat (length file)) 10 0 ∅ (Z.of_nat 12) with
      | inl reason => ok_false reason
      | inr (seen, pos) =>
          if decide (pos <> Z.of_nat (length file))
          then ok_false (TrailingBytes pos (Z.of_nat (length file)))
          else
            match find (fun section => bool_decide (section ∉ seen))
                    REQUIRED_SECTIONS with
            | Some section => ok_false (MissingSection section)
            | None => ok_true
            end
      end.
Proof.
  intros Hlen. unfold checkGroth16ZkeyLayout. cbv zeta.
  destruct (read_file_header file) as (E1 & E2 & E3). rewrite E1, E2, E3.
  rewrite decide_False by lia.
  destruct (decide (take 4 file <> _)); [done|].
  destruct (decide (_ <> 1)); [done|].
  destruct (decide (_ <> 10)) as [|E%dec_stable]; [done|].
  by rewrite E.
Qed.

(** *** The reasons *)

Lemma sections_read_rest file secs pos :
  sections_read file secs pos -> (12 <= length file)%nat ->
  12 <= pos <= Z.of_nat (length file) /\
  exists rest,
    drop 12 file = concat (map encode_section secs) ++ rest /\
    drop (Z.to_nat pos) file = rest /\
    pos = Z.of_nat (length file) - Z.of_nat (length rest).
Proof.
  intros (_ & _ & rest & Hd & ->) Hlen.
  pose proof (f_equal length Hd) as Hl. rewrite length_drop, length_app in Hl.
  split; [lia|]. exists rest. split; [done|]. split; [|done].
  replace (Z.to_nat (Z.of_nat (length file) - Z.of_nat (length rest)))
    with (12 + length (concat (map encode_section secs)))%nat by lia.
  by rewrite <- drop_drop, Hd, drop_app_length.
Qed.

Lemma sections_read_nil file :
  (12 <= length file)%nat -> sections_read file [] 12.
Proof.
  intros Hlen. split; [done|]. split; [apply NoDup_nil_2|].
  exists (drop 12 file). split; [done|]. rewrite length_drop. lia.
Qed.

(** One more section read after the sections [secs]. *)
Lemma sections_read_snoc file secs pos :
  Forall is_byte file -> (12 <= length file)%nat ->
  sections_read file secs pos ->
  ~ In (type_at file pos) (map sec_type secs) ->
  pos + (12 + size_at file pos) <= Z.of_nat (length file) ->
  sections_read file (secs ++ [section_at file (Z.to_nat pos)])
    (pos + (12 + size_at file pos)).
Proof.
  intros Hb Hlen Hread Hnew Hfit.
  destruct (sections_read_rest _ _ _ Hread Hlen) as (Hpos & rest & Hd & Hrest & Hp).
  destruct Hread as (Hfits & Hnd & _).
  destruct (section_at_spec file (Z.to_nat pos) Hb) as (Hsz & Hf & Hl & Hsplit).
  { fold (size_at file pos). lia. }
  fold (size_at file pos) in Hsz, Hl, Hsplit.
  split; [|split].
  - apply Forall_app. split; [done|]. by apply Forall_singleton.
  - rewrite map_app. apply NoDup_app. split; [done|]. split.
    + intros t Ht Hin%list_elem_of_In. cbn [map In section_at sec_type] in Hin.
      destruct Hin as [<-|[]]. by apply Hnew, list_elem_of_In.
    + apply NoDup_singleton.
  - exists (drop (Z.to_nat pos + (12 + Z.to_nat (size_at file pos))) file).
    split.
    + rewrite map_app, concat_app. cbn [map concat]. rewrite app_nil_r.
      rewrite <- app_assoc, <- Hsplit, Hrest. done.
    + rewrite length_drop. lia.
Qed.

(** Every outcome of the loop: a reason that holds, or ten sections read. *)
Lemma section_loop_reason file n : forall i seen pos secs0,
  Forall is_byte file -> (12 <= length file)%nat ->
  sections_read file secs0 pos ->
  (forall t, t ∈ seen <-> In t (map sec_type secs0)) ->
  Z.of_nat (length secs0) = i -> (length secs0 + n = 10)%nat ->
  match section_loop file (Z.of_nat (length file)) n i seen pos with
  | inl r => reason_holds file r
  | inr (seen', pos') =>
      exists secs,
        length secs = 10%nat /\ sections_read file secs pos' /\
        forall t, t ∈ seen' <-> In t (map sec_type secs)
  end.
Proof.
  induction n as [|n IH]; intros i seen pos secs0 Hb Hlen Hread Hseen Hi Hn.
  - cbn [section_loop]. exists secs0. split; [lia|]. done.
  - cbn [section_loop].
    destruct (decide (pos + 12 > _)) as [Heof|Hhdr].
    { cbn. exists secs0. split; [done|]. split; [done|]. lia. }
    unfold readSync. cbv zeta.
    destruct (read_section_header (drop (Z.to_nat pos) file)) as [E1 E2].
    rewrite E1, E2. clear E1 E2.
    fold (type_at file pos). fold (size_at file pos).
    destruct (decide (type_at file pos ∈ seen)) as [Hdup|Hnew].
    { cbn. exists secs0, pos. split; [done|]. split; [lia|]. split; [lia|].
      split; [done|]. by apply Hseen. }
    destruct (decide (_ > _)) as [Hbig|Hfit].
    { cbn. split; [done|]. exists secs0, pos. split; [done|]. split; [lia|].
      split; [lia|]. split; [done|]. split; lia. }
    apply (IH _ _ _ (secs0 ++ [section_at file (Z.to_nat pos)])); try done.
    + apply sections_read_snoc; [done|done|done| |lia].
      intros Hin. by apply Hnew, Hseen.
    + intros t. rewrite elem_of_union, elem_of_singleton, map_app, in_app_iff.
      rewrite Hseen. cbn [map In section_at sec_type].
      unfold type_at. intuition (subst; tauto).
    + rewrite length_app. cbn [length]. lia.
    + rewrite length_app. cbn [length]. lia.
Qed.

(** A negative answer carries a reason that holds of the file. *)
Lemma checkGroth16ZkeyLayout_reason file reason :
  Forall is_byte file ->
  checkGroth16ZkeyLayout file = ok_false reason -> reason_holds file reason.
Proof.
  intros Hb H.
  destruct (decide (Z.of_nat (length file) < 12)) as [Hsmall|Hlen].
  { unfold checkGroth16ZkeyLayout in H. cbv zeta in H.
    rewrite decide_True in H by done. injection H as <-. by cbn. }
  rewrite checkGroth16ZkeyLayout_unfold in H by lia.
  destruct (decide (take 4 file <> _)) as [Hm|_];
    [by injection H as <-|].
  destruct (decide (_ <> 1)) as [Hv|_]; [by injection H as <-|].
  destruct (decide (_ <> 10)) as [Hn|_]; [by injection H as <-|].
  assert (Hempty : forall t : Z, t ∈ (∅ : gset Z) <-> In t (map sec_type [])).
  { intros t. cbn. split; [by intros ?%not_elem_of_empty|done]. }
  pose proof (section_loop_reason file 10 0 ∅ (Z.of_nat 12) [] Hb
                ltac:(lia) (sections_read_nil file ltac:(lia)) Hempty
                eq_refl eq_refl) as Hloop.
  destruct (section_loop _ _ _ _ _ _) as [r|[seen pos]].
  { by injection H as <-. }
  destruct Hloop as (secs & Hlen10 & Hread & Hseen).
  destruct (decide (pos <> _)) as [Hpos|Hpos%dec_stable].
  { injection H as <-. cbn. split; [done|]. exists secs.
    split; [done|]. split; [done|].
    destruct (sections_read_rest _ _ _ Hread) as [? _]; lia. }
  destruct (find _ _) as [t|] eqn:Hfind; [|done].
  injection H as <-. apply find_some in Hfind as [Hin Hmiss].
  apply bool_decide_eq_true in Hmiss. cbn. split; [done|].
  exists secs. split; [done|]. split; [by rewrite <- Hpos|].
  intros Ht. by apply Hmiss, Hseen.
Qed.

End ZkeyFacts.

Section ZkeyClaims.

Import SnarkjsUtils.

(** C8. For every file of bytes, [checkGroth16ZkeyLayout] answers [ok: true]
    exactly when the file is the magic "zkey", the version 1, the section
    count 10 and then exactly ten sections [{type: uint32, size: uint64,
    payload}] laid back to back up to the last byte of the file, no section
    type twice and every type 1 to 10 among them; on every other file it
    answers [ok: false] with a reason, and the reason holds of the file:
    it names the first requirement the file breaks, with the values read
    from the file. *)
Theorem zkey_layout_check_iff (file : list Z) :
  Forall is_byte file ->
  (checkGroth16ZkeyLayout file = ok_true <-> zkey_layout file) /\
  (~ zkey_layout file ->
   exists reason,
     checkGroth16ZkeyLayout file = ok_false reason /\ reason_holds file reason).
Proof.
  intros Hb.
  assert (Hiff : checkGroth16ZkeyLayout file = ok_true <-> zkey_layout file).
  { split.
    - intros H.
      destruct (decide (Z.of_nat (length file) < 12)) as [Hsmall|Hlen].
      { unfold checkGroth16ZkeyLayout in H. cbv zeta in H.
        by rewrite decide_True in H by done. }
      rewrite checkGroth16ZkeyLayout_unfold in H by lia.
      destruct (decide (take 4 file <> _)) as [|Hm%dec_stable]; [done|].
      destruct (decide (_ <> 1)) as [|Hv%dec_stable]; [done|].
      destruct (decide (_ <> 10)) as [|Hn%dec_stable]; [done|].
      destruct (section_loop _ _ _ _ _ _) as [|[seen pos]] eqn:Hloop; [done|].
      destruct (decide (pos <> _)) as [|Hpos%dec_stable]; [done|].
      destruct (find _ _) eqn:Hfind; [done|].
      pose proof (proj1 (find_missing_None seen) Hfind) as Hall. clear Hfind.
      apply section_loop_sound in Hloop; [|done|lia].
      destruct Hloop as (secs & k' & -> & Hk' & Hlen' & Hfits & Hdrop & Hnd & _ & Hseen).
      apply Nat2Z.inj in Hpos. subst k'. rewrite drop_all, app_nil_r in Hdrop.
      exists secs. split; [done|]. split; [done|]. split; [|split; [done|]].
      + rewrite (split_file_header file) at 1. rewrite Hm, Hdrop.
        f_equal. f_equal; [|f_equal].
        * rewrite <- Hv.
          rewrite <- (le_bytes_le_int (take 4 (drop 4 file))) at 1
            by (by apply take_is_byte, drop_is_byte).
          rewrite length_take, length_drop. f_equal. lia.
        * rewrite <- Hn.
          rewrite <- (le_bytes_le_int (take 4 (drop 8 file))) at 1
            by (by apply take_is_byte, drop_is_byte).
          rewrite length_take, length_drop. f_equal. lia.
      + intros t Ht. apply Hall, Hseen in Ht as [Ht|Ht]; [|done].
        by apply not_elem_of_empty in Ht.
    - intros (secs & Hlen & Hfits & Hfile & Hnd & Hreq).
      assert (Hlen12 : (12 <= length file)%nat).
      { rewrite Hfile, !length_app, !length_le_bytes. cbn. lia. }
      assert (E4 : take 4 file = zkey_magic).
      { rewrite Hfile. by rewrite take_app_length'. }
      assert (E8 : take 4 (drop 4 file) = le_bytes 4 1).
      { rewrite Hfile. rewrite drop_app_length' by done.
        by rewrite take_app_length'. }
      assert (E12 : take 4 (drop 8 file) = le_bytes 4 10).
      { rewrite Hfile. rewrite (app_assoc zkey_magic).
        rewrite drop_app_length' by done. by rewrite take_app_length'. }
      assert (Ebody : drop 12 file = concat (map encode_section secs) ++ []).
      { rewrite Hfile at 1. rewrite (app_assoc zkey_magic), app_assoc.
        rewrite drop_app_length' by done. by rewrite app_nil_r. }
      rewrite checkGroth16ZkeyLayout_unfold by done.
      rewrite E4, E8, E12.
      rewrite decide_False by (by intros []).
      rewrite decide_False by (by intros []).
      rewrite decide_False by (by intros []).
      destruct (section_loop_complete file secs 0 ∅ 12 [] Hfits Ebody Hlen12 Hnd)
        as (seen' & Hrun & Hseen).
      { intros t _. apply not_elem_of_empty. }
      rewrite Hlen in Hrun. rewrite Hrun. cbn [length].
      rewrite decide_False by lia.
      assert (Hfind : find (fun section => bool_decide (section ∉ seen'))
                        REQUIRED_SECTIONS = None).
      { apply find_missing_None. intros t Ht. apply Hseen. right. by apply Hreq. }
      by rewrite Hfind. }
  split; [done|].
  intros Hno. destruct (checkGroth16ZkeyLayout file) as [|reason] eqn:E.
  - exfalso. by apply Hno, Hiff.
  - exists reason. split; [done|]. by apply checkGroth16ZkeyLayout_reason.
Qed.

End ZkeyClaims.

Section ZkeySamples.

Import SnarkjsUtils.

Lemma sample_zkey_bytes : Forall is_byte sample_zkey.
Proof. compute_done. Qed.

Example sample_zkey_accepted : checkGroth16ZkeyLayout sample_zkey = ok_true.
Proof. vm_compute. reflexivity. Qed.

Example sample_zkey_trailing :
  checkGroth16ZkeyLayout (sample_zkey ++ [0]) = ok_false (TrailingBytes 187 188).
Proof. vm_compute. reflexivity. Qed.

Example sample_zkey_truncated :
  checkGroth16ZkeyLayout (take 100 sample_zkey) = ok_false (UnexpectedEOF 5 92).
Proof. vm_compute. reflexivity. Qed.

Lemma zkey_layout_check_iff_witness :
  Forall is_byte sample_zkey /\
  (checkGroth16ZkeyLayout sample_zkey = ok_true <-> zkey_layout sample_zkey).
Proof.
  split; [exact sample_zkey_bytes|].
  exact (proj1 (zkey_layout_check_iff sample_zkey sample_zkey_bytes)).
Defined.

End ZkeySamples.

(** * The layout computed by the witness generator *)

Section LocateClaims.

Import GenerateWitness.

Lemma accent_located_length : length (emailHeader accent_located) = max_header_bytes.
Proof. reflexivity. Qed.

Lemma accent_located_felt : Forall felt (emailHeader accent_located).
Proof. apply (header_of_felt (Sha256.pad accent_bytes)). compute_done. Qed.

Lemma accent_first_located_length :
  length (emailHeader accent_first_located) = max_header_bytes.
Proof. reflexivity. Qed.

Lemma accent_first_located_felt : Forall felt (emailHeader accent_first_located).
Proof. apply (header_of_felt (Sha256.pad accent_first_bytes)). compute_done. Qed.

(** On an ASCII header the layout is the one of the scenario. *)
Example located_scenario :
  exists i, located scenario_bytes = inr i /\ indices i = indices scenario.
Proof. eexists. split; vm_compute; reflexivity. Qed.

(** The circuit accepts the layout computed for the header with the accent
    in the From line, and exposes the sixteen bytes before the last one of
    the address. *)
Lemma accent_located_accepted :
  exists o, MyCircuit accept_all accent_located = Some o /\
    Contract.pack_str (str "<jose@example.co") = Some (from_email_packed o).
Proof.
  unfold_circuit. select_windows accent_located_length accent_located_felt.
  vm_compute. eexists. split; reflexivity.
Qed.

Lemma accent_first_located_rejected :
  MyCircuit accept_all accent_first_located = None.
Proof.
  unfold_circuit.
  select_windows accent_first_located_length accent_first_located_felt.
  vm_compute. reflexivity.
Qed.

(** C9. The start offsets [main] computes are indices into the decoded
    string, one per UTF-16 code unit, while the lengths are byte lengths: a
    two-byte character before a field moves its offset one byte to the left
    of the field. With the character in the display name of the From line,
    the address is located at byte 121 while it lies at byte 122, and the
    circuit accepts this layout and exposes the bytes from the angle bracket
    on as the sender; with the character in an earlier line every offset is
    one byte short and the circuit rejects the layout. *)
Theorem located_offsets_count_code_units :
  located accent_bytes = inr accent_located /\
  byte_offset (emailHeader accent_located) (str "jose@example.com") = 122 /\
  from_addr_idx accent_located = 121 /\
  from_addr_len accent_located = 16 /\
  take 16 (drop 121 (emailHeader accent_located)) = str "<jose@example.co" /\
  take 16 (drop 122 (emailHeader accent_located)) = str "jose@example.com" /\
  (exists o, MyCircuit accept_all accent_located = Some o /\
     Contract.pack_str (str "<jose@example.co") = Some (from_email_packed o) /\
     Contract.pack_str (str "jose@example.com") <> Some (from_email_packed o)) /\
  located accent_first_bytes = inr accent_first_located /\
  byte_offset (emailHeader accent_first_located) (str "subject:") = 29 /\
  subject_start_idx accent_first_located = 28 /\
  MyCircuit accept_all accent_first_located = None.
Proof.
  split; [vm_compute; reflexivity|].
  do 5 (split; [vm_compute; reflexivity|]).
  split.
  { destruct accent_located_accepted as (o & Ho & Hp).
    exists o. split; [done|]. split; [done|].
    rewrite <- Hp. vm_compute. discriminate. }
  do 3 (split; [vm_compute; reflexivity|]).
  exact accent_first_located_rejected.
Qed.

(** The offset of a field inside its line is the first occurrence of its
    text in the match: an account id that the request id contains is located
    inside the request id. *)
Example located_first_occurrence :
  exists i, located repeated_bytes = inr i /\
    subject_request_id_idx i = 16 /\ subject_request_id_len i = 12 /\
    subject_account_id_idx i = 16 /\ subject_account_id_len i = 10 /\
    byte_offset (drop 17 repeated_bytes) (str "alice.near") + 17 = 29.
Proof. eexists. split; [vm_compute; reflexivity|]. vm_compute. tauto. Qed.

End LocateClaims.

(** * The witnesses the circuit accepts *)

Section ComponentFacts.

Import RecoverEmailCircuit Layout SubstringPacker.

Variable header : list Z.
Hypothesis Hlen : length header = max_header_bytes.
Hypothesis Hbytes : Forall is_byte header.

Let Hfelt : Forall felt header := Forall_is_byte_felt header Hbytes.

Lemma length_cells start len : length (cells header start len) = len.
Proof. unfold cells. by rewrite length_map, length_seq. Qed.

Lemma nth_cells start len k :
  (k < len)%nat ->
  nth k (cells header start len) 0 = nth ((k + Z.to_nat start) mod 1024) header 0.
Proof.
  intros Hk. unfold cells.
  apply (nth_tabulate len
    (fun i => nth ((i + Z.to_nat start) mod max_header_bytes) header 0) k 0 Hk).
Qed.

Lemma cells_is_byte start len : Forall is_byte (cells header start len).
Proof.
  unfold cells. apply Forall_map, Forall_forall. intros i _. by apply nth_is_byte.
Qed.

(** Cells that do not reach the end of the buffer are a slice of it. *)
Lemma cells_slice (start : Z) (len : nat) :
  0 <= start -> start + Z.of_nat len <= 1024 ->
  cells header start len = take len (drop (Z.to_nat start) header).
Proof.
  intros Hs Hend. apply (nth_ext _ _ 0 0).
  - rewrite length_cells, length_take, length_drop, Hlen.
    unfold max_header_bytes. lia.
  - rewrite length_cells. intros k Hk. rewrite nth_cells by done.
    rewrite Nat.mod_small by lia. rewrite nth_take_drop.
    rewrite decide_True by done. f_equal. lia.
Qed.

Lemma length_selected start len : length (selected header start len) = 255%nat.
Proof.
  unfold selected. apply length_pad_right. rewrite length_cells.
  unfold kept. case_decide; lia.
Qed.

Lemma nth_selected start len k :
  nth k (selected header start len) 0
  = if decide (k < kept len)%nat
    then nth ((k + Z.to_nat start) mod 1024) header 0 else 0.
Proof.
  unfold selected. rewrite nth_pad_right. case_decide.
  - by apply nth_cells.
  - apply nth_overflow. rewrite length_cells. lia.
Qed.

Lemma selected_is_byte start len : Forall is_byte (selected header start len).
Proof. apply pad_right_is_byte, cells_is_byte. Qed.

(** [SelectSubArray(1024, 255)]: the selections it accepts and what they
    return. *)
Lemma select255_spec start len :
  felt start -> felt len ->
  SelectSubArray max_header_bytes 255 header start len =
    if decide (start < 1024 /\ selectable len)
    then Some (selected header start len) else None.
Proof.
  intros Hs Hl. case_decide as Hd.
  - destruct Hd as [Hlt [Hr | ->]].
    + rewrite SelectSubArray_window;
        [|done|done|done|lia|vm_compute; lia|vm_compute; discriminate
         |change (2 ^ Z.of_nat (log2Ceil 255)) with 256; lia].
      unfold window. rewrite decide_True by (by vm_compute).
      apply (f_equal Some). apply (nth_ext _ _ 0 0).
      * by rewrite length_tabulate, length_selected.
      * rewrite length_tabulate. intros k Hk.
        rewrite nth_tabulate by done. rewrite nth_selected.
        unfold kept. rewrite (decide_False (P := len = p - 1)) by flia.
        unfold max_header_bytes. repeat case_decide; try done; lia.
    + unfold SelectSubArray. rewrite VarShiftLeft_spec;
        [|unfold max_header_bytes; lia|unfold max_header_bytes; lia
         |vm_compute; lia|done|done|done].
      rewrite decide_True by (by vm_compute).
      cbv [mbind option_bind].
      replace (selected header start (p - 1)) with (tabulate 255 (fun _ : nat => 0)).
      2:{ apply (nth_ext _ _ 0 0).
          - by rewrite length_tabulate, length_selected.
          - rewrite length_tabulate. intros k Hk. rewrite nth_tabulate by done.
            rewrite nth_selected. unfold kept.
            rewrite (decide_True (P := p - 1 = p - 1)) by done.
            by rewrite decide_False by lia. }
      apply mapM_seq_tabulate. intros k Hk.
      unfold GreaterThan. change (log2Ceil 255) with 8%nat.
      rewrite LessThan_spec by lia. cbv zeta.
      change (2 ^ Z.of_nat 8) with 256. change (2 ^ Z.of_nat 9) with 512.
      rewrite (fadd_small (Z.of_nat k) 256) by flia.
      rewrite (fsub_wrap (Z.of_nat k + 256) (p - 1)) by flia.
      rewrite decide_True by lia. rewrite decide_False by lia.
      cbv [mbind option_bind]. by rewrite fmul_0_l.
  - destruct (SelectSubArray _ _ _ _ _) as [out|] eqn:E; [exfalso|done].
    apply Hd.
    destruct (SelectSubArray_Some max_header_bytes 255 8
                ltac:(unfold max_header_bytes; lia)
                ltac:(unfold max_header_bytes; lia)
                ltac:(vm_compute; lia) eq_refl header Hlen Hfelt
                start len out Hs E) as (Hlt & _ & Hcells).
    split; [exact Hlt|].
    apply (window_length_cases header Hlen); [done| |].
    + destruct (Hcells 0%nat) as (g & Hg & _); [lia|]. by exists g.
    + destruct (Hcells 254%nat) as (g & Hg & _); [lia|]. by exists g.
Qed.

(** [PackByteSubArray(1024, 255)]. *)
Lemma PackByteSubArray_spec start len :
  felt start -> felt len ->
  PackByteSubArray header start len =
    if decide (start < 1024 /\ selectable len)
    then Some (packed header start len) else None.
Proof.
  intros Hs Hl. unfold PackByteSubArray, maxLen.
  rewrite select255_spec by done. by case_decide.
Qed.

(** A selection of one cell. *)
Lemma select1_spec start :
  felt start ->
  SelectSubArray max_header_bytes 1 header start 1 =
    if decide (start < 1024) then Some [nth (Z.to_nat start) header 0] else None.
Proof.
  intros Hs.
  rewrite SelectSubArray_window;
    [|done|done|done|lia|vm_compute; lia|vm_compute; discriminate|vm_compute; split; discriminate].
  unfold window. change (2 ^ Z.of_nat (log2Ceil max_header_bytes)) with 1024.
  case_decide; [|done]. apply (f_equal Some).
  unfold tabulate. cbn [seq map]. rewrite decide_True by lia.
  rewrite Nat.add_0_l, Nat.mod_small; [done|].
  unfold max_header_bytes, felt in *. lia.
Qed.

(** A static prefix is accepted exactly where the cells spell it. *)
Lemma PrefixCheck_spec start expected :
  (0 < length expected <= 16)%nat -> felt start ->
  PrefixCheck header start expected =
    if decide (start < 1024 /\ cells header start (length expected) = expected)
    then Some () else None.
Proof.
  intros He Hs. unfold PrefixCheck.
  assert (Hpow : Z.of_nat (length expected)
                 <= 2 ^ Z.of_nat (log2Ceil (length expected))).
  { assert (Hcases : In (length expected) (seq 1 16)) by (apply in_seq; lia).
    cbn in Hcases.
    repeat (destruct Hcases as [<-|Hcases]; [vm_compute; discriminate|]).
    done. }
  assert (Hlog : (log2Ceil (length expected) <= 252)%nat).
  { assert (Hcases : In (length expected) (seq 1 16)) by (apply in_seq; lia).
    cbn in Hcases.
    repeat (destruct Hcases as [<-|Hcases]; [vm_compute; lia|]).
    done. }
  rewrite SelectSubArray_window; [|done|done|done|lia|done|done|lia].
  unfold window. change (2 ^ Z.of_nat (log2Ceil max_header_bytes)) with 1024.
  assert (Hsel : tabulate (length expected)
           (fun i => if decide (Z.of_nat i < Z.of_nat (length expected))
                     then nth ((i + Z.to_nat start) mod max_header_bytes) header 0
                     else 0)
         = cells header start (length expected)).
  { apply tabulate_ext. intros k Hk. by rewrite decide_True by lia. }
  rewrite Hsel. destruct (decide (start < 1024)) as [Hlt|Hge].
  - cbv [mbind option_bind]. case_guard as Hg.
    + by rewrite decide_True.
    + rewrite decide_False; [done|]. by intros [_ ?].
  - rewrite decide_False; [done|]. by intros [? _].
Qed.

(** The anchor check where the line starts inside the buffer. *)
Lemma AnchorCheck_complete start :
  2 <= start < 1024 ->
  nth (Z.to_nat (start - 2)) header 0 = 13 ->
  nth (Z.to_nat (start - 1)) header 0 = 10 ->
  AnchorCheck header start = Some ().
Proof.
  intros Hs H13 H10. unfold AnchorCheck, anchor_len.
  rewrite (fsub_small start 2) by flia.
  rewrite SelectSubArray_window;
    [|done|done|flia|lia|vm_compute; lia|vm_compute; discriminate
     |vm_compute; split; discriminate].
  unfold window. change (2 ^ Z.of_nat (log2Ceil max_header_bytes)) with 1024.
  rewrite decide_True by lia. cbv [mbind option_bind].
  rewrite !nth_tabulate by lia. rewrite !decide_True by lia.
  unfold max_header_bytes. rewrite !Nat.mod_small by lia.
  replace (0 + Z.to_nat (start - 2))%nat with (Z.to_nat (start - 2)) by lia.
  replace (1 + Z.to_nat (start - 2))%nat with (Z.to_nat (start - 1)) by lia.
  rewrite H13, H10. unfold IsZero. rewrite decide_False by lia.
  vm_compute. reflexivity.
Qed.

(** Anchor and prefix together: the line starts at [start]. *)
Lemma anchored_iff start name :
  (0 < length name <= 16)%nat -> felt start ->
  (AnchorCheck header start = Some () /\ PrefixCheck header start name = Some ())
  <-> anchored header start name.
Proof.
  intros Hn Hs. rewrite PrefixCheck_spec by done. split.
  - intros [HA HP]. case_decide as Hd; [|done]. destruct Hd as [Hlt Hc].
    apply AnchorCheck_sound in HA as (Hr & H13 & H10); [|done..].
    split; [lia|]. rewrite !Nat.mod_small in H13, H10 by lia.
    replace (1 + Z.to_nat (start - 2))%nat with (Z.to_nat (start - 1)) in H10 by lia.
    done.
  - intros (Hr & H13 & H10 & Hc). split.
    + by apply AnchorCheck_complete.
    + by rewrite decide_True by (split; [lia|done]).
Qed.

(** The gap check: the gap has -1 to 256 bytes, and none of its first 255
    is CR or LF. *)
Lemma FromGapCheck_iff from_start from_addr :
  0 <= from_start < 1024 -> 0 <= from_addr < 1024 ->
  FromGapCheck header from_start from_addr = Some () <->
  from_start + 5 < 1024 /\
  from_start + 4 <= from_addr <= from_start + 261 /\
  forall k : nat,
    from_start + 5 <= Z.of_nat k < from_addr ->
    Z.of_nat k < from_start + 260 ->
    nth k header 0 <> 13 /\ nth k header 0 <> 10.
Proof.
  intros Hf Ha. unfold FromGapCheck, from_prefix_len, from_gap_max_len.
  rewrite (fadd_small from_start 5) by flia.
  rewrite select255_spec by (first [apply felt_mod | flia]).
  set (gap := fsub from_addr (from_start + 5)).
  assert (Hgap : (from_start + 5 <= from_addr /\ gap = from_addr - (from_start + 5))
                 \/ (from_addr < from_start + 5
                     /\ gap = from_addr - (from_start + 5) + p)).
  { destruct (Z_le_gt_dec (from_start + 5) from_addr).
    - left. split; [done|]. unfold gap. apply fsub_small. flia.
    - right. split; [lia|]. unfold gap. apply fsub_wrap. flia. }
  assert (Hkept : forall k : nat,
            from_start + 5 <= Z.of_nat k < from_addr ->
            Z.of_nat k < from_start + 260 ->
            selectable gap ->
            (k - Z.to_nat (from_start + 5) < kept gap)%nat).
  { intros k Hk Hk' Hsel. unfold kept.
    destruct Hgap as [[? Hg]|[? Hg]]; [|lia].
    rewrite decide_False by flia. lia. }
  split.
  - intros H. case_decide as Hd; [|done]. destruct Hd as [Hlt Hsel].
    cbv [mbind option_bind] in H. case_guard as Hall; [|done].
    split; [done|]. split.
    { unfold selectable in Hsel. destruct Hgap as [[? Hg]|[? Hg]]; flia. }
    intros k Hk Hk'. apply not_newline_cell.
    pose proof (proj1 (Forall_nth _ 0 _) Hall
                  (k - Z.to_nat (from_start + 5))%nat) as Hcell.
    rewrite length_selected, nth_selected in Hcell.
    rewrite decide_True in Hcell by (by apply Hkept).
    replace ((k - Z.to_nat (from_start + 5) + Z.to_nat (from_start + 5)) mod 1024)%nat
      with k in Hcell by (rewrite Nat.mod_small; lia).
    apply Hcell. lia.
  - intros (Hlt & Hr & Hall).
    assert (Hsel : selectable gap).
    { unfold selectable. destruct Hgap as [[? Hg]|[? Hg]]; lia. }
    rewrite decide_True by done. rewrite obind_Some.
    rewrite option_guard_True; [done|].
    apply (Forall_nth _ 0). intros j Hj. rewrite length_selected in Hj.
    rewrite nth_selected. case_decide as Hk; [|by vm_compute].
    assert (Hjk : Z.of_nat j < from_addr - (from_start + 5) /\ (j < 255)%nat).
    { unfold kept in Hk. destruct Hgap as [[? Hg]|[? Hg]].
      - rewrite decide_False in Hk by flia. lia.
      - rewrite decide_True in Hk by lia. lia. }
    rewrite Nat.mod_small by lia.
    destruct (Hall (j + Z.to_nat (from_start + 5))%nat) as [H13 H10]; [lia|lia|].
    apply (byte_not_newline header Hlen); [|done|done].
    by apply nth_is_byte.
Qed.

End ComponentFacts.

(** Steps through an accepted chain: a guard, a component with a decided
    condition. *)
Ltac guard_step H Hg :=
  lazymatch type of H with
  | (guard ?P ≫= _) = Some _ =>
      destruct (decide P) as [Hg|Hg];
      [rewrite (option_guard_True P) in H by exact Hg
      |rewrite (option_guard_False P) in H by exact Hg; discriminate H]
  end.

Ltac if_step H Hd :=
  lazymatch type of H with
  | ((if decide ?P then _ else None) ≫= _) = Some _ =>
      destruct (decide P) as [Hd|Hd];
      [cbv beta iota in H; rewrite obind_Some in H; cbv beta in H
      |discriminate H]
  end.

Section WitnessFacts.

Import RecoverEmailCircuit Layout SubstringPacker.

Lemma fadd_signed a len :
  1 <= a <= 2048 -> selectable len -> fadd a len = a + signed len.
Proof.
  intros Ha [Hl | ->]; unfold signed.
  - rewrite decide_False by flia. apply fadd_small. flia.
  - rewrite decide_True by done. unfold fadd.
    replace (a + (p - 1)) with (a - 1 + 1 * p) by lia.
    rewrite Z_mod_plus_full. apply Z.mod_small. flia.
Qed.

Lemma signed_range len : selectable len -> -1 <= signed len <= 256.
Proof. intros [H | ->]; unfold signed; case_decide; flia. Qed.

Lemma selectable_felt len : selectable len -> felt len.
Proof. intros [H | ->]; flia. Qed.

(** The structure of the Subject line, for a line that starts with
    "subject:recover-" and lengths the packers accept. *)
Lemma SubjectStructure_iff i :
  well_formed i ->
  0 <= subject_start_idx i < 1024 ->
  cells (emailHeader i) (subject_start_idx i) 16 = prefix1 ->
  selectable (subject_request_id_len i) ->
  selectable (subject_account_id_len i) ->
  SubjectStructure i = Some () <->
  let afterRequestId := subject_request_id_idx i + subject_request_id_len i in
  let afterAccountId := subject_account_id_idx i + signed (subject_account_id_len i) in
  subject_request_id_idx i = subject_start_idx i + 16 /\
  0 <= subject_request_id_len i <= 256 /\
  afterRequestId < 1023 /\
  nth (Z.to_nat afterRequestId) (emailHeader i) 0 = 32 /\
  subject_account_id_idx i = afterRequestId + 1 /\
  afterAccountId < 1023 /\
  nth (Z.to_nat afterAccountId) (emailHeader i) 0 = 32 /\
  cells (emailHeader i) (afterAccountId + 1) 8 = prefix2 /\
  subject_public_key_idx i = afterAccountId + 9.
Proof.
  intros (Hlen & Hbytes & Hf) Hs Hpre Hrl Hal.
  repeat (apply Forall_cons in Hf as [? Hf]). clear Hf.
  set (h := emailHeader i) in *.
  set (s := subject_start_idx i) in *. set (r := subject_request_id_idx i) in *.
  set (rl := subject_request_id_len i) in *. set (a := subject_account_id_idx i) in *.
  set (al := subject_account_id_len i) in *. set (pk := subject_public_key_idx i) in *.
  cbv zeta. unfold SubjectStructure, prefix1_len, prefix2_len.
  fold h s r rl a al pk.
  rewrite (fadd_small s 16) by flia.
  pose proof (signed_range al Hal) as Hal'.
  assert (H45 : nth (Z.to_nat (s + 15)) h 0 = 32 -> s + 15 < 1024 -> False).
  { intros H32 Hlt. pose proof (f_equal (fun l => nth 15 l 0) Hpre) as Hc.
    cbv beta in Hc. rewrite (nth_cells h) in Hc by lia.
    rewrite Nat.mod_small in Hc by lia.
    replace (15 + Z.to_nat s)%nat with (Z.to_nat (s + 15)) in Hc by lia.
    rewrite H32 in Hc. by vm_compute in Hc. }
  split.
  - intros H'. guard_step H' Hr. rewrite Hr in *.
    rewrite (fadd_signed (s + 16) rl) in H' by (done || lia).
    pose proof (signed_range rl Hrl) as Hrs.
    rewrite (select1_spec h Hlen Hbytes (s + 16 + signed rl)) in H' by flia.
    if_step H' Hlt1. cbn [nth] in H'. guard_step H' H32.
    assert (Hrl' : 0 <= rl <= 256).
    { destruct Hrl as [Hrl | ->]; [done|]. exfalso.
      unfold signed in *. rewrite decide_True in * by done.
      apply H45; [|lia]. rewrite <- H32. f_equal. lia. }
    assert (Esr : signed rl = rl) by (unfold signed; apply decide_False; flia).
    rewrite Esr in *.
    rewrite (fadd_small (s + 16 + rl) 1) in H' by flia.
    guard_step H' Ha. rewrite Ha in *.
    rewrite (fadd_signed (s + 16 + rl + 1) al) in H' by (done || lia).
    rewrite (select1_spec h Hlen Hbytes (s + 16 + rl + 1 + signed al)) in H' by flia.
    if_step H' Hlt2. cbn [nth] in H'. guard_step H' H32'.
    rewrite (fadd_small (s + 16 + rl + 1 + signed al) 1) in H' by flia.
    rewrite (PrefixCheck_spec h Hlen Hbytes (s + 16 + rl + 1 + signed al + 1) prefix2
               ltac:(vm_compute; lia) ltac:(flia)) in H'.
    if_step H' Hp2. destruct Hp2 as [Hlt3 Hp2].
    rewrite (fadd_small _ 8) in H' by flia.
    guard_step H' Hpk.
    change (length prefix2) with 8%nat in Hp2.
    repeat split; try done; try lia.
  - intros (Hr & Hrl' & Hlt1 & H32 & Ha & Hlt2 & H32' & Hp2 & Hpk).
    assert (Esr : signed rl = rl) by (unfold signed; apply decide_False; flia).
    rewrite option_guard_True by done.
    rewrite Hr in *.
    rewrite (fadd_signed (s + 16) rl), Esr by (done || lia).
    rewrite (select1_spec h Hlen Hbytes (s + 16 + rl)) by flia.
    rewrite decide_True by lia.
    rewrite obind_Some. cbv beta. cbn [nth].
    rewrite option_guard_True by done.
    rewrite (fadd_small (s + 16 + rl) 1) by flia.
    rewrite option_guard_True by done.
    rewrite Ha in *.
    rewrite (fadd_signed (s + 16 + rl + 1) al) by (done || lia).
    rewrite (select1_spec h Hlen Hbytes (s + 16 + rl + 1 + signed al)) by flia.
    rewrite decide_True by lia.
    rewrite obind_Some. cbv beta. cbn [nth].
    rewrite option_guard_True by done.
    rewrite (fadd_small (s + 16 + rl + 1 + signed al) 1) by flia.
    rewrite (PrefixCheck_spec h Hlen Hbytes (s + 16 + rl + 1 + signed al + 1) prefix2
               ltac:(vm_compute; lia) ltac:(flia)).
    rewrite decide_True by (split; [lia|done]).
    rewrite obind_Some. cbv beta.
    rewrite (fadd_small _ 8) by flia.
    rewrite option_guard_True by lia. done.
Qed.

(** Everything an accepted witness of the plain variant satisfies. *)
Lemma MyCircuit_sound EV i o :
  well_formed i ->
  MyCircuit EV i = Some o ->
  EV (emailHeader i) (emailHeaderLength i) (pubkey i) (signature i) = true /\
  layout i /\ o = outputs_of i.
Proof.
  intros Hwf H. pose proof Hwf as (Hlen & Hbytes & Hf).
  repeat (apply Forall_cons in Hf as [? Hf]). clear Hf.
  unfold MyCircuit in H. guard_step H HEV.
  accept_step H. unfold SubjectChecks in E.
  accept_step E. rename E0 into EA. accept_step E. rename E0 into EP.
  rewrite !(PackByteSubArray_spec (emailHeader i)) in H by done.
  if_step H Hreq. if_step H Hacc. if_step H Hpk.
  accept_step H. rename E0 into EFA. accept_step H. rename E0 into EFP.
  if_step H Hfrom. accept_step H. rename E0 into EG.
  accept_step H. unfold DateChecks in E0.
  accept_step E0. rename E1 into EDA. rename E0 into EDP.
  if_step H Hdate. injection H as <-.
  repeat match goal with u : () |- _ => destruct u end.
  pose proof (proj1 (anchored_iff _ Hlen Hbytes (subject_start_idx i) prefix1
                       ltac:(vm_compute; lia) ltac:(done)) (conj EA EP)) as HS.
  pose proof (proj1 (anchored_iff _ Hlen Hbytes (from_start_idx i) from_prefix
                       ltac:(vm_compute; lia) ltac:(done)) (conj EFA EFP)) as HF.
  pose proof (proj1 (anchored_iff _ Hlen Hbytes (date_start_idx i) date_prefix
                       ltac:(vm_compute; lia) ltac:(done)) (conj EDA EDP)) as HD.
  destruct Hreq as [Hreq1 Hreq2]. destruct Hacc as [Hacc1 Hacc2].
  destruct Hpk as [Hpk1 Hpk2]. destruct Hfrom as [Hfrom1 Hfrom2].
  destruct Hdate as [Hdate1 Hdate2].
  apply (SubjectStructure_iff i Hwf) in E as
    (Hr & Hrl & Hlt1 & H32 & Ha & Hlt2 & H32' & Hp2 & Hpki);
    [|destruct HS as (? & _); lia|by destruct HS as (_ & _ & _ & ?)|done|done].
  apply (FromGapCheck_iff _ Hlen Hbytes) in EG as (Hg1 & Hg2 & Hg3);
    [|destruct HF as (? & _); lia|unfold felt in *; lia].
  split; [done|]. split; [|done].
  split; [|split].
  - unfold subject_layout. cbv zeta. split; [exact HS|].
    repeat split; try done; lia.
  - unfold from_layout. cbv zeta. split; [exact HF|].
    split; [done|]. split; [done|]. split; [done|]. split; [exact Hg3|done].
  - unfold date_layout. split; [exact HD|]. done.
Qed.

(** Every witness of that shape is accepted, with these outputs. *)
Lemma MyCircuit_complete EV i :
  well_formed i ->
  EV (emailHeader i) (emailHeaderLength i) (pubkey i) (signature i) = true ->
  layout i -> MyCircuit EV i = Some (outputs_of i).
Proof.
  intros Hwf HEV (HS & HF & HD). pose proof Hwf as (Hlen & Hbytes & Hf).
  repeat (apply Forall_cons in Hf as [? Hf]). clear Hf.
  destruct HS as (HSa & Hr & Hrl & H32 & Ha & Hal & H32' & Hp2 & Hpki & Hpk1 & Hpk2).
  cbv zeta in *.
  destruct HF as (HFa & Hg2 & Hg1 & Hfa & Hg3 & Hfl).
  destruct HD as (HDa & Hts & Htl).
  pose proof (signed_range _ Hal) as Hals.
  destruct (proj2 (anchored_iff _ Hlen Hbytes (subject_start_idx i) prefix1
                     ltac:(vm_compute; lia) ltac:(done)) HSa) as [EA EP].
  destruct (proj2 (anchored_iff _ Hlen Hbytes (from_start_idx i) from_prefix
                     ltac:(vm_compute; lia) ltac:(done)) HFa) as [EFA EFP].
  destruct (proj2 (anchored_iff _ Hlen Hbytes (date_start_idx i) date_prefix
                     ltac:(vm_compute; lia) ltac:(done)) HDa) as [EDA EDP].
  assert (ES : SubjectStructure i = Some ()).
  { apply (SubjectStructure_iff i Hwf);
      [destruct HSa as (? & _); lia|by destruct HSa as (_ & _ & _ & ?)
      |left; lia|done|].
    cbv zeta. repeat split; try done; lia. }
  assert (EG : FromGapCheck (emailHeader i) (from_start_idx i) (from_addr_idx i)
               = Some ()).
  { apply (FromGapCheck_iff _ Hlen Hbytes);
      [destruct HFa as (? & _); lia|unfold felt in *; lia|].
    split; [done|]. split; [done|]. exact Hg3. }
  unfold MyCircuit, SubjectChecks, DateChecks.
  rewrite option_guard_True by done.
  rewrite EA, EP, ES, EFA, EFP, EG, EDA, EDP. cbn [mbind option_bind].
  rewrite !(PackByteSubArray_spec (emailHeader i)) by done.
  rewrite (decide_True (P := subject_request_id_idx i < 1024 /\ _))
    by (split; [lia|left; lia]).
  rewrite (decide_True (P := subject_account_id_idx i < 1024 /\ _))
    by (split; [lia|done]).
  rewrite (decide_True (P := subject_public_key_idx i < 1024 /\ _)) by done.
  rewrite (decide_True (P := from_addr_idx i < 1024 /\ _)) by done.
  rewrite (decide_True (P := date_timestamp_idx i < 1024 /\ _)) by done.
  reflexivity.
Qed.

(** The hasher on two selections whose lengths fit eight bits. *)
Lemma SenderBindingHasher_selected h fa fl a al :
  Forall is_byte h -> 0 <= fl <= 255 -> 0 <= al <= 255 ->
  SenderBindingHasher (selected h fa fl) fl (selected h a al) al
  = Some (SenderBindingSpec.hash (cells h fa (kept fl)) (cells h a (kept al))).
Proof.
  intros Hb Hfl Hal.
  pose proof (SenderBindingHasher_eq (cells h fa (kept fl)) (cells h a (kept al))
                (cells_is_byte h Hb fa _) (cells_is_byte h Hb a _)) as Heq.
  rewrite !length_cells in Heq.
  assert (Kf : Z.of_nat (kept fl) = fl).
  { unfold kept. rewrite decide_False by flia. lia. }
  assert (Ka : Z.of_nat (kept al) = al).
  { unfold kept. rewrite decide_False by flia. lia. }
  rewrite Kf, Ka in Heq. apply Heq; lia.
Qed.

(** Everything an accepted witness of the hashed variant satisfies. *)
Lemma MyCircuit_hashed_sound EV i o :
  well_formed i ->
  MyCircuit_hashed EV i = Some o ->
  EV (emailHeader i) (emailHeaderLength i) (pubkey i) (signature i) = true /\
  layout i /\ from_addr_len i <= 255 /\ 0 <= subject_account_id_len i <= 255 /\
  o = hashed_outputs_of i.
Proof.
  intros Hwf H. pose proof Hwf as (Hlen & Hbytes & Hf).
  repeat (apply Forall_cons in Hf as [? Hf]). clear Hf.
  unfold MyCircuit_hashed in H. guard_step H HEV.
  accept_step H. unfold SubjectChecks in E.
  accept_step E. rename E0 into EA. accept_step E. rename E0 into EP.
  rewrite !(PackByteSubArray_spec (emailHeader i)) in H by done.
  if_step H Hreq. if_step H Hacc. if_step H Hpk.
  accept_step H. unfold FromChecks in E0.
  accept_step E0. rename E1 into EFA. accept_step E0. rename E1 into EFP.
  rename E0 into EG.
  rewrite !(select255_spec (emailHeader i)) in H by done.
  if_step H Hfrom. if_step H Hacc'.
  accept_step H. rename E0 into EH.
  accept_step H. unfold DateChecks in E0.
  accept_step E0. rename E1 into EDA. rename E0 into EDP.
  if_step H Hdate. injection H as <-.
  repeat match goal with u : () |- _ => destruct u end.
  pose proof (proj1 (anchored_iff _ Hlen Hbytes (subject_start_idx i) prefix1
                       ltac:(vm_compute; lia) ltac:(done)) (conj EA EP)) as HS.
  pose proof (proj1 (anchored_iff _ Hlen Hbytes (from_start_idx i) from_prefix
                       ltac:(vm_compute; lia) ltac:(done)) (conj EFA EFP)) as HF.
  pose proof (proj1 (anchored_iff _ Hlen Hbytes (date_start_idx i) date_prefix
                       ltac:(vm_compute; lia) ltac:(done)) (conj EDA EDP)) as HD.
  destruct Hreq as [Hreq1 Hreq2]. destruct Hacc as [Hacc1 Hacc2].
  destruct Hpk as [Hpk1 Hpk2]. destruct Hfrom as [Hfrom1 Hfrom2].
  destruct Hdate as [Hdate1 Hdate2].
  apply (SubjectStructure_iff i Hwf) in E as
    (Hr & Hrl & Hlt1 & H32 & Ha & Hlt2 & H32' & Hp2 & Hpki);
    [|destruct HS as (? & _); lia|by destruct HS as (_ & _ & _ & ?)|done|done].
  apply (FromGapCheck_iff _ Hlen Hbytes) in EG as (Hg1 & Hg2 & Hg3);
    [|destruct HF as (? & _); lia|unfold felt in *; lia].
  pose proof EH as Hlens.
  apply SenderBindingHasher_lengths in Hlens as [Hfl Hal]; [|done..].
  assert (Hfl' : 0 <= from_addr_len i <= 255).
  { destruct Hfrom2 as [?|Hm]; [lia|]. rewrite Hm in Hfl. flia. }
  assert (Hal' : 0 <= subject_account_id_len i <= 255).
  { destruct Hacc2 as [?|Hm]; [lia|]. rewrite Hm in Hal. flia. }
  rewrite SenderBindingHasher_selected in EH by done. injection EH as <-.
  split; [done|]. split; [|split; [lia|split; [done|done]]].
  split; [|split].
  - unfold subject_layout. cbv zeta. split; [exact HS|].
    repeat split; try done; lia.
  - unfold from_layout. cbv zeta. split; [exact HF|].
    split; [done|]. split; [done|]. split; [done|]. split; [exact Hg3|done].
  - unfold date_layout. split; [exact HD|]. done.
Qed.

(** Every witness of that shape is accepted by the hashed variant. *)
Lemma MyCircuit_hashed_complete EV i :
  well_formed i ->
  EV (emailHeader i) (emailHeaderLength i) (pubkey i) (signature i) = true ->
  layout i -> from_addr_len i <= 255 -> 0 <= subject_account_id_len i <= 255 ->
  MyCircuit_hashed EV i = Some (hashed_outputs_of i).
Proof.
  intros Hwf HEV (HS & HF & HD) Hfl255 Hal255.
  pose proof Hwf as (Hlen & Hbytes & Hf).
  repeat (apply Forall_cons in Hf as [? Hf]). clear Hf.
  destruct HS as (HSa & Hr & Hrl & H32 & Ha & Hal & H32' & Hp2 & Hpki & Hpk1 & Hpk2).
  cbv zeta in *.
  destruct HF as (HFa & Hg2 & Hg1 & Hfa & Hg3 & Hfl).
  destruct HD as (HDa & Hts & Htl).
  pose proof (signed_range _ Hal) as Hals.
  destruct (proj2 (anchored_iff _ Hlen Hbytes (subject_start_idx i) prefix1
                     ltac:(vm_compute; lia) ltac:(done)) HSa) as [EA EP].
  destruct (proj2 (anchored_iff _ Hlen Hbytes (from_start_idx i) from_prefix
                     ltac:(vm_compute; lia) ltac:(done)) HFa) as [EFA EFP].
  destruct (proj2 (anchored_iff _ Hlen Hbytes (date_start_idx i) date_prefix
                     ltac:(vm_compute; lia) ltac:(done)) HDa) as [EDA EDP].
  assert (ES : SubjectStructure i = Some ()).
  { apply (SubjectStructure_iff i Hwf);
      [destruct HSa as (? & _); lia|by destruct HSa as (_ & _ & _ & ?)
      |left; lia|done|].
    cbv zeta. repeat split; try done; lia. }
  assert (EG : FromGapCheck (emailHeader i) (from_start_idx i) (from_addr_idx i)
               = Some ()).
  { apply (FromGapCheck_iff _ Hlen Hbytes);
      [destruct HFa as (? & _); lia|unfold felt in *; lia|].
    split; [done|]. split; [done|]. exact Hg3. }
  assert (Hfl' : 0 <= from_addr_len i <= 255).
  { destruct Hfl as [?|Hm]; [lia|]. rewrite Hm in Hfl255. flia. }
  unfold MyCircuit_hashed, SubjectChecks, FromChecks, DateChecks.
  rewrite option_guard_True by done.
  rewrite EA, EP, ES, EFA, EFP, EG, EDA, EDP. cbn [mbind option_bind].
  rewrite !(PackByteSubArray_spec (emailHeader i)) by done.
  rewrite !(select255_spec (emailHeader i)) by done.
  rewrite (decide_True (P := subject_request_id_idx i < 1024 /\ _))
    by (split; [lia|left; lia]).
  rewrite !(decide_True (P := subject_account_id_idx i < 1024 /\ _))
    by (split; [lia|done]).
  rewrite (decide_True (P := subject_public_key_idx i < 1024 /\ _)) by done.
  rewrite (decide_True (P := from_addr_idx i < 1024 /\ _)) by done.
  rewrite (decide_True (P := date_timestamp_idx i < 1024 /\ _)) by done.
  cbn [mbind option_bind].
  rewrite SenderBindingHasher_selected by done.
  reflexivity.
Qed.

End WitnessFacts.

Section WitnessTheorems.

Import RecoverEmailCircuit Layout SubstringPacker.

(** The variant that exposes the address accepts a witness exactly when the
    signature check passes and the private inputs describe this layout: each
    of the three lines starts after CR LF with its name; the Subject line is
    "subject:recover-", a request id of at most 256 bytes, a space, the
    account id, a space, "ed25519:", the public key; the From address starts
    4 to 261 bytes after "from:" and the first 255 bytes between them hold
    no CR or LF; every packed length is 0 to 256, or -1 in the field. The
    outputs are then the packings of the selected cells. Nothing relates the
    timestamp to the Date line, and no field is delimited at its end except
    the request id and the account id. *)
Theorem MyCircuit_accepts_iff EV (i : Inputs) (o : Outputs) :
  well_formed i ->
  MyCircuit EV i = Some o <->
  EV (emailHeader i) (emailHeaderLength i) (pubkey i) (signature i) = true /\
  layout i /\ o = outputs_of i.
Proof.
  intros Hwf. split.
  - by apply MyCircuit_sound.
  - intros (HEV & Hl & ->). by apply MyCircuit_complete.
Qed.

(** The variant that exposes the sender hash accepts a witness exactly when
    the signature check passes, the layout is the one of the other variant,
    and the lengths of the address and of the account id are at most 255;
    its hash output is then SHA-256 of the lowercased address cells, "|" and
    the lowercased account id cells. *)
Theorem MyCircuit_hashed_accepts_iff EV (i : Inputs) (o : HashedOutputs) :
  well_formed i ->
  MyCircuit_hashed EV i = Some o <->
  EV (emailHeader i) (emailHeaderLength i) (pubkey i) (signature i) = true /\
  layout i /\ from_addr_len i <= 255 /\ 0 <= subject_account_id_len i <= 255 /\
  o = hashed_outputs_of i.
Proof.
  intros Hwf. split.
  - by apply MyCircuit_hashed_sound.
  - intros (HEV & Hl & Hf & Ha & ->). by apply MyCircuit_hashed_complete.
Qed.

Lemma well_formed_relocate i pk_len addr_len ts_idx ts_len :
  well_formed i -> felt pk_len -> felt addr_len -> felt ts_idx -> felt ts_len ->
  well_formed (relocate i pk_len addr_len ts_idx ts_len).
Proof.
  intros (Hlen & Hb & Hf) Hp Ha Hi Hl. split; [done|]. split; [done|].
  cbn [relocate subject_start_idx subject_request_id_idx subject_request_id_len
       subject_account_id_idx subject_account_id_len subject_public_key_idx
       subject_public_key_len from_start_idx from_addr_idx from_addr_len
       date_start_idx date_timestamp_idx date_timestamp_len].
  repeat (apply Forall_cons in Hf as [? Hf]).
  repeat (apply Forall_cons; split; [done|]). done.
Qed.

Lemma layout_relocate i pk_len addr_len ts_idx ts_len :
  layout i -> selectable pk_len -> selectable addr_len ->
  ts_idx < 1024 -> selectable ts_len ->
  layout (relocate i pk_len addr_len ts_idx ts_len).
Proof.
  intros (HS & HF & HD) Hp Ha Hi Hl.
  destruct HS as (HSa & Hr & Hrl & H32 & Haa & Hal & H32' & Hp2 & Hpki & Hpk1 & Hpk2).
  destruct HF as (HFa & Hg2 & Hg1 & Hfa & Hg3 & Hfl).
  destruct HD as (HDa & Hts & Htl).
  split; [|split].
  - unfold subject_layout. cbn [relocate emailHeader subject_start_idx
      subject_request_id_idx subject_request_id_len subject_account_id_idx
      subject_account_id_len subject_public_key_idx subject_public_key_len].
    cbv zeta in *. done.
  - unfold from_layout. cbn [relocate emailHeader from_start_idx from_addr_idx
      from_addr_len]. done.
  - unfold date_layout. cbn [relocate emailHeader date_start_idx
      date_timestamp_idx date_timestamp_len]. done.
Qed.

(** What an accepted witness leaves open: with the same header and the same
    proof of the signature, any other length of the public key and of the
    address and any other place and length of the timestamp are accepted
    too, and the outputs for the request id and the account id stay the
    same. The timestamp output need not come from the Date line. *)
Theorem accepted_witness_relocates EV (i : Inputs) (o : Outputs)
    (pk_len addr_len ts_idx ts_len : Z) :
  well_formed i ->
  MyCircuit EV i = Some o ->
  0 <= pk_len <= 256 -> 0 <= addr_len <= 256 ->
  0 <= ts_idx < 1024 -> 0 <= ts_len <= 256 ->
  let i' := relocate i pk_len addr_len ts_idx ts_len in
  MyCircuit EV i' = Some (outputs_of i') /\
  request_id_packed (outputs_of i') = request_id_packed o /\
  account_id_packed (outputs_of i') = account_id_packed o /\
  timestamp_packed (outputs_of i') = packed (emailHeader i) ts_idx ts_len.
Proof.
  intros Hwf H Hp Ha Hi Hl i'.
  apply MyCircuit_sound in H as (HEV & Hlay & ->); [|done].
  split; [|done].
  apply MyCircuit_complete.
  - apply well_formed_relocate; [done|flia..].
  - exact HEV.
  - apply layout_relocate; [done|by left|by left|lia|by left].
Qed.

End WitnessTheorems.

(** * More on the layout check of a zkey file *)

Section ZkeyMore.

Import SnarkjsUtils.

(** The layout of an accepted file. *)
Lemma accepted_layout file :
  Forall is_byte file -> checkGroth16ZkeyLayout file = ok_true -> zkey_layout file.
Proof.
  intros Hb H.
  destruct (decide (Z.of_nat (length file) < 12)) as [Hsmall|Hlen].
  { unfold checkGroth16ZkeyLayout in H. cbv zeta in H.
    by rewrite decide_True in H by done. }
  rewrite checkGroth16ZkeyLayout_unfold in H by lia.
  destruct (decide (take 4 file <> _)) as [|Hm%dec_stable]; [done|].
  destruct (decide (_ <> 1)) as [|Hv%dec_stable]; [done|].
  destruct (decide (_ <> 10)) as [|Hn%dec_stable]; [done|].
  destruct (section_loop _ _ _ _ _ _) as [|[seen pos]] eqn:Hloop; [done|].
  destruct (decide (pos <> _)) as [|Hpos%dec_stable]; [done|].
  destruct (find _ _) eqn:Hfind; [done|].
  pose proof (proj1 (find_missing_None seen) Hfind) as Hall. clear Hfind.
  apply section_loop_sound in Hloop; [|done|lia].
  destruct Hloop as (secs & k' & -> & Hk' & Hlen' & Hfits & Hdrop & Hnd & _ & Hseen).
  apply Nat2Z.inj in Hpos. subst k'. rewrite drop_all, app_nil_r in Hdrop.
  exists secs. split; [done|]. split; [done|]. split; [|split; [done|]].
  - rewrite (split_file_header file) at 1. rewrite Hm, Hdrop.
    pose proof (le_bytes_le_int (take 4 (drop 4 file))
                  (take_is_byte 4 _ (drop_is_byte 4 _ Hb))) as E1.
    pose proof (le_bytes_le_int (take 4 (drop 8 file))
                  (take_is_byte 4 _ (drop_is_byte 8 _ Hb))) as E2.
    rewrite length_take, length_drop in E1, E2.
    replace (4 `min` (length file - 4))%nat with 4%nat in E1 by lia.
    replace (4 `min` (length file - 8))%nat with 4%nat in E2 by lia.
    rewrite Hv in E1. rewrite Hn in E2. by rewrite E1, E2.
  - intros t Ht. apply Hall, Hseen in Ht as [Ht|Ht]; [|done].
    by apply not_elem_of_empty in Ht.
Qed.

Lemma length_sections secs :
  length (concat (map encode_section secs))
  = (12 * length secs + sum_list (map (fun s => length (sec_payload s)) secs))%nat.
Proof.
  induction secs as [|s secs IH]; [done|].
  cbn [map concat length sum_list]. rewrite length_app, IH.
  pose proof (length_encode_section s). unfold id. lia.
Qed.

(** Ten sections of distinct types followed by more bytes: the loop reads
    the sections and the check reports the bytes that follow. *)
Lemma check_trailing secs rest :
  length secs = 10%nat -> Forall section_fits secs ->
  NoDup (map sec_type secs) -> rest <> [] ->
  let file := zkey_magic ++ le_bytes 4 1 ++ le_bytes 4 10
              ++ concat (map encode_section secs) ++ rest in
  checkGroth16ZkeyLayout file
  = ok_false (TrailingBytes (Z.of_nat (length file) - Z.of_nat (length rest))
                (Z.of_nat (length file))).
Proof.
  intros Hlen Hfits Hnd Hrest file.
  assert (Hlen12 : (12 <= length file)%nat).
  { unfold file. rewrite !length_app, !length_le_bytes. cbn. lia. }
  assert (E4 : take 4 file = zkey_magic).
  { unfold file. by rewrite take_app_length'. }
  assert (E8 : take 4 (drop 4 file) = le_bytes 4 1).
  { unfold file. rewrite drop_app_length' by done. by rewrite take_app_length'. }
  assert (E12 : take 4 (drop 8 file) = le_bytes 4 10).
  { unfold file. rewrite (app_assoc zkey_magic).
    rewrite drop_app_length' by done. by rewrite take_app_length'. }
  assert (Ebody : drop 12 file = concat (map encode_section secs) ++ rest).
  { unfold file. rewrite (app_assoc zkey_magic), app_assoc.
    by rewrite drop_app_length'. }
  rewrite checkGroth16ZkeyLayout_unfold by done.
  rewrite E4, E8, E12.
  rewrite decide_False by (by intros []).
  rewrite decide_False by (by intros []).
  rewrite decide_False by (by intros []).
  destruct (section_loop_complete file secs 0 ∅ 12 rest Hfits Ebody Hlen12 Hnd)
    as (seen' & Hrun & Hseen).
  { intros t _. apply not_elem_of_empty. }
  rewrite Hlen in Hrun. rewrite Hrun.
  assert (Hpos : (0 < length rest)%nat) by (destruct rest; [done|cbn; lia]).
  assert (Hle : (length rest <= length file)%nat).
  { unfold file. rewrite !length_app. lia. }
  rewrite decide_True by lia. do 2 f_equal. lia.
Qed.

End ZkeyMore.

Section ZkeyTheorems.

Import SnarkjsUtils.

(** An accepted file is the twelve-byte header and ten sections whose types
    are 1 to 10 in some order; it has 132 bytes and the bytes of the
    payloads, so no file of fewer than 132 bytes is accepted. *)
Theorem accepted_zkey_shape (file : list Z) :
  Forall is_byte file ->
  checkGroth16ZkeyLayout file = ok_true ->
  exists secs : list ZkeySection,
    file = zkey_magic ++ le_bytes 4 1 ++ le_bytes 4 10
           ++ concat (map encode_section secs) /\
    map sec_type secs ≡ₚ REQUIRED_SECTIONS /\
    length file
    = (132 + sum_list (map (fun s => length (sec_payload s)) secs))%nat.
Proof.
  intros Hb H.
  destruct (accepted_layout file Hb H) as (secs & Hlen & Hfits & Hfile & Hnd & Hreq).
  exists secs. split; [done|]. split.
  - assert (Hreq_nd : NoDup REQUIRED_SECTIONS) by compute_done.
    symmetry. apply submseteq_length_Permutation.
    + apply NoDup_submseteq; [done|].
      intros t. rewrite !list_elem_of_In. apply Hreq.
    + rewrite length_map, Hlen. cbn. lia.
  - rewrite Hfile at 1. rewrite !length_app, !length_le_bytes, length_sections, Hlen.
    cbn. lia.
Qed.

(** Bytes after the last section, or a file cut short: an accepted file
    followed by any bytes is rejected for its trailing bytes, at the offset
    where the accepted file ends, and no proper prefix of an accepted file
    is accepted. *)
Theorem accepted_zkey_exact (file : list Z) :
  Forall is_byte file ->
  checkGroth16ZkeyLayout file = ok_true ->
  (forall extra, extra <> [] ->
     checkGroth16ZkeyLayout (file ++ extra)
     = ok_false (TrailingBytes (Z.of_nat (length file))
                   (Z.of_nat (length file + length extra)))) /\
  (forall n, (n < length file)%nat ->
     checkGroth16ZkeyLayout (take n file) <> ok_true).
Proof.
  intros Hb H.
  assert (Hext : forall f extra, Forall is_byte f ->
            checkGroth16ZkeyLayout f = ok_true -> extra <> [] ->
            checkGroth16ZkeyLayout (f ++ extra)
            = ok_false (TrailingBytes (Z.of_nat (length f))
                          (Z.of_nat (length f + length extra)))).
  { intros f extra Hbf Hf Hextra.
    destruct (accepted_layout f Hbf Hf) as (secs & Hlen & Hfits & Hfile & Hnd & _).
    pose proof (check_trailing secs extra Hlen Hfits Hnd Hextra) as Hc.
    cbv zeta in Hc.
    replace (zkey_magic ++ le_bytes 4 1 ++ le_bytes 4 10
             ++ concat (map encode_section secs) ++ extra)
      with (f ++ extra) in Hc by (rewrite Hfile at 1; by rewrite <- !app_assoc).
    rewrite Hc. rewrite length_app. do 2 f_equal; lia. }
  split; [intros extra Hextra; by apply Hext|].
  intros n Hn Hacc.
  assert (Hcut : drop n file <> []).
  { intros E. apply (f_equal length) in E. rewrite length_drop in E. cbn in E. lia. }
  pose proof (Hext (take n file) (drop n file) (take_is_byte n _ Hb) Hacc Hcut) as Hc.
  rewrite take_drop in Hc. by rewrite H in Hc.
Qed.

End ZkeyTheorems.

(** * The theorems at the sample inputs *)

Section SampleInstances.

Import RecoverEmailCircuit Layout SubstringPacker SnarkjsUtils Examples.

Lemma scenario_well_formed : well_formed scenario.
Proof.
  split; [reflexivity|]. split.
  - apply Forall_app. split; [compute_done|]. apply Forall_replicate.
    unfold is_byte. lia.
  - repeat (apply Forall_cons; split; [vm_compute; split; [discriminate|reflexivity]|]).
    apply Forall_nil_2.
Qed.

Lemma scenario_outputs : MyCircuit accept_all scenario = Some (outputs_of scenario).
Proof.
  destruct scenario_accepted as [o Ho]. rewrite Ho.
  by apply MyCircuit_sound in Ho as (_ & _ & ->); [|apply scenario_well_formed].
Qed.

Lemma MyCircuit_accepts_iff_witness :
  well_formed scenario /\
  (MyCircuit accept_all scenario = Some (outputs_of scenario) <->
   accept_all (emailHeader scenario) (emailHeaderLength scenario)
     (pubkey scenario) (signature scenario) = true /\
   layout scenario /\ outputs_of scenario = outputs_of scenario).
Proof.
  split; [exact scenario_well_formed|].
  apply (MyCircuit_accepts_iff accept_all scenario (outputs_of scenario)).
  exact scenario_well_formed.
Defined.

Lemma MyCircuit_hashed_accepts_iff_witness :
  well_formed scenario /\
  (MyCircuit_hashed accept_all scenario = Some (hashed_outputs_of scenario) <->
   accept_all (emailHeader scenario) (emailHeaderLength scenario)
     (pubkey scenario) (signature scenario) = true /\
   layout scenario /\ from_addr_len scenario <= 255 /\
   0 <= subject_account_id_len scenario <= 255 /\
   hashed_outputs_of scenario = hashed_outputs_of scenario).
Proof.
  split; [exact scenario_well_formed|].
  apply (MyCircuit_hashed_accepts_iff accept_all scenario (hashed_outputs_of scenario)).
  exact scenario_well_formed.
Defined.

(** The timestamp of the scenario moved onto its request id, the public key
    and the address cut to three and five bytes. *)
Lemma accepted_witness_relocates_witness :
  well_formed scenario /\
  MyCircuit accept_all scenario = Some (outputs_of scenario) /\
  MyCircuit accept_all (relocate scenario 3 5 (subject_request_id_idx scenario) 5)
  = Some (outputs_of (relocate scenario 3 5 (subject_request_id_idx scenario) 5)) /\
  request_id_packed (outputs_of (relocate scenario 3 5 (subject_request_id_idx scenario) 5))
  = request_id_packed (outputs_of scenario) /\
  account_id_packed (outputs_of (relocate scenario 3 5 (subject_request_id_idx scenario) 5))
  = account_id_packed (outputs_of scenario) /\
  timestamp_packed (outputs_of (relocate scenario 3 5 (subject_request_id_idx scenario) 5))
  = packed (emailHeader scenario) (subject_request_id_idx scenario) 5.
Proof.
  split; [exact scenario_well_formed|]. split; [exact scenario_outputs|].
  apply (accepted_witness_relocates accept_all scenario (outputs_of scenario)
           3 5 (subject_request_id_idx scenario) 5).
  - exact scenario_well_formed.
  - exact scenario_outputs.
  - lia.
  - lia.
  - vm_compute. split; [discriminate|reflexivity].
  - lia.
Defined.

Lemma accepted_zkey_shape_witness :
  Forall is_byte sample_zkey /\ checkGroth16ZkeyLayout sample_zkey = ok_true /\
  exists secs : list ZkeySection,
    sample_zkey = zkey_magic ++ le_bytes 4 1 ++ le_bytes 4 10
                  ++ concat (map encode_section secs) /\
    map sec_type secs ≡ₚ REQUIRED_SECTIONS /\
    length sample_zkey
    = (132 + sum_list (map (fun s => length (sec_payload s)) secs))%nat.
Proof.
  split; [exact sample_zkey_bytes|]. split; [exact sample_zkey_accepted|].
  apply (accepted_zkey_shape sample_zkey).
  - exact sample_zkey_bytes.
  - exact sample_zkey_accepted.
Defined.

Lemma accepted_zkey_exact_witness :
  Forall is_byte sample_zkey /\ checkGroth16ZkeyLayout sample_zkey = ok_true /\
  (forall extra, extra <> [] ->
     checkGroth16ZkeyLayout (sample_zkey ++ extra)
     = ok_false (TrailingBytes (Z.of_nat (length sample_zkey))
                   (Z.of_nat (length sample_zkey + length extra)))) /\
  (forall n, (n < length sample_zkey)%nat ->
     checkGroth16ZkeyLayout (take n sample_zkey) <> ok_true).
Proof.
  split; [exact sample_zkey_bytes|]. split; [exact sample_zkey_accepted|].
  apply (accepted_zkey_exact sample_zkey).
  - exact sample_zkey_bytes.
  - exact sample_zkey_accepted.
Defined.

End SampleInstances.

(** * The layout located in the decoded header *)

Section MatcherFacts.

Import GenerateWitness Located.

Variable re : RegExp.
Variable s : list Z.

Lemma greedy_Some {R} (try : nat -> option R) (min n : nat) (r : R) :
  greedy try min n = Some r ->
  exists k, (min <= k <= n)%nat /\ try k = Some r.
Proof.
  induction n as [|n IH]; cbn [greedy]; intros H.
  - destruct (0 <? min)%nat eqn:E; [discriminate|].
    apply Nat.ltb_ge in E. destruct (try 0%nat) eqn:T; [|discriminate].
    exists 0%nat. split; [lia|]. by rewrite T.
  - destruct (S n <? min)%nat eqn:E; [discriminate|].
    apply Nat.ltb_ge in E. destruct (try (S n)) eqn:T.
    + exists (S n). split; [lia|]. by rewrite T.
    + destruct (IH H) as (k & Hk & Hr). exists k. split; [lia|done].
Qed.

Lemma run_length_take (a : Atom) (l : list Z) (k : nat) :
  (k <= run_length re a l)%nat ->
  Forall (fun c => atom_matches re a c = true) (take k l) /\ (k <= length l)%nat.
Proof.
  revert k. induction l as [|c l IH]; intros k Hk; cbn [run_length] in Hk.
  - assert (k = 0%nat) as -> by lia. split; [constructor|cbn; lia].
  - destruct k as [|k]; [split; [constructor|cbn; lia]|].
    destruct (atom_matches re a c) eqn:E; [|lia].
    destruct (IH k ltac:(lia)) as [HF Hl].
    split; [by constructor|cbn; lia].
Qed.

Lemma match_lit (cs : list ascii) (rs : list Item) (pos opened : nat) caps r :
  match_items re s
    (map (fun c => One (Lit (Z.of_N (N_of_ascii c)))) cs ++ rs) pos opened caps
  = Some r ->
  map (canonicalize re) (take (length cs) (drop pos s))
  = map (canonicalize re) (map (fun c => Z.of_N (N_of_ascii c)) cs) /\
  match_items re s rs (pos + length cs) opened caps = Some r.
Proof.
  revert pos. induction cs as [|c cs IH]; intros pos H.
  - cbn in *. by rewrite Nat.add_0_r.
  - cbn [map app match_items] in H.
    destruct (s !! pos) as [x|] eqn:Hx; [|discriminate].
    destruct (atom_matches re (Lit (Z.of_N (N_of_ascii c))) x) eqn:Hm; [|discriminate].
    apply IH in H as [Hmap Hrest].
    split.
    + rewrite (drop_S _ _ _ Hx). cbn [length take map]. f_equal.
      * cbn in Hm. apply bool_decide_eq_true in Hm. by rewrite Hm.
      * exact Hmap.
    + cbn [length]. by replace (pos + S (length cs))%nat with (S pos + length cs)%nat by lia.
Qed.

Lemma match_group (a : Atom) (rs : list Item) (pos opened : nat) caps r :
  match_items re s (Open :: Plus a :: Close :: rs) pos opened caps = Some r ->
  exists k, captured re a (substring s pos (pos + k)) /\
    match_items re s rs (pos + k) pos (caps ++ [(pos, (pos + k)%nat)]) = Some r.
Proof.
  cbn [match_items]. intros H.
  apply greedy_Some in H as (k & Hk & H).
  exists k. split; [|done].
  destruct (run_length_take a (drop pos s) k ltac:(lia)) as [HF Hl].
  unfold substring. replace (pos + k - pos)%nat with k by lia.
  split; [|done].
  intros E. apply (f_equal length) in E. rewrite length_take in E. cbn in E. lia.
Qed.

Lemma match_star (a : Atom) (rs : list Item) (pos opened : nat) caps r :
  match_items re s (Star a :: rs) pos opened caps = Some r ->
  exists k, match_items re s rs (pos + k) opened caps = Some r.
Proof.
  cbn [match_items]. intros H.
  apply greedy_Some in H as (k & _ & H). by exists k.
Qed.

Lemma match_plus (a : Atom) (rs : list Item) (pos opened : nat) caps r :
  match_items re s (Plus a :: rs) pos opened caps = Some r ->
  exists k, match_items re s rs (pos + k) opened caps = Some r.
Proof.
  cbn [match_items]. intros H.
  apply greedy_Some in H as (k & _ & H). by exists k.
Qed.

Lemma match_bol (rs : list Item) (pos opened : nat) caps r :
  match_items re s (Bol :: rs) pos opened caps = Some r ->
  at_bol re s pos = true /\ match_items re s rs pos opened caps = Some r.
Proof. cbn [match_items]. by destruct (at_bol re s pos). Qed.

Lemma match_eol (rs : list Item) (pos opened : nat) caps r :
  match_items re s (Eol :: rs) pos opened caps = Some r ->
  match_items re s rs pos opened caps = Some r.
Proof. cbn [match_items]. by destruct (at_eol re s pos). Qed.

Lemma match_items_mono (rs : list Item) (pos opened : nat) caps r :
  match_items re s rs pos opened caps = Some r -> (pos <= r.1)%nat.
Proof.
  revert pos opened caps.
  induction rs as [|[a|a|a| | | | ] rs IH]; intros pos opened caps H;
    cbn [match_items] in H.
  - by injection H as <-.
  - destruct (s !! pos) as [c|]; [|discriminate].
    destruct (atom_matches re a c); [|discriminate].
    apply IH in H. lia.
  - apply greedy_Some in H as (k & _ & H). apply IH in H. lia.
  - apply greedy_Some in H as (k & _ & H). apply IH in H. lia.
  - destruct (at_bol re s pos); [|discriminate]. by apply IH in H.
  - destruct (at_eol re s pos); [|discriminate]. by apply IH in H.
  - by apply IH in H.
  - by apply IH in H.
Qed.

Lemma search_Some (n start : nat) (m : Match) :
  search re s n start = Some m ->
  exists (from : nat) r,
    (start <= from)%nat /\
    match_items re s (source re) from from [] = Some r /\
    index m = Z.of_nat from /\
    groups m = substring s from r.1 :: map (fun c => substring s c.1 c.2) r.2.
Proof.
  revert start. induction n as [|n IH]; intros start H; [discriminate|].
  cbn [search] in H.
  destruct (match_items re s (source re) start start []) as [[stop caps]|] eqn:E.
  - injection H as <-. exists start, (stop, caps). by repeat split.
  - apply IH in H as (from & r & Hle & H). exists from, r. split; [lia|done].
Qed.

Lemma at_bol_line_start (pos : nat) :
  at_bol re s pos = true -> line_start s (Z.of_nat pos).
Proof.
  destruct pos as [|before]; [by left|]. cbn [at_bol]. intros H.
  apply andb_true_iff in H as [_ H].
  destruct (s !! before) as [c|] eqn:E; [|discriminate].
  right. split; [lia|]. exists c.
  by replace (Z.to_nat (Z.of_nat (S before) - 1)) with before by lia.
Qed.

End MatcherFacts.

Section StringFacts.

Import GenerateWitness Located.

Lemma indexOf_from_range (s t : list Z) (i : Z) :
  indexOf_from i s t = -1 \/ i <= indexOf_from i s t.
Proof.
  revert i. induction s as [|c s IH]; intros i; cbn [indexOf_from];
    case_bool_decide; try lia.
  destruct (IH (i + 1)); lia.
Qed.

Lemma indexOf_from_found (s t : list Z) (i : Z) :
  0 <= i -> i <= indexOf_from i s t ->
  take (length t) (drop (Z.to_nat (indexOf_from i s t - i)) s) = t.
Proof.
  revert i. induction s as [|c s IH]; intros i Hi; cbn [indexOf_from].
  - case_bool_decide as E; [|lia]. intros _. by rewrite Z.sub_diag.
  - case_bool_decide as E.
    + intros _. by rewrite Z.sub_diag.
    + intros H.
      assert (i + 1 <= indexOf_from (i + 1) s t) as H1
        by (destruct (indexOf_from_range s t (i + 1)); lia).
      specialize (IH (i + 1) ltac:(lia) H1).
      replace (Z.to_nat (indexOf_from (i + 1) s t - i))
        with (S (Z.to_nat (indexOf_from (i + 1) s t - (i + 1)))) by lia.
      exact IH.
Qed.

Lemma indexOf_found (s t : list Z) :
  0 <= indexOf s t -> take (length t) (drop (Z.to_nat (indexOf s t)) s) = t.
Proof.
  intros H. pose proof (indexOf_from_found s t 0 ltac:(lia) H) as E.
  by rewrite Z.sub_0_r in E.
Qed.

Lemma indexOf_from_occurrence (s t : list Z) (n : nat) (i : Z) :
  take (length t) (drop n s) = t -> i <= indexOf_from i s t.
Proof.
  revert n i. induction s as [|c s IH]; intros n i H; cbn [indexOf_from].
  - rewrite drop_nil in H. rewrite bool_decide_eq_true_2 by done. lia.
  - case_bool_decide as E; [lia|].
    destruct n as [|n]; [done|]. cbn [drop] in H.
    specialize (IH n (i + 1) H). lia.
Qed.

Lemma indexOf_occurrence (s t : list Z) (n : nat) :
  take (length t) (drop n s) = t -> 0 <= indexOf s t.
Proof. apply indexOf_from_occurrence. Qed.

Lemma take_length_take (l : list Z) (k : nat) :
  take (length (take k l)) l = take k l.
Proof.
  rewrite length_take. destruct (decide (k <= length l)%nat).
  - by rewrite Nat.min_l by lia.
  - rewrite Nat.min_r by lia. by rewrite !take_ge by lia.
Qed.

Lemma take_drop_take_fit (l t : list Z) (k n L : nat) :
  take k (drop n (take L l)) = t -> length t = k -> take k (drop n l) = t.
Proof.
  intros E Hk. subst t. rewrite length_take, length_drop, length_take in Hk.
  destruct k as [|k]; [done|].
  rewrite <- (take_drop L l) at 1. rewrite drop_app_le by (rewrite length_take; lia).
  rewrite take_app_le by (rewrite length_drop, length_take; lia). done.
Qed.

Lemma utf8_decode_ascii_app (a b : list Z) :
  is_ascii a -> utf8_decode None (a ++ b) = a ++ utf8_decode None b.
Proof.
  induction 1 as [|c a Hc _ IH]; [done|].
  cbn [app utf8_decode]. unfold utf8_lead.
  rewrite decide_True by lia. cbn [app]. by rewrite IH.
Qed.

Lemma toString_utf8_ascii_app (a b : list Z) :
  is_ascii a -> toString_utf8 (a ++ b) = a ++ toString_utf8 b.
Proof.
  intros Ha. unfold toString_utf8. rewrite utf8_decode_ascii_app by done.
  rewrite map_app, concat_app. f_equal.
  clear b. induction Ha as [|c a Hc _ IH]; [done|].
  cbn [map concat]. unfold utf16_units at 1. rewrite decide_True by lia.
  cbn [app]. by rewrite IH.
Qed.

Lemma toString_utf8_ascii_prefix (buf : list Z) (n : nat) :
  is_ascii (take n buf) -> take n (toString_utf8 buf) = take n buf.
Proof.
  intros Ha. rewrite <- (take_drop n buf) at 1.
  rewrite toString_utf8_ascii_app by done.
  destruct (decide (n <= length buf)%nat) as [Hn|Hn].
  - rewrite take_app_le by (rewrite length_take; lia).
    apply take_ge. rewrite length_take. lia.
  - rewrite drop_ge by lia. cbn. rewrite app_nil_r. apply take_ge.
    rewrite length_take. lia.
Qed.

Lemma utf8_length_ascii (t : list Z) :
  is_ascii t -> utf8_length t = Z.of_nat (length t).
Proof.
  induction 1 as [|c t Hc _ IH]; [done|].
  cbn [utf8_length length]. rewrite decide_True by lia. lia.
Qed.

Lemma utf8_length_ge (t : list Z) : Z.of_nat (length t) <= utf8_length t.
Proof.
  remember (length t) as n eqn:Hn.
  assert (length t <= n)%nat as Hle by lia.
  assert (forall m l, (length l <= m)%nat -> Z.of_nat (length l) <= utf8_length l) as A.
  { clear. induction m as [|m IH]; intros l Hl.
    - destruct l; [done|cbn in Hl; lia].
    - destruct l as [|c l]; [done|]. cbn [length] in Hl.
      cbn [utf8_length].
      pose proof (IH l ltac:(lia)) as Hl1.
      repeat case_decide; cbn [length]; try lia.
      destruct l as [|d l']; [cbn; lia|].
      cbn [length] in *. pose proof (IH l' ltac:(lia)) as Hl2.
      case_decide; lia. }
  subst n. by apply (A (length t)).
Qed.

Lemma canonicalize_upper (re : RegExp) (c : Z) :
  ignoreCase re = true -> canonicalize re c = upper c.
Proof. unfold canonicalize, upper. by intros ->. Qed.

Lemma canonicalize_eq_small (re : RegExp) (d c : Z) :
  d < 65 -> canonicalize re d = canonicalize re c -> c = d.
Proof.
  unfold canonicalize. intros Hd.
  destruct (ignoreCase re); cbn [andb]; repeat case_bool_decide; lia.
Qed.

Lemma captured_not_space (re : RegExp) (text : list Z) :
  captured re not_space text ->
  text <> [] /\ Forall (fun c => is_space c = false) text.
Proof.
  intros [Hne HF]. split; [done|].
  eapply Forall_impl; [exact HF|]. intros c. cbn.
  destruct (is_space c); [discriminate|done].
Qed.

Lemma captured_angle (re : RegExp) (text : list Z) :
  captured re (NoneOf [CChar 62; CSpace]) text ->
  text <> [] /\ Forall (fun c => is_space c = false) text.
Proof.
  intros [Hne HF]. split; [done|].
  eapply Forall_impl; [exact HF|]. intros c. cbn.
  destruct (is_space c); [|done].
  rewrite orb_true_r. discriminate.
Qed.

Lemma captured_not_newline (re : RegExp) (text : list Z) :
  captured re not_newline text ->
  text <> [] /\ Forall (fun c => is_newline c = false) text.
Proof.
  intros [Hne HF]. split; [done|].
  eapply Forall_impl; [exact HF|]. intros c. cbn. intros H.
  unfold is_newline. apply bool_decide_eq_false. intros [-> | ->].
  - rewrite bool_decide_eq_true_2 in H by done. discriminate.
  - rewrite (bool_decide_eq_true_2 (canonicalize re 10 = canonicalize re 10)) in H by done.
    rewrite orb_true_r in H. discriminate.
Qed.

Lemma name_at_intro (re : RegExp) (s : list Z) (pos : nat) (cs : list ascii) (name : list Z) :
  ignoreCase re = true ->
  name = map (fun c => Z.of_N (N_of_ascii c)) cs ->
  map (canonicalize re) (take (length cs) (drop pos s))
  = map (canonicalize re) (map (fun c => Z.of_N (N_of_ascii c)) cs) ->
  name_at s (Z.of_nat pos) name.
Proof.
  intros Hi -> H. split; [lia|]. unfold slice.
  rewrite length_map, !Nat2Z.id.
  rewrite <- (map_ext _ _ (fun c => canonicalize_upper re c Hi)).
  rewrite H. apply map_ext. intros c. by apply canonicalize_upper.
Qed.

Lemma take_drop_take_within (l : list Z) (k n L : nat) :
  (n + k <= L)%nat -> take k (drop n (take L l)) = take k (drop n l).
Proof.
  intros H. destruct (decide (L <= length l)%nat) as [HL|HL].
  - rewrite <- (take_drop L l) at 2.
    rewrite drop_app_le by (rewrite length_take; lia).
    rewrite take_app_le by (rewrite length_drop, length_take; lia). done.
  - by rewrite (take_ge l L) by lia.
Qed.

(** A part of a text occurs in it. *)
Lemma indexOf_substring (s : list Z) (start stop p q : nat) :
  (start <= p)%nat -> (q <= stop)%nat ->
  0 <= indexOf (substring s start stop) (substring s p q).
Proof.
  intros Hp Hq. unfold substring.
  destruct (decide (q <= p)%nat) as [Hqp|Hqp].
  { replace (q - p)%nat with 0%nat by lia. cbn [take].
    by apply (indexOf_occurrence _ [] 0). }
  apply (indexOf_occurrence _ _ (p - start)).
  assert (length (take (q - p) (drop p s)) <= q - p)%nat as Hl
    by (rewrite length_take; lia).
  rewrite take_drop_take_within by lia.
  rewrite drop_drop. replace (start + (p - start))%nat with p by lia.
  apply take_length_take.
Qed.

Lemma indexOf_substring_self (l : list Z) (p q : nat) :
  0 <= indexOf l (substring l p q).
Proof.
  apply (indexOf_occurrence _ _ p). unfold substring. apply take_length_take.
Qed.

(** The field [main] locates by [indexOf] in the text of a match. *)
Lemma field_at_intro (buf : list Z) (start stop : nat) (text : list Z)
    (excluded : Z -> bool) :
  let s := toString_utf8 buf in
  let full := substring s start stop in
  text <> [] -> Forall (fun c => excluded c = false) text ->
  0 <= indexOf full text ->
  field_at buf s (Z.of_nat start) (Z.of_nat start + indexOf full text)
    (utf8_length text) excluded.
Proof.
  intros s full Hne HF Hidx. exists text.
  pose proof (indexOf_found full text Hidx) as Hfound.
  unfold full, substring in Hfound.
  apply take_drop_take_fit in Hfound; [|done].
  rewrite drop_drop in Hfound.
  set (n := indexOf full text) in *.
  assert (Hslice : take (length text) (drop (Z.to_nat (Z.of_nat start + n)) s) = text).
  { by replace (Z.to_nat (Z.of_nat start + n)) with (start + Z.to_nat n)%nat by lia. }
  split; [done|]. split; [done|]. split; [lia|]. split.
  { unfold slice. by rewrite Nat2Z.id. }
  split; [done|].
  intros m Ha Hm. pose proof (utf8_length_ge text) as Hge.
  set (P := Z.to_nat (Z.of_nat start + n)) in *.
  assert (Hbuf : take (length text) (drop P buf) = text).
  { rewrite <- (take_drop_take_within buf _ P m) by lia.
    rewrite <- (toString_utf8_ascii_prefix buf m Ha).
    rewrite take_drop_take_within by lia. exact Hslice. }
  assert (Hasc : is_ascii (take (length text) (drop P buf))).
  { rewrite <- (take_drop_take_within buf _ P m) by lia.
    by apply Forall_take, Forall_drop. }
  rewrite Hbuf in Hasc.
  unfold slice. rewrite (utf8_length_ascii text Hasc), Nat2Z.id. exact Hbuf.
Qed.

End StringFacts.

Section ExpressionFacts.

Import GenerateWitness Located.

Ltac exec_start H from stop caps :=
  unfold exec in H;
  apply search_Some in H as (from & [stop caps] & _ & H & Hindex & Hgroups);
  cbn [source subjectRegex fromLineRegex angleRegex bareRegex dateRegex] in H;
  unfold lit in H; cbn [app] in H.

Ltac exec_end H :=
  cbn [match_items] in H; injection H as <- <-;
  cbn [map app fst snd] in *.

Lemma subject_exec (s : list Z) (m : Match) :
  exec subjectRegex s = Some m ->
  exists (start stop : nat) (t1 t2 t3 : list Z),
    index m = Z.of_nat start /\
    groups m = [substring s start stop; t1; t2; t3] /\
    name_at s (Z.of_nat start) subject_name /\
    captured subjectRegex not_space t1 /\
    captured subjectRegex not_space t2 /\
    captured subjectRegex not_space t3 /\
    0 <= indexOf (substring s start stop) t1 /\
    0 <= indexOf (substring s start stop) t2 /\
    0 <= indexOf (substring s start stop) t3.
Proof.
  intros H. exec_start H start stop caps.
  apply match_lit in H as [Hname H]. cbn [app] in H.
  apply match_star in H as [k0 H].
  apply match_lit in H as [_ H]. cbn [app] in H.
  apply match_group in H as (k1 & Hc1 & H).
  pose proof (match_items_mono _ _ _ _ _ _ _ H) as Hm1.
  apply match_plus in H as [j1 H].
  apply match_group in H as (k2 & Hc2 & H).
  pose proof (match_items_mono _ _ _ _ _ _ _ H) as Hm2.
  apply match_plus in H as [j2 H].
  apply match_lit in H as [_ H]. cbn [app] in H.
  apply match_group in H as (k3 & Hc3 & H).
  pose proof (match_items_mono _ _ _ _ _ _ _ H) as Hm3.
  exec_end H.
  eexists start, _, _, _, _. split; [done|]. split; [eassumption|].
  split; [by apply (name_at_intro subjectRegex s start (list_ascii_of_string "subject:"))|].
  do 3 (split; [done|]).
  repeat split; apply indexOf_substring; lia.
Qed.

Lemma fromLine_exec (s : list Z) (m : Match) :
  exec fromLineRegex s = Some m ->
  exists (start stop : nat),
    index m = Z.of_nat start /\
    groups m = [substring s start stop] /\
    line_start s (Z.of_nat start) /\
    name_at s (Z.of_nat start) from_prefix.
Proof.
  intros H. exec_start H start stop caps.
  apply match_bol in H as [Hbol H].
  apply match_lit in H as [Hname H]. cbn [app] in H.
  apply match_star in H as [k0 H].
  apply match_eol in H.
  exec_end H.
  eexists start, _. split; [done|]. split; [eassumption|].
  split; [by apply (at_bol_line_start fromLineRegex)|].
  by apply (name_at_intro fromLineRegex s start (list_ascii_of_string "from:")).
Qed.

Lemma angle_exec (l : list Z) (m : Match) :
  exec angleRegex l = Some m ->
  group m 1 <> [] /\ Forall (fun c => is_space c = false) (group m 1) /\
  0 <= indexOf l (group m 1).
Proof.
  intros H. exec_start H start stop caps.
  apply (match_lit angleRegex l (list_ascii_of_string "<")) in H as [_ H].
  apply match_group in H as (k1 & Hc1 & H).
  apply (match_lit angleRegex l (list_ascii_of_string ">") []) in H as [_ H].
  exec_end H.
  unfold group. destruct m as [idx gs]. cbn in *. subst gs. cbn.
  apply (captured_angle angleRegex) in Hc1 as [? ?].
  repeat split; [done..|]. apply indexOf_substring_self.
Qed.

Lemma bare_exec (l : list Z) (m : Match) :
  exec bareRegex l = Some m ->
  group m 1 <> [] /\ Forall (fun c => is_space c = false) (group m 1) /\
  0 <= indexOf l (group m 1).
Proof.
  intros H. exec_start H start stop caps.
  apply match_bol in H as [_ H].
  apply match_lit in H as [_ H]. cbn [app] in H.
  apply match_star in H as [k0 H].
  apply match_group in H as (k1 & Hc1 & H).
  exec_end H.
  unfold group. destruct m as [idx gs]. cbn in *. subst gs. cbn.
  apply (captured_not_space bareRegex) in Hc1 as [? ?].
  repeat split; [done..|]. apply indexOf_substring_self.
Qed.

Lemma date_exec (s : list Z) (m : Match) :
  exec dateRegex s = Some m ->
  exists (start stop : nat) (t : list Z),
    index m = Z.of_nat start /\
    groups m = [substring s start stop; t] /\
    line_start s (Z.of_nat start) /\
    name_at s (Z.of_nat start) date_prefix /\
    captured dateRegex not_newline t /\
    0 <= indexOf (substring s start stop) t.
Proof.
  intros H. exec_start H start stop caps.
  apply match_bol in H as [Hbol H].
  apply match_lit in H as [Hname H]. cbn [app] in H.
  apply match_star in H as [k0 H].
  apply match_group in H as (k1 & Hc1 & H).
  pose proof (match_items_mono _ _ _ _ _ _ _ H) as Hm1.
  apply match_eol in H.
  exec_end H.
  eexists start, _, _. split; [done|]. split; [eassumption|].
  split; [by apply (at_bol_line_start dateRegex)|].
  split; [by apply (name_at_intro dateRegex s start (list_ascii_of_string "date:"))|].
  split; [done|]. apply indexOf_substring; lia.
Qed.

End ExpressionFacts.

Section LocatedTheorems.

Import GenerateWitness Located.

(** When [main] builds the circuit inputs, then in the decoded header the
    Subject match starts with "subject:" in any letter case, the From and
    the Date line start at a line start with their names, and each of the
    five fields is located at or after the start of its match, at code
    units that are not empty and hold no white space (no CR or LF for the
    timestamp); the length of a field is the byte length of these code
    units, and where the header is ASCII up to the end of a field, the
    index and the length address exactly these bytes. *)
Theorem circuitInput_located (header : list Z) (len : Z) (pk sig : list Z)
    (i : Inputs) :
  circuitInput header len pk sig = inr i ->
  located_layout (take (Z.to_nat len) header) i.
Proof.
  unfold circuitInput. set (buf := take (Z.to_nat len) header).
  set (s := toString_utf8 buf). intros H.
  destruct (exec subjectRegex s) as [sm|] eqn:Hsub; [|discriminate].
  cbn [bind or_throw] in H.
  destruct (negb (indexOf (group sm 0) (group sm 1) <? 0)) eqn:Hr1;
    cbn [bind require] in H; [|discriminate].
  destruct (negb (indexOf (group sm 0) (group sm 2) <? 0)) eqn:Hr2;
    cbn [bind require] in H; [|discriminate].
  destruct (negb (indexOf (group sm 0) (group sm 3) <? 0)) eqn:Hr3;
    cbn [bind require] in H; [|discriminate].
  destruct (exec fromLineRegex s) as [fm|] eqn:Hfrom;
    cbn [bind or_throw] in H; [|discriminate].
  remember (match exec angleRegex (group fm 0) with
            | Some angleMatch => inr (group angleMatch 1)
            | None => bind (or_throw SenderNotFound (exec bareRegex (group fm 0)))
                        (fun bareMatch => inr (group bareMatch 1))
            end) as sender eqn:Hsender.
  destruct sender as [e|addr]; cbn [bind] in H; [discriminate|].
  assert (Haddr : addr <> [] /\ Forall (fun c => is_space c = false) addr).
  { destruct (exec angleRegex (group fm 0)) as [am|] eqn:Hang.
    - injection Hsender as ->.
      by destruct (angle_exec (group fm 0) am Hang) as (? & ? & _).
    - destruct (exec bareRegex (group fm 0)) as [bm|] eqn:Hbare; [|discriminate].
      cbn [bind or_throw] in Hsender. injection Hsender as ->.
      by destruct (bare_exec (group fm 0) bm Hbare) as (? & ? & _). }
  clear Hsender.
  destruct (negb (indexOf (group fm 0) addr <? 0)) eqn:Hr4;
    cbn [bind require] in H; [|discriminate].
  destruct (exec dateRegex s) as [dm|] eqn:Hdate;
    cbn [bind or_throw] in H; [|discriminate].
  destruct (negb (indexOf (group dm 0) (group dm 1) <? 0)) eqn:Hr5;
    cbn [bind require] in H; [|discriminate].
  injection H as <-.
  apply negb_true_iff, Z.ltb_ge in Hr1, Hr2, Hr3, Hr4, Hr5.
  destruct (subject_exec s sm Hsub)
    as (start & stop & t1 & t2 & t3 & Hidx & Hgr & Hname & Hc1 & Hc2 & Hc3 & _).
  destruct (fromLine_exec s fm Hfrom) as (fstart & fstop & Hfidx & Hfgr & Hfline & Hfname).
  destruct (date_exec s dm Hdate)
    as (dstart & dstop & t & Hdidx & Hdgr & Hdline & Hdname & Hct & _).
  unfold group in *. rewrite Hgr in *. rewrite Hfgr in *. rewrite Hdgr in *.
  cbn [lookup list_lookup default] in *. unfold id in *.
  rewrite Hidx, Hfidx, Hdidx.
  apply captured_not_space in Hc1 as [Hn1 He1], Hc2 as [Hn2 He2], Hc3 as [Hn3 He3].
  apply captured_not_newline in Hct as [Hnt Het]. destruct Haddr as [Hna Hea].
  unfold located_layout.
  cbn [subject_start_idx subject_request_id_idx subject_request_id_len
       subject_account_id_idx subject_account_id_len subject_public_key_idx
       subject_public_key_len from_start_idx from_addr_idx from_addr_len
       date_start_idx date_timestamp_idx date_timestamp_len].
  repeat (split; [done || by apply field_at_intro|]).
  by apply field_at_intro.
Qed.

(** When [main] throws while it locates the fields, a pattern did not
    match: the Subject pattern, the From line, both patterns for the sender
    in the From line, or the Date line. The five errors for a field that is
    not found in the text of its match are never thrown, since a captured
    text occurs in the text of its match. *)
Theorem circuitInput_throws (header : list Z) (len : Z) (pk sig : list Z)
    (e : Error) :
  circuitInput header len pk sig = inl e ->
  let s := toString_utf8 (take (Z.to_nat len) header) in
  match e with
  | SubjectNotFound => exec subjectRegex s = None
  | FromNotFound => exec subjectRegex s <> None /\ exec fromLineRegex s = None
  | SenderNotFound =>
      exists fromLineMatch,
        exec fromLineRegex s = Some fromLineMatch /\
        exec angleRegex (group fromLineMatch 0) = None /\
        exec bareRegex (group fromLineMatch 0) = None
  | DateNotFound =>
      exec subjectRegex s <> None /\ exec fromLineRegex s <> None /\
      exec dateRegex s = None
  | RequestIdOffset | AccountIdOffset | PublicKeyOffset
  | SenderOffset | TimestampOffset => False
  end.
Proof.
  unfold circuitInput. set (buf := take (Z.to_nat len) header).
  set (s := toString_utf8 buf). intros H. cbv zeta.
  destruct (exec subjectRegex s) as [sm|] eqn:Hsub;
    cbn [bind or_throw] in H; [|by injection H as <-].
  destruct (subject_exec s sm Hsub)
    as (start & stop & t1 & t2 & t3 & _ & Hgr & _ & _ & _ & _ & Hi1 & Hi2 & Hi3).
  assert (group sm 0 = substring s start stop /\ group sm 1 = t1 /\
          group sm 2 = t2 /\ group sm 3 = t3) as (G0 & G1 & G2 & G3)
    by (unfold group; by rewrite Hgr).
  rewrite G0, G1, G2, G3 in H.
  rewrite (proj2 (Z.ltb_ge _ _) Hi1), (proj2 (Z.ltb_ge _ _) Hi2),
    (proj2 (Z.ltb_ge _ _) Hi3) in H.
  cbn [negb bind require] in H.
  destruct (exec fromLineRegex s) as [fm|] eqn:Hfrom;
    cbn [bind or_throw] in H; [|by injection H as <-].
  destruct (exec angleRegex (group fm 0)) as [am|] eqn:Hang.
  - destruct (angle_exec _ _ Hang) as (_ & _ & Hi4).
    cbn [bind] in H.
    rewrite (proj2 (Z.ltb_ge _ _) Hi4) in H. cbn [negb bind require] in H.
    destruct (exec dateRegex s) as [dm|] eqn:Hdate;
      cbn [bind or_throw] in H; [|by injection H as <-].
    destruct (date_exec s dm Hdate) as (ds & de & t & _ & Hdgr & _ & _ & _ & Hi5).
    assert (group dm 0 = substring s ds de /\ group dm 1 = t) as (D0 & D1)
      by (unfold group; by rewrite Hdgr).
    rewrite D0, D1, (proj2 (Z.ltb_ge _ _) Hi5) in H. discriminate.
  - destruct (exec bareRegex (group fm 0)) as [bm|] eqn:Hbare;
      cbn [bind or_throw] in H; [|injection H as <-; by exists fm].
    destruct (bare_exec _ _ Hbare) as (_ & _ & Hi4).
    rewrite (proj2 (Z.ltb_ge _ _) Hi4) in H. cbn [negb bind require] in H.
    destruct (exec dateRegex s) as [dm|] eqn:Hdate;
      cbn [bind or_throw] in H; [|by injection H as <-].
    destruct (date_exec s dm Hdate) as (ds & de & t & _ & Hdgr & _ & _ & _ & Hi5).
    assert (group dm 0 = substring s ds de /\ group dm 1 = t) as (D0 & D1)
      by (unfold group; by rewrite Hdgr).
    rewrite D0, D1, (proj2 (Z.ltb_ge _ _) Hi5) in H. discriminate.
Qed.

End LocatedTheorems.

Section LocatedInstances.

Import GenerateWitness Located Examples.

Lemma circuitInput_located_witness :
  circuitInput (verifier_header accent_bytes) (verifier_length accent_bytes) [] []
  = inr accent_located /\
  located_layout
    (take (Z.to_nat (verifier_length accent_bytes)) (verifier_header accent_bytes))
    accent_located.
Proof.
  split; [vm_compute; reflexivity|].
  apply (circuitInput_located (verifier_header accent_bytes)
           (verifier_length accent_bytes) [] [] accent_located).
  vm_compute. reflexivity.
Defined.

(** A header with a Subject line and no From line. *)
Lemma circuitInput_throws_witness :
  circuitInput (header_of (take 72 scenario_bytes)) 72 [] [] = inl FromNotFound /\
  exec subjectRegex (toString_utf8 (take (Z.to_nat 72) (header_of (take 72 scenario_bytes))))
  <> None /\
  exec fromLineRegex (toString_utf8 (take (Z.to_nat 72) (header_of (take 72 scenario_bytes))))
  = None.
Proof.
  split; [vm_compute; reflexivity|].
  apply (circuitInput_throws (header_of (take 72 scenario_bytes)) 72 [] [] FromNotFound).
  vm_compute. reflexivity.
Defined.

End LocatedInstances.

(** * Two readings of one Subject line *)

Section SplitTheorems.

Import RecoverEmailCircuit Layout SubstringPacker Examples.

Lemma PackBytes_inj (a b : list Z) :
  Forall is_byte a -> Forall is_byte b ->
  length a = 255%nat -> length b = 255%nat ->
  PackBytes a = PackBytes b -> a = b.
Proof.
  intros Ha Hb La Lb E.
  pose proof (unpack_PackBytes a Ha ltac:(lia)) as Ea.
  pose proof (unpack_PackBytes b Hb ltac:(lia)) as Eb.
  rewrite E, Eb in Ea. unfold pad_right in Ea. rewrite La, Lb in Ea.
  by apply app_inv_tail in Ea.
Qed.

(** The account id is delimited by the space before "ed25519:" only, and the
    request id by any space: when the witness the circuit accepts has a
    space inside its account id, the circuit also accepts, for the same
    header and signature, the witness whose request id runs up to that
    space and whose account id starts after it. The two witnesses expose
    different request ids with the same public key, address and
    timestamp. *)
Theorem subject_split_ambiguous EV (i : Inputs) (o : Outputs) (j : Z) :
  well_formed i ->
  MyCircuit EV i = Some o ->
  0 <= j < subject_account_id_len i -> subject_account_id_len i <= 256 ->
  nth (Z.to_nat (subject_account_id_idx i + j)) (emailHeader i) 0 = 32 ->
  subject_request_id_len i + 1 + j <= 255 ->
  let i' := resplit i j in
  MyCircuit EV i' = Some (outputs_of i') /\
  request_id_packed (outputs_of i') <> request_id_packed o /\
  account_id_packed (outputs_of i')
  = packed (emailHeader i) (subject_account_id_idx i + j + 1)
      (subject_account_id_len i - j - 1) /\
  public_key_packed (outputs_of i') = public_key_packed o /\
  from_email_packed (outputs_of i') = from_email_packed o /\
  timestamp_packed (outputs_of i') = timestamp_packed o.
Proof.
  intros Hwf H Hj Hal H32 Hrl i'.
  apply MyCircuit_sound in H as (HEV & Hlay & ->); [|done].
  destruct Hwf as (Hlen & Hb & Hf).
  destruct Hlay as (HS & HF & HD).
  destruct HS as (HSa & Hr & Hrl0 & H32r & Haa & Hsel & H32a & Hp2 & Hpki & Hpk1 & Hpk2).
  cbv zeta in *.
  assert (Hsig : signed (subject_account_id_len i) = subject_account_id_len i).
  { unfold signed. rewrite decide_False; [done|]. pose proof p_million. lia. }
  assert (Ha_lt : subject_account_id_idx i + j < 1024).
  { destruct (decide (subject_account_id_idx i + j < 1024)) as [|Hge]; [done|].
    rewrite nth_overflow in H32; [discriminate|].
    rewrite Hlen. unfold max_header_bytes. lia. }
  split; [|split; [|done]].
  - apply MyCircuit_complete.
    + split; [done|]. split; [done|].
      cbn [i' resplit subject_start_idx subject_request_id_idx subject_request_id_len
           subject_account_id_idx subject_account_id_len subject_public_key_idx
           subject_public_key_len from_start_idx from_addr_idx from_addr_len
           date_start_idx date_timestamp_idx date_timestamp_len].
      repeat (apply Forall_cons in Hf as [? Hf]).
      repeat (apply Forall_cons; split; [done || flia|]). done.
    + exact HEV.
    + split; [|split; [exact HF|exact HD]].
      unfold subject_layout.
      cbn [i' resplit emailHeader subject_start_idx subject_request_id_idx
           subject_request_id_len subject_account_id_idx subject_account_id_len
           subject_public_key_idx subject_public_key_len]. cbv zeta.
      assert (Hsig' : signed (subject_account_id_len i - j - 1)
                      = subject_account_id_len i - j - 1).
      { unfold signed. rewrite decide_False; [done|]. pose proof p_million. lia. }
      rewrite Hsig'. rewrite Hsig in *.
      replace (subject_account_id_idx i + j + 1 + (subject_account_id_len i - j - 1))
        with (subject_account_id_idx i + subject_account_id_len i) by lia.
      replace (subject_request_id_idx i + (subject_request_id_len i + 1 + j))
        with (subject_account_id_idx i + j) by lia.
      split; [done|]. split; [done|]. split; [lia|]. split; [done|].
      split; [lia|]. split; [left; lia|]. done.
  - cbn [i' outputs_of request_id_packed resplit emailHeader
         subject_request_id_idx subject_request_id_len].
    unfold packed. intros E.
    apply PackBytes_inj in E;
      try (by apply selected_is_byte); try (by apply length_selected).
    apply (f_equal (fun l => nth (Z.to_nat (subject_request_id_len i)) l 0)) in E.
    rewrite !nth_selected in E by done. unfold kept in E.
    rewrite !(decide_False (P := _ = p - 1)) in E by (pose proof p_million; lia).
    rewrite decide_True in E by lia. rewrite decide_False in E by lia.
    rewrite Nat.mod_small in E by lia.
    destruct HSa as [[? ?] _].
    replace (Z.to_nat (subject_request_id_len i) + Z.to_nat (subject_request_id_idx i))%nat
      with (Z.to_nat (subject_request_id_idx i + subject_request_id_len i)) in E by lia.
    rewrite H32r in E. discriminate.
Qed.

End SplitTheorems.

Section SplitInstances.

Import RecoverEmailCircuit Layout SubstringPacker Examples.

Lemma two_accounts_length : length (emailHeader two_accounts) = max_header_bytes.
Proof. reflexivity. Qed.

Lemma two_accounts_felt : Forall felt (emailHeader two_accounts).
Proof. apply header_of_felt. compute_done. Qed.

Lemma two_accounts_well_formed : well_formed two_accounts.
Proof.
  split; [reflexivity|]. split.
  - apply Forall_app. split; [compute_done|]. apply Forall_replicate.
    unfold is_byte. lia.
  - repeat (apply Forall_cons; split; [vm_compute; split; [discriminate|reflexivity]|]).
    apply Forall_nil_2.
Qed.

Lemma two_accounts_outputs :
  MyCircuit accept_all two_accounts = Some (outputs_of two_accounts).
Proof.
  assert (is_Some (MyCircuit accept_all two_accounts)) as [o Ho].
  { unfold_circuit.
    cbn [emailHeader emailHeaderLength pubkey signature
         subject_start_idx subject_request_id_idx subject_request_id_len
         subject_account_id_idx subject_public_key_idx subject_account_id_len
         subject_public_key_len from_start_idx from_addr_idx from_addr_len
         date_start_idx date_timestamp_idx date_timestamp_len two_accounts].
    select_windows two_accounts_length two_accounts_felt.
    vm_compute. eexists. reflexivity. }
  rewrite Ho.
  by apply MyCircuit_sound in Ho as (_ & _ & ->); [|apply two_accounts_well_formed].
Qed.

(** "req42" for "alice.near bob.near", and "req42 alice.near" for
    "bob.near". *)
Lemma subject_split_ambiguous_witness :
  well_formed two_accounts /\
  MyCircuit accept_all two_accounts = Some (outputs_of two_accounts) /\
  nth (Z.to_nat (subject_account_id_idx two_accounts + 10)) (emailHeader two_accounts) 0
  = 32 /\
  MyCircuit accept_all (resplit two_accounts 10)
  = Some (outputs_of (resplit two_accounts 10)) /\
  request_id_packed (outputs_of (resplit two_accounts 10))
  <> request_id_packed (outputs_of two_accounts) /\
  account_id_packed (outputs_of (resplit two_accounts 10))
  = packed (emailHeader two_accounts) (subject_account_id_idx two_accounts + 10 + 1)
      (subject_account_id_len two_accounts - 10 - 1) /\
  public_key_packed (outputs_of (resplit two_accounts 10))
  = public_key_packed (outputs_of two_accounts) /\
  from_email_packed (outputs_of (resplit two_accounts 10))
  = from_email_packed (outputs_of two_accounts) /\
  timestamp_packed (outputs_of (resplit two_accounts 10))
  = timestamp_packed (outputs_of two_accounts).
Proof.
  split; [exact two_accounts_well_formed|]. split; [exact two_accounts_outputs|].
  split; [reflexivity|].
  apply (subject_split_ambiguous accept_all two_accounts (outputs_of two_accounts) 10).
  - exact two_accounts_well_formed.
  - exact two_accounts_outputs.
  - vm_compute. split; [discriminate|reflexivity].
  - vm_compute. discriminate.
  - reflexivity.
  - vm_compute. discriminate.
Defined.

End SplitInstances.

(** * The outputs as packed slices of the header *)

Section SliceTheorems.

Import RecoverEmailCircuit Layout SubstringPacker Located Examples.

Lemma PackBytes_pad_right (l : list Z) :
  (length l <= 255)%nat -> PackBytes (pad_right 255 l) = PackBytes l.
Proof.
  intros Hl. unfold PackBytes. apply map_ext. intros i. f_equal.
  apply (nth_ext _ _ 0 0).
  - rewrite !length_pad_right by apply length_take_drop_le. done.
  - intros j _. rewrite !nth_pad_right, !nth_take_drop.
    case_decide; [|done]. apply nth_pad_right.
Qed.

Lemma packed_slice (h : list Z) (idx len : Z) :
  length h = max_header_bytes ->
  0 <= idx -> 0 <= len <= 255 -> idx + len <= 1024 ->
  packed h idx len = PackBytes (slice h idx len).
Proof.
  intros Hlen Hi Hl Hend. unfold packed, selected, slice, kept.
  rewrite decide_False by (pose proof p_million; lia).
  rewrite Z.min_l by lia.
  rewrite PackBytes_pad_right by (rewrite length_cells; lia).
  by rewrite cells_slice by (done || lia).
Qed.

(** The outputs of an accepted witness are the packings of the bytes of the
    header at the given indices: the request id and the account id whenever
    their length is at most 255, the public key, the address and the
    timestamp whenever their length is at most 255 and they end inside the
    buffer. The cells after the field are zero in the packing, whatever the
    header holds there. *)
Theorem accepted_outputs_pack_slices EV (i : Inputs) (o : Outputs) :
  well_formed i ->
  MyCircuit EV i = Some o ->
  let h := emailHeader i in
  let inside (idx len : Z) := 0 <= len <= 255 /\ idx + len <= 1024 in
  (subject_request_id_len i <= 255 ->
   request_id_packed o
   = PackBytes (slice h (subject_request_id_idx i) (subject_request_id_len i))) /\
  (subject_account_id_len i <= 255 ->
   account_id_packed o
   = PackBytes (slice h (subject_account_id_idx i) (subject_account_id_len i))) /\
  (inside (subject_public_key_idx i) (subject_public_key_len i) ->
   public_key_packed o
   = PackBytes (slice h (subject_public_key_idx i) (subject_public_key_len i))) /\
  (inside (from_addr_idx i) (from_addr_len i) ->
   from_email_packed o
   = PackBytes (slice h (from_addr_idx i) (from_addr_len i))) /\
  (inside (date_timestamp_idx i) (date_timestamp_len i) ->
   timestamp_packed o
   = PackBytes (slice h (date_timestamp_idx i) (date_timestamp_len i))).
Proof.
  intros Hwf H h inside.
  apply MyCircuit_sound in H as (_ & Hlay & ->); [|done].
  destruct Hwf as (Hlen & Hb & Hf).
  repeat (apply Forall_cons in Hf as [? Hf]).
  destruct Hlay as (HS & _ & _).
  destruct HS as (_ & _ & Hrl & H32r & Haa & Hsel & H32a & _).
  cbv zeta in *.
  assert (Hnth : forall k, 0 <= k -> nth (Z.to_nat k) h 0 = 32 -> k < 1024).
  { intros k Hk E. destruct (decide (k < 1024)) as [|Hge]; [done|].
    rewrite nth_overflow in E; [discriminate|].
    unfold h. rewrite Hlen. unfold max_header_bytes. lia. }
  cbn [outputs_of request_id_packed account_id_packed public_key_packed
       from_email_packed timestamp_packed].
  split; [|split; [|split; [|split]]].
  - intros Hle. apply packed_slice; [done|flia|lia|].
    apply Hnth in H32r; [lia|flia].
  - intros Hle.
    assert (0 <= subject_account_id_len i) by flia.
    assert (signed (subject_account_id_len i) = subject_account_id_len i) as Hsig.
    { unfold signed. rewrite decide_False; [done|]. pose proof p_million. lia. }
    rewrite Hsig in H32a.
    apply packed_slice; [done|flia|lia|].
    apply Hnth in H32a; [lia|flia].
  - intros [Hl Hend]. apply packed_slice; [done|flia|done|done].
  - intros [Hl Hend]. apply packed_slice; [done|flia|done|done].
  - intros [Hl Hend]. apply packed_slice; [done|flia|done|done].
Qed.

Lemma accepted_outputs_pack_slices_witness :
  well_formed scenario /\
  MyCircuit accept_all scenario = Some (outputs_of scenario) /\
  request_id_packed (outputs_of scenario) = PackBytes (str "req42") /\
  account_id_packed (outputs_of scenario) = PackBytes (str "alice.near") /\
  public_key_packed (outputs_of scenario) = PackBytes (str "PUBKEY123") /\
  from_email_packed (outputs_of scenario) = PackBytes (str "alice@example.com") /\
  timestamp_packed (outputs_of scenario)
  = PackBytes (str "Mon, 01 Jan 2024 00:00:00 +0000").
Proof.
  split; [exact scenario_well_formed|]. split; [exact scenario_outputs|].
  destruct (accepted_outputs_pack_slices accept_all scenario (outputs_of scenario)
              scenario_well_formed scenario_outputs) as (H1 & H2 & H3 & H4 & H5).
  split; [|split; [|split; [|split]]].
  - apply H1. vm_compute. discriminate.
  - apply H2. vm_compute. discriminate.
  - apply H3. vm_compute. repeat split; discriminate.
  - apply H4. vm_compute. repeat split; discriminate.
  - apply H5. vm_compute. repeat split; discriminate.
Defined.

End SliceTheorems.
